(** * FIFO arithmetic service: wire records, exact-length I/O, compute,
      the server's dispatch loop and the client's request builder.

    Shallow embedding of [server.c] and [client.c].  Both files declare the
    same two packed structs and the same [read_full] / [write_full] helpers,
    so each is modelled once. *)

From Stdlib Require Import String ZArith List Lia Bool.
From Stdlib.Strings Require Import Byte.
From Stdlib Require Import Permutation.
From Equations Require Import Equations.
Import ListNotations.
Local Open Scope Z_scope.

(* ===================================================================== *)
(** ** Fixed-width integers                                               *)
(* ===================================================================== *)

(** [int64_t] and [int32_t] values are integers of [Z] inside the signed
    range of their width. *)
Definition int64_min : Z := - 2 ^ 63.
Definition int64_max : Z := 2 ^ 63 - 1.
Definition int32_min : Z := - 2 ^ 31.
Definition int32_max : Z := 2 ^ 31 - 1.

Definition in_int64 (x : Z) : Prop := int64_min <= x <= int64_max.
Definition in_int32 (x : Z) : Prop := int32_min <= x <= int32_max.

(** Two's complement wrap-around of an exact integer into [bits] bits. *)
Definition wrap_signed (bits : Z) (x : Z) : Z :=
  (x + 2 ^ (bits - 1)) mod 2 ^ bits - 2 ^ (bits - 1).

Definition wrap64 : Z -> Z := wrap_signed 64.

(** [a+b], [a-b] and [a*b] on [int64_t].  C leaves the overflow of these
    undefined; the model takes what the 64-bit add, subtract and multiply
    instructions compute, which is the exact result modulo 2^64. *)
Definition add64 (a b : Z) : Z := wrap64 (a + b).
Definition sub64 (a b : Z) : Z := wrap64 (a - b).
Definition mul64 (a b : Z) : Z := wrap64 (a * b).

(** [a/b] on [int64_t]: truncation toward zero.  The operation has no value
    when [b = 0] and when the quotient is not representable, which happens
    for [INT64_MIN / -1] only: C leaves both undefined, and the 64-bit
    divide instruction raises the arithmetic fault (SIGFPE) on both. *)
Definition div64 (a b : Z) : option Z :=
  if (b =? 0) || ((a =? int64_min) && (b =? -1)) then None
  else Some (Z.quot a b).

(* ===================================================================== *)
(** ** Bytes and object representations                                   *)
(* ===================================================================== *)

Definition byte_to_Z (b : byte) : Z := Z.of_N (Byte.to_N b).

Definition byte_of_Z (z : Z) : byte :=
  match Byte.of_N (Z.to_N (z mod 256)) with
  | Some b => b
  | None => x00
  end.

(** The structs are written to the FIFO exactly as they lie in memory, so a
    multi-byte field appears in the byte order of the host. *)
Inductive byte_order : Set := LittleEndian | BigEndian.

(** The [n] low-order base-256 digits of [x], least significant first.  For
    a negative [x] these are the digits of its two's complement. *)
Fixpoint le_bytes (n : nat) (x : Z) : list byte :=
  match n with
  | O => []
  | S n' => byte_of_Z (x mod 256) :: le_bytes n' (x / 256)
  end.

Fixpoint le_value (bs : list byte) : Z :=
  match bs with
  | [] => 0
  | b :: bs' => byte_to_Z b + 256 * le_value bs'
  end.

Definition in_order (bo : byte_order) (bs : list byte) : list byte :=
  match bo with
  | LittleEndian => bs
  | BigEndian => rev bs
  end.

(** Object representation of a signed integer field of [size] bytes, and
    the value of such a field read back from memory. *)
Definition int_bytes (bo : byte_order) (size : nat) (x : Z) : list byte :=
  in_order bo (le_bytes size x).

Definition int_of_bytes (bo : byte_order) (bs : list byte) : Z :=
  let bits := 8 * Z.of_nat (length bs) in
  let u := le_value (in_order bo bs) in
  if u <? 2 ^ (bits - 1) then u else u - 2 ^ bits.

(* ===================================================================== *)
(** ** C strings and the [string.h] / [stdio.h] calls the code uses       *)
(* ===================================================================== *)

Definition bytes_of (s : string) : list byte := list_byte_of_string s.

(** Number of bytes before the first NUL. *)
Fixpoint strlen (s : list byte) : nat :=
  match s with
  | [] => O
  | b :: s' => if Byte.eqb b x00 then O else S (strlen s')
  end.

(** The C string held in a buffer: its bytes up to the first NUL. *)
Definition c_string (buf : list byte) : list byte := firstn (strlen buf) buf.

(** [memset(&x, 0, n)] on a fresh object of [n] bytes. *)
Definition zeroed (n : nat) : list byte := repeat x00 n.

(** [memcpy(dst, src, n)]. *)
Definition memcpy (dst src : list byte) (n : nat) : list byte :=
  firstn n src ++ skipn n dst.

(** [memcmp(a, b, n)]: zero when the first [n] bytes agree, otherwise the
    difference of the first pair of bytes that differ. *)
Fixpoint memcmp (a b : list byte) (n : nat) {struct n} : Z :=
  match n, a, b with
  | S n', x :: a', y :: b' =>
      if Byte.eqb x y then memcmp a' b' n' else byte_to_Z x - byte_to_Z y
  | _, _, _ => 0
  end.

(** [strcmp(a, b)]. *)
Fixpoint strcmp (a b : list byte) : Z :=
  match a, b with
  | x :: a', y :: b' =>
      if Byte.eqb x y
      then (if Byte.eqb x x00 then 0 else strcmp a' b')
      else byte_to_Z x - byte_to_Z y
  | x :: _, [] => byte_to_Z x
  | [], y :: _ => - byte_to_Z y
  | [], [] => 0
  end.

(** [strncpy(dst, src, n)]: at most [n] bytes of the string [src]; when the
    string is shorter than [n] the remainder of the [n] bytes is filled
    with NUL. *)
Definition strncpy (dst src : list byte) (n : nat) : list byte :=
  let l := strlen src in
  (if (l <? n)%nat then firstn l src ++ repeat x00 (n - l) else firstn n src)
    ++ skipn n dst.

(** [snprintf(buf, size, lit)] for a format without conversions: at most
    [size-1] bytes of [lit], then a NUL; the rest of [buf] is untouched. *)
Definition snprintf (buf : list byte) (size : nat) (lit : list byte)
  : list byte :=
  match size with
  | O => buf
  | S m =>
      let body := firstn m lit in
      body ++ x00 :: skipn (S (length body)) buf
  end.

(** [buf[0] = c]. *)
Definition store_first (buf : list byte) (c : byte) : list byte :=
  match buf with
  | [] => []
  | _ :: t => c :: t
  end.

(* ===================================================================== *)
(** ** Wire records                                                       *)
(* ===================================================================== *)

Definition RESP_NAME_MAX : nat := 128.
Definition OP_MAX : nat := 4.
Definition ERROR_MAX : nat := 128.

(** [request_msg_t] (packed). [pid_t] is a 32-bit signed integer. *)
Record request_msg_t : Type := mk_request {
  operation  : list byte;   (* char[OP_MAX] *)
  operand1   : Z;           (* int64_t *)
  operand2   : Z;           (* int64_t *)
  client_pid : Z;           (* pid_t *)
  resp_fifo  : list byte    (* char[RESP_NAME_MAX] *)
}.

(** [response_msg_t] (packed). *)
Record response_msg_t : Type := mk_response {
  result  : Z;              (* int64_t *)
  success : Z;              (* int32_t *)
  error   : list byte       (* char[128] *)
}.

(** A record is a value of its C type when every field is a value of its C
    type: arrays have their declared length and integers are in range. *)
Definition valid_request (rq : request_msg_t) : Prop :=
  length (operation rq) = OP_MAX /\
  in_int64 (operand1 rq) /\ in_int64 (operand2 rq) /\
  in_int32 (client_pid rq) /\
  length (resp_fifo rq) = RESP_NAME_MAX.

Definition valid_response (rp : response_msg_t) : Prop :=
  in_int64 (result rp) /\ in_int32 (success rp) /\
  length (error rp) = ERROR_MAX.

(** [sizeof(request_msg_t)] and [sizeof(response_msg_t)]: the structs are
    packed, so the sizes are the sums of the field sizes. *)
Definition FIXED_REQ_LEN : nat := OP_MAX + 8 + 8 + 4 + RESP_NAME_MAX.
Definition FIXED_RESP_LEN : nat := 8 + 4 + ERROR_MAX.

Section Codec.
Variable bo : byte_order.

(** The bytes [write_full(fd, &rq, sizeof(rq))] sends: the fields in
    declaration order without padding. *)
Definition encode_request (rq : request_msg_t) : list byte :=
  operation rq ++ int_bytes bo 8 (operand1 rq)
    ++ int_bytes bo 8 (operand2 rq)
    ++ int_bytes bo 4 (client_pid rq) ++ resp_fifo rq.

(** The struct [read_full(fd, &rq, sizeof(rq))] leaves in [rq]. *)
Definition decode_request (bs : list byte) : request_msg_t :=
  {| operation  := firstn OP_MAX bs;
     operand1   := int_of_bytes bo (firstn 8 (skipn 4 bs));
     operand2   := int_of_bytes bo (firstn 8 (skipn 12 bs));
     client_pid := int_of_bytes bo (firstn 4 (skipn 20 bs));
     resp_fifo  := firstn RESP_NAME_MAX (skipn 24 bs) |}.

Definition encode_response (rp : response_msg_t) : list byte :=
  int_bytes bo 8 (result rp) ++ int_bytes bo 4 (success rp) ++ error rp.

Definition decode_response (bs : list byte) : response_msg_t :=
  {| result  := int_of_bytes bo (firstn 8 bs);
     success := int_of_bytes bo (firstn 4 (skipn 8 bs));
     error   := firstn ERROR_MAX (skipn 12 bs) |}.
End Codec.

(* ===================================================================== *)
(** ** compute                                                            *)
(* ===================================================================== *)

Definition set_result (rp : response_msg_t) (r : Z) : response_msg_t :=
  {| result := r; success := success rp; error := error rp |}.
Definition set_success (rp : response_msg_t) (s : Z) : response_msg_t :=
  {| result := result rp; success := s; error := error rp |}.
Definition set_error (rp : response_msg_t) (e : list byte) : response_msg_t :=
  {| result := result rp; success := success rp; error := e |}.

(** [compute(rq, rp)] updates the response [*rp] in place; the model takes
    the response as it is on entry and returns it as it is on exit.  The
    result is [None] when the division has no value (see [div64]): the
    process is then stopped by the arithmetic fault and nothing after
    [compute] runs. *)
Definition compute (rq : request_msg_t) (rp : response_msg_t)
  : option response_msg_t :=
  let rp := set_error (set_success rp 1) (store_first (error rp) x00) in
  let a := operand1 rq in
  let b := operand2 rq in
  if memcmp (operation rq) (bytes_of "add") 3 =? 0 then
    Some (set_result rp (add64 a b))
  else if memcmp (operation rq) (bytes_of "sub") 3 =? 0 then
    Some (set_result rp (sub64 a b))
  else if memcmp (operation rq) (bytes_of "mul") 3 =? 0 then
    Some (set_result rp (mul64 a b))
  else if memcmp (operation rq) (bytes_of "div") 3 =? 0 then
    if b =? 0 then
      Some (set_error (set_success rp 0)
              (snprintf (error rp) ERROR_MAX (bytes_of "Divide by zero")))
    else
      match div64 a b with
      | Some q => Some (set_result rp q)
      | None => None
      end
  else
    Some (set_error (set_success rp 0)
            (snprintf (error rp) ERROR_MAX (bytes_of "Invalid operation"))).

(* ===================================================================== *)
(** ** Channel endpoints and the exact-length I/O helpers                 *)
(* ===================================================================== *)

Definition EINTR : Z := 4.

(** A [write] on a FIFO whose reading end has been closed fails with
    [EPIPE] and raises SIGPIPE.  Neither program installs a handler for
    that signal or ignores it, so the process that makes the call is
    killed inside it.  [write_full] below describes the calls and their
    results; what this failure does to the process is said where the
    processes are described. *)
Definition EPIPE : Z := 32.

(** The reading end of a FIFO is described by what it will deliver to the
    successive [read] calls made on it. *)
Inductive fd_event : Type :=
| Data (bs : list byte)   (* these bytes are in the pipe *)
| Eof                     (* the pipe is empty and has no writer *)
| Err (errno : Z).        (* the call fails with this [errno] *)

Definition endpoint : Type := list fd_event.

(** Outcome of one [read] or [write] call: the bytes transferred (the
    return value is their number) or [-1] with [errno]. *)
Inductive sys_ret : Type :=
| SysOk (bs : list byte)
| SysErr (errno : Z).

(** [read(fd, p, count)]: at most [count] of the bytes in the pipe; what is
    not taken stays for the next call.  [None]: nothing will ever arrive
    and the call does not return. *)
Definition sys_read (fd : endpoint) (count : nat)
  : option (sys_ret * endpoint) :=
  match fd with
  | [] => None
  | Eof :: fd' => Some (SysOk [], fd')
  | Err e :: fd' => Some (SysErr e, fd')
  | Data bs :: fd' =>
      if (length bs <=? count)%nat then Some (SysOk bs, fd')
      else Some (SysOk (firstn count bs), Data (skipn count bs) :: fd')
  end.

(** Return value of [read_full] / [write_full]: a byte count, or [-1] with
    the [errno] of the call that failed. *)
Inductive io_ret : Type :=
| Count (k : nat)
| Failed (errno : Z).

Definition ssize_of (r : io_ret) : Z :=
  match r with
  | Count k => Z.of_nat k
  | Failed _ => -1
  end.

Inductive read_result : Type :=
| ReadReturns (r : io_ret) (buf : list byte) (fd : endpoint)
| ReadBlocks.

(** The bytes [bs] stored at [buf + off]. *)
Definition store (buf : list byte) (off : nat) (bs : list byte) : list byte :=
  firstn off buf ++ bs ++ skipn (off + length bs) buf.

Definition inspect {A : Type} (a : A) : {b : A | a = b} := exist _ a eq_refl.

(** The loop of [read_full], started with [off] bytes already in [buf]. *)
Equations? read_full_loop (fd : endpoint) (buf : list byte) (n off : nat)
  : read_result by wf (length fd + (n - off))%nat lt :=
  read_full_loop fd buf n off with lt_dec off n := {
    | right _ := ReadReturns (Count off) buf fd
    | left Hlt with inspect (sys_read fd (n - off)) := {
        | exist _ None _ := ReadBlocks
        | exist _ (Some (SysOk [], fd')) _ := ReadReturns (Count off) buf fd'
        | exist _ (Some (SysOk (b :: bs), fd')) Hrd :=
            read_full_loop fd' (store buf off (b :: bs)) n
              (off + length (b :: bs))
        | exist _ (Some (SysErr e, fd')) Hrd :=
            if e =? EINTR then read_full_loop fd' buf n off
            else ReadReturns (Failed e) buf fd' } }.
Proof.
  - destruct fd as [|[c| |e'] fd0]; simpl in Hrd; try discriminate.
    destruct (length c <=? n - off)%nat;
      inversion Hrd; subst; simpl; lia.
  - destruct fd as [|[c| |e'] fd0]; simpl in Hrd; try discriminate.
    + destruct (length c <=? n - off)%nat; discriminate.
    + inversion Hrd; subst; simpl; lia.
Qed.

Definition read_full (fd : endpoint) (buf : list byte) (n : nat)
  : read_result :=
  read_full_loop fd buf n 0.

(** The writing end of a FIFO is described by what the successive [write]
    calls made on it will do. *)
Inductive wr_event : Type :=
| Accept (k : nat)        (* the pipe takes up to [k] bytes *)
| WErr (errno : Z).       (* the call fails with this [errno] *)

Definition out_endpoint : Type := list wr_event.

(** [write(fd, p, count)] where [data] are the [count] bytes at [p]. *)
Definition sys_write (ev : wr_event) (data : list byte) : sys_ret :=
  match ev with
  | Accept k => SysOk (firstn k data)
  | WErr e => SysErr e
  end.

(** [sent] are the bytes the endpoint has taken so far.  [WriteBlocks]: a
    [write] call does not return. *)
Inductive write_result : Type :=
| WriteReturns (r : io_ret) (sent : list byte) (out : out_endpoint)
| WriteBlocks (sent : list byte).

(** The loop of [write_full]. *)
Fixpoint write_full_loop (out : out_endpoint) (buf : list byte) (n off : nat)
  (sent : list byte) : write_result :=
  if (off <? n)%nat then
    match out with
    | [] => WriteBlocks sent
    | ev :: out' =>
        match sys_write ev (firstn (n - off) (skipn off buf)) with
        | SysErr e =>
            if e =? EINTR then write_full_loop out' buf n off sent
            else WriteReturns (Failed e) sent out'
        | SysOk bs => write_full_loop out' buf n (off + length bs) (sent ++ bs)
        end
    end
  else WriteReturns (Count off) sent out.

Definition write_full (out : out_endpoint) (buf : list byte) (n : nat)
  : write_result :=
  write_full_loop out buf n 0 [].

(** [open(path, O_WRONLY)] on a FIFO: a descriptor, [-1] with [errno], or no
    return at all while nobody opens the reading end. *)
Inductive open_outcome : Type :=
| Opened
| OpenFails (errno : Z)
| OpenBlocks.

(* ===================================================================== *)
(** ** Processes: what they do, as a trace                                *)
(* ===================================================================== *)

(** The lines written to standard output and to [server.log], by kind and
    arguments instead of formatted text. *)
Inductive message : Type :=
| MsgPartial (k : Z)                 (* "Partial request (%zd bytes) ignored" *)
| MsgRecv (rq : request_msg_t)       (* "recv from PID=..." and "Recv PID=..." *)
| MsgForkFailed (errno : Z)          (* "fork() failed: %s" *)
| MsgComputed (rq : request_msg_t) (r : Z)
                                     (* "computed op(a,b) = r" *)
| MsgComputedError (rq : request_msg_t) (e : list byte)
                                     (* "computed op(a,b) -> ERROR: e" *)
| MsgOpenFailed (path : list byte) (errno : Z)
                                     (* "failed to open ..." *)
| MsgWriteFailed (path : list byte) (errno : Z)
                                     (* "write to ... FAILED" *)
| MsgSent (path : list byte).        (* "response sent to ..." *)

Inductive fork_outcome : Type :=
| ForkParent (cpid : Z)   (* [fork] returned the child's pid, [cpid > 0] *)
| ForkFails (errno : Z).  (* [fork] returned [-1] *)

(** What a process does that others can see.  [EvWrite path bs]: the
    endpoint opened at [path] took the bytes [bs]; [EvReopen]: the request
    FIFO is closed and opened again; [EvFork rq f]: [fork] was called while
    [rq] held the request, so that on success the child owns a copy. *)
Inductive event : Type :=
| EvPrint (m : message)
| EvLog (m : message)
| EvOpen (path : list byte) (o : open_outcome)
| EvWrite (path : list byte) (bytes : list byte)
| EvClose (path : list byte)
| EvReopen (ok : bool)
| EvFork (rq : request_msg_t) (f : fork_outcome)
| EvExit (code : Z).

Inductive proc_status : Type :=
| Exited (code : Z)
| Killed        (* stopped by the arithmetic fault *)
| Sigpipe       (* killed by SIGPIPE inside a [write] *)
| Blocked.      (* inside a call that does not return *)

Record run : Type := mk_run {
  trace  : list event;
  status : proc_status
}.

(** The payloads of the [EvWrite] events on [path], in order. *)
Fixpoint writes_to (path : list byte) (t : list event) : list (list byte) :=
  match t with
  | [] => []
  | EvWrite p bs :: t' =>
      if list_eq_dec Byte.byte_eq_dec p path then bs :: writes_to path t'
      else writes_to path t'
  | _ :: t' => writes_to path t'
  end.

Definition is_open (e : event) : bool :=
  match e with EvOpen _ _ => true | _ => false end.
Definition is_write (e : event) : bool :=
  match e with EvWrite _ _ => true | _ => false end.
Definition is_fork (e : event) : bool :=
  match e with EvFork _ _ => true | _ => false end.

(** [memset(&rp, 0, sizeof(rp))]. *)
Definition zero_response : response_msg_t :=
  {| result := 0; success := 0; error := zeroed ERROR_MAX |}.

Definition computed_message (rq : request_msg_t) (rp : response_msg_t)
  : message :=
  if success rp =? 0 then MsgComputedError rq (c_string (error rp))
  else MsgComputed rq (result rp).

Section Server.
Variable bo : byte_order.

(** The branch [cpid == 0] of [main]: the worker that owns [rq].  [o] is
    what [open(rq.resp_fifo, O_WRONLY)] does and [out] what the reply
    endpoint does with the writes. *)
Definition child (rq : request_msg_t) (o : open_outcome) (out : out_endpoint)
  : run :=
  match compute rq zero_response with
  | None => {| trace := []; status := Killed |}
  | Some rp =>
      let path := c_string (resp_fifo rq) in
      let t0 := [EvPrint (computed_message rq rp); EvOpen path o] in
      match o with
      | OpenBlocks => {| trace := t0; status := Blocked |}
      | OpenFails e =>
          {| trace := t0 ++ [EvLog (MsgOpenFailed path e);
                             EvPrint (MsgOpenFailed path e); EvExit 0];
             status := Exited 0 |}
      | Opened =>
          match write_full out (encode_response bo rp) FIXED_RESP_LEN with
          | WriteBlocks sent =>
              {| trace := t0 ++ [EvWrite path sent]; status := Blocked |}
          | WriteReturns (Failed e) sent _ =>
              if e =? EPIPE
              then {| trace := t0 ++ [EvWrite path sent];
                      status := Sigpipe |}
              else {| trace := t0 ++ [EvWrite path sent;
                                      EvLog (MsgWriteFailed path e);
                                      EvPrint (MsgWriteFailed path e);
                                      EvClose path; EvExit 0];
                      status := Exited 0 |}
          | WriteReturns (Count _) sent _ =>
              {| trace := t0 ++ [EvWrite path sent; EvPrint (MsgSent path);
                                 EvClose path; EvExit 0];
                 status := Exited 0 |}
          end
      end
  end.

(** The server between two iterations of its loop. *)
Record server_state : Type := mk_state {
  stop_requested : bool;
  req_fd : endpoint
}.

(** What the surroundings do during one iteration. *)
Record iter_env : Type := mk_env {
  ie_sigint : bool;             (* SIGINT or SIGTERM is handled meanwhile *)
  ie_rq : list byte;            (* the bytes of [rq] before the read *)
  ie_reopen : option endpoint;  (* the request FIFO when opened again *)
  ie_fork : fork_outcome;
  ie_rp : response_msg_t;       (* [rp] of the branch [cpid < 0], never set *)
  ie_open : open_outcome;
  ie_out : out_endpoint
}.

Inductive loop_ctl : Type :=
| Continue (st : server_state)  (* go to the next iteration *)
| Break                         (* leave the loop: [main] returns 0 *)
| Die (msg : string)            (* [die(msg)]: exit with failure *)
| Fault                         (* stopped by the arithmetic fault *)
| PipeFault                     (* killed by SIGPIPE inside a [write] *)
| Stuck.                        (* inside a call that does not return *)

Record iteration : Type := mk_iteration {
  it_trace : list event;
  it_ctl : loop_ctl
}.

(** The part of the loop body after a full request has been read. *)
Definition dispatch (rq : request_msg_t) (env : iter_env)
  (st : server_state) : iteration :=
  let t0 := [EvPrint (MsgRecv rq); EvLog (MsgRecv rq); EvFork rq (ie_fork env)] in
  match ie_fork env with
  | ForkParent _ => {| it_trace := t0; it_ctl := Continue st |}
  | ForkFails e =>
      let t1 := t0 ++ [EvLog (MsgForkFailed e)] in
      match compute rq (ie_rp env) with
      | None => {| it_trace := t1; it_ctl := Fault |}
      | Some rp =>
          let path := c_string (resp_fifo rq) in
          let t2 := t1 ++ [EvOpen path (ie_open env)] in
          match ie_open env with
          | OpenBlocks => {| it_trace := t2; it_ctl := Stuck |}
          | OpenFails _ => {| it_trace := t2; it_ctl := Continue st |}
          | Opened =>
              match write_full (ie_out env) (encode_response bo rp)
                      FIXED_RESP_LEN with
              | WriteBlocks sent =>
                  {| it_trace := t2 ++ [EvWrite path sent]; it_ctl := Stuck |}
              | WriteReturns (Failed e') sent _ =>
                  if e' =? EPIPE
                  then {| it_trace := t2 ++ [EvWrite path sent];
                          it_ctl := PipeFault |}
                  else {| it_trace := t2 ++ [EvWrite path sent; EvClose path];
                          it_ctl := Continue st |}
              | WriteReturns (Count _) sent _ =>
                  {| it_trace := t2 ++ [EvWrite path sent; EvClose path];
                     it_ctl := Continue st |}
              end
          end
      end
  end.

(** One iteration of the [for(;;)] loop of the server's [main]. *)
Definition server_iteration (st : server_state) (env : iter_env)
  : iteration :=
  if stop_requested st then {| it_trace := []; it_ctl := Break |}
  else
    match read_full (req_fd st) (ie_rq env) FIXED_REQ_LEN with
    | ReadBlocks => {| it_trace := []; it_ctl := Stuck |}
    | ReadReturns (Count O) _ _ =>
        match ie_reopen env with
        | None => {| it_trace := [EvReopen false]; it_ctl := Die "reopen" |}
        | Some fd' =>
            {| it_trace := [EvReopen true];
               it_ctl := Continue {| stop_requested := ie_sigint env;
                                     req_fd := fd' |} |}
        end
    | ReadReturns (Failed e) _ fd' =>
        if e =? EINTR
        then {| it_trace := [];
                it_ctl := Continue {| stop_requested := ie_sigint env;
                                      req_fd := fd' |} |}
        else {| it_trace := []; it_ctl := Die "read request" |}
    | ReadReturns (Count r) rq fd' =>
        let st' := {| stop_requested := ie_sigint env; req_fd := fd' |} in
        if (r <? FIXED_REQ_LEN)%nat
        then {| it_trace := [EvLog (MsgPartial (Z.of_nat r))];
                it_ctl := Continue st' |}
        else dispatch (decode_request bo rq) env st'
    end.

(** The loop, for as many iterations as [envs] describes.  [Continue st]
    at the end: the loop is still running, in state [st]. *)
Fixpoint server_loop (envs : list iter_env) (st : server_state)
  : list event * loop_ctl :=
  match envs with
  | [] => ([], Continue st)
  | env :: envs' =>
      let it := server_iteration st env in
      match it_ctl it with
      | Continue st' =>
          let (t, c) := server_loop envs' st' in (it_trace it ++ t, c)
      | c => (it_trace it, c)
      end
  end.
End Server.

(* ===================================================================== *)
(** ** The client's request                                               *)
(* ===================================================================== *)

(** [is_valid_op(op)]. *)
Definition is_valid_op (op : list byte) : bool :=
  (strcmp op (bytes_of "add") =? 0) || (strcmp op (bytes_of "sub") =? 0)
  || (strcmp op (bytes_of "mul") =? 0) || (strcmp op (bytes_of "div") =? 0).

(** The request [main] of the client builds from the line the user typed,
    the two integers read, its pid and the path of its response FIFO. *)
Definition build_request (line : list byte) (a b : Z) (pid : Z)
  (path : list byte) : request_msg_t :=
  let rq := {| operation := zeroed OP_MAX; operand1 := 0; operand2 := 0;
               client_pid := 0; resp_fifo := zeroed RESP_NAME_MAX |} in
  {| operation :=
       memcpy (operation rq) line
         (if (OP_MAX <? strlen line)%nat then OP_MAX else strlen line);
     operand1 := a;
     operand2 := b;
     client_pid := pid;
     resp_fifo := strncpy (resp_fifo rq) path (RESP_NAME_MAX - 1) |}.

(* ===================================================================== *)
(** ** The client's session                                               *)
(* ===================================================================== *)

Definition is_eol (b : byte) : bool := Byte.eqb b x0a || Byte.eqb b x0d.

(** [s[i] = c]. *)
Definition store_at (s : list byte) (i : nat) (c : byte) : list byte :=
  firstn i s ++ c :: skipn (S i) s.

(** The loop of [trim_newline], with [n] the length of the string so far. *)
Fixpoint trim_loop (s : list byte) (n : nat) : list byte :=
  match n with
  | O => s
  | S n' =>
      if is_eol (nth n' s x00) then trim_loop (store_at s n' x00) n' else s
  end.

(** [trim_newline(s)]. *)
Definition trim_newline (s : list byte) : list byte :=
  trim_loop s (strlen s).

(** The decimal digits [printf] writes for ["%d"].  An [int] has at most
    ten of them. *)
Definition digit (d : Z) : byte := byte_of_Z (48 + d).

Fixpoint utoa_loop (fuel : nat) (n : Z) (acc : list byte) : list byte :=
  match fuel with
  | O => acc
  | S f =>
      let acc' := digit (n mod 10) :: acc in
      if n <? 10 then acc' else utoa_loop f (n / 10) acc'
  end.

Definition itoa (n : Z) : list byte :=
  if n <? 0 then x2d :: utoa_loop 10 (- n) [] else utoa_loop 10 n [].

(** The text ["/tmp/arith_resp_%d.fifo"] for a pid. *)
Definition fifo_name (pid : Z) : list byte :=
  bytes_of "/tmp/arith_resp_" ++ itoa pid ++ bytes_of ".fifo".

(** The local [resp_fifo] of the client's [main] after
    [snprintf(resp_fifo, sizeof(resp_fifo), "/tmp/arith_resp_%d.fifo", pid)];
    [junk] is what the array held before. *)
Definition client_fifo (junk : list byte) (pid : Z) : list byte :=
  snprintf junk RESP_NAME_MAX (fifo_name pid).

(** What the user gives to one turn of the client's loop: nothing more
    ([fgets] returns NULL), or a line, and then what
    [scanf("%lld %lld", &a, &b)] makes of the next one: two integers, or
    not. *)
Inductive typed : Type :=
| NoMoreInput
| Typed (line : list byte) (nums : option (Z * Z)).

(** What the surroundings do during one turn. *)
Record client_env : Type := mk_client_env {
  ce_req_open : open_outcome;    (* opening the request FIFO for writing *)
  ce_req_out : out_endpoint;     (* what the request FIFO takes *)
  ce_resp_open : open_outcome;   (* opening the response FIFO for reading *)
  ce_resp : endpoint             (* what the response FIFO delivers *)
}.

(** What a turn does that others can see, prompts left out. *)
Inductive client_event : Type :=
| SaidInvalidOperation           (* "Invalid operation. Try again." *)
| SaidInvalidInput               (* "Invalid input. Please enter two integers." *)
| Perror (what : string)         (* [perror(what)] *)
| Sent (bytes : list byte)       (* bytes the request FIFO took *)
| SaidNoAnswer (rr : Z)          (* "Failed to read full response. Got %zd bytes." *)
| SaidResult (r : Z)             (* "Result from server: %lld" *)
| SaidServerError (e : list byte). (* "Server error: %s" *)

Inductive turn_ctl : Type :=
| NextTurn      (* [continue], or the end of the loop body *)
| Leave         (* [break]: the client removes its FIFO and exits *)
| Piped         (* killed by SIGPIPE inside a [write] *)
| Hang.         (* inside a call that does not return *)

Section Client.
Variable bo : byte_order.

(** The end of a turn: reading the response and showing it. *)
Definition receive (resp : endpoint) : list client_event * turn_ctl :=
  match read_full resp (zeroed FIXED_RESP_LEN) FIXED_RESP_LEN with
  | ReadBlocks => ([], Hang)
  | ReadReturns rr buf _ =>
      if (ssize_of rr <? 0) || (ssize_of rr <? Z.of_nat FIXED_RESP_LEN)
      then ([SaidNoAnswer (ssize_of rr)], NextTurn)
      else
        let rp := decode_response bo buf in
        if success rp =? 0
        then ([SaidServerError (c_string (error rp))], NextTurn)
        else ([SaidResult (result rp)], NextTurn)
  end.

(** One turn of the [for(;;)] loop of the client's [main]; [my_fifo] is the
    local [resp_fifo]. *)
Definition client_turn (pid : Z) (my_fifo : list byte) (input : typed)
  (env : client_env) : list client_event * turn_ctl :=
  match input with
  | NoMoreInput => ([], Leave)
  | Typed line0 nums =>
      let line := trim_newline line0 in
      if strcmp line (bytes_of "exit") =? 0 then ([], Leave)
      else if negb (is_valid_op line) then ([SaidInvalidOperation], NextTurn)
      else
        match nums with
        | None => ([SaidInvalidInput], NextTurn)
        | Some (a, b) =>
            let rq := build_request line a b pid my_fifo in
            match ce_req_open env with
            | OpenBlocks => ([], Hang)
            | OpenFails _ => ([Perror "open request fifo"], NextTurn)
            | Opened =>
                match write_full (ce_req_out env) (encode_request bo rq)
                        FIXED_REQ_LEN with
                | WriteBlocks sent => ([Sent sent], Hang)
                | WriteReturns (Failed e) sent _ =>
                    if e =? EPIPE then ([Sent sent], Piped)
                    else ([Sent sent; Perror "write request"], NextTurn)
                | WriteReturns (Count _) sent _ =>
                    match ce_resp_open env with
                    | OpenBlocks => ([Sent sent], Hang)
                    | OpenFails _ =>
                        ([Sent sent; Perror "open resp fifo"], NextTurn)
                    | Opened =>
                        let (shown, ctl) := receive (ce_resp env) in
                        (Sent sent :: shown, ctl)
                    end
                end
            end
        end
  end.
End Client.

Definition is_sent (e : client_event) : bool :=
  match e with Sent _ => true | _ => false end.

(* ===================================================================== *)
(** ** Vocabulary of the statements                                       *)
(* ===================================================================== *)

(** The three operations that always have a value, the bytes [compute]
    compares the tag with, and the exact integer each one stands for. *)
Inductive arith_op : Set := Add | Sub | Mul.

Definition op_name (op : arith_op) : list byte :=
  match op with
  | Add => bytes_of "add"
  | Sub => bytes_of "sub"
  | Mul => bytes_of "mul"
  end.

Definition exact (op : arith_op) (a b : Z) : Z :=
  match op with
  | Add => a + b
  | Sub => a - b
  | Mul => a * b
  end.

(** The tag as the client sends it: the name, NUL-padded to [OP_MAX]. *)
Definition tag_of (name : list byte) : list byte :=
  memcpy (zeroed OP_MAX) name (length name).

(** The bytes a reading end hands over before it stops delivering, and the
    way it stops: interrupted calls are passed over. *)
Fixpoint delivered (fd : endpoint) : list byte :=
  match fd with
  | Data (b :: bs) :: fd' => (b :: bs) ++ delivered fd'
  | Err e :: fd' => if e =? EINTR then delivered fd' else []
  | _ => []
  end.

Inductive ending : Type :=
| Closed                 (* end of stream: [read] returns 0 *)
| Broken (errno : Z)     (* a [read] fails, and not by interruption *)
| Silent.                (* nothing more arrives: [read] does not return *)

Fixpoint ending_of (fd : endpoint) : ending :=
  match fd with
  | [] => Silent
  | Data (_ :: _) :: fd' => ending_of fd'
  | Data [] :: _ => Closed
  | Eof :: _ => Closed
  | Err e :: fd' => if e =? EINTR then ending_of fd' else Broken e
  end.

(** The number of bytes a writing end takes before it stops, and the way
    it stops. *)
Fixpoint capacity (out : out_endpoint) : nat :=
  match out with
  | [] => O
  | Accept k :: out' => (k + capacity out')%nat
  | WErr e :: out' => if e =? EINTR then capacity out' else O
  end.

Fixpoint refusal (out : out_endpoint) : option Z :=
  match out with
  | [] => None
  | Accept _ :: out' => refusal out'
  | WErr e :: out' => if e =? EINTR then refusal out' else Some e
  end.

(** What the client shows for a response. *)
Definition shown_for (rp : response_msg_t) : client_event :=
  if success rp =? 0 then SaidServerError (c_string (error rp))
  else SaidResult (result rp).

(** A client session that issues one request: the pid of the client, what
    its [resp_fifo] array held before [snprintf], the line typed and the
    two integers read. *)
Record session : Type := mk_session {
  s_pid : Z;
  s_junk : list byte;
  s_line : list byte;
  s_a : Z;
  s_b : Z
}.

(** The local [resp_fifo] of the session and the request its turn builds. *)
Definition session_fifo (s : session) : list byte :=
  client_fifo (s_junk s) (s_pid s).

Definition session_request (s : session) : request_msg_t :=
  build_request (trim_newline (s_line s)) (s_a s) (s_b s) (s_pid s)
    (session_fifo s).

(** The session gets as far as building a request: its pid is one a process
    can have, the line passes [is_valid_op] and the integers fit
    [long long]. *)
Definition session_ok (s : session) : Prop :=
  0 <= s_pid s <= int32_max /\
  is_valid_op (trim_newline (s_line s)) = true /\
  in_int64 (s_a s) /\ in_int64 (s_b s).

(** What the surroundings of the server do in an iteration where nothing
    goes wrong: no stop signal, [fork] returns [cpid]. *)
Definition quiet_env (junk : list byte) (cpid : Z) : iter_env :=
  {| ie_sigint := false; ie_rq := junk; ie_reopen := None;
     ie_fork := ForkParent cpid; ie_rp := zero_response;
     ie_open := Opened; ie_out := [] |}.

(** The events of dispatching one request to a worker. *)
Definition dispatched (rq : request_msg_t) (cpid : Z) : list event :=
  [EvPrint (MsgRecv rq); EvLog (MsgRecv rq); EvFork rq (ForkParent cpid)].

(** Sample inputs for the examples. *)
Definition sample_path : list byte := bytes_of "/tmp/arith_resp_42.fifo".

Definition sample_request (name : string) (a b : Z) : request_msg_t :=
  build_request (bytes_of name) a b 42
    (sample_path ++ zeroed (RESP_NAME_MAX - length sample_path)).

Definition sample_session (pid : Z) (name : string) (a b : Z) : session :=
  {| s_pid := pid; s_junk := zeroed RESP_NAME_MAX;
     s_line := bytes_of name ++ [x0a; x00]; s_a := a; s_b := b |}.

(** Two sessions, and the order in which their requests reach the server. *)
Definition sample_sessions : list session :=
  [sample_session 41 "add" 6 9; sample_session 42 "mul" 6 9].

Definition sample_arrival : list session :=
  [sample_session 42 "mul" 6 9; sample_session 41 "add" 6 9].

Definition sample_requests_inbound : endpoint :=
  [Data (encode_request LittleEndian
           (session_request (sample_session 42 "mul" 6 9)));
   Data (encode_request LittleEndian
           (session_request (sample_session 41 "add" 6 9)))].

(** A client whose request is taken whole and whose own FIFO is never
    opened for writing. *)
Definition unanswered_env : client_env :=
  {| ce_req_open := Opened; ce_req_out := [Accept FIXED_REQ_LEN];
     ce_resp_open := OpenBlocks; ce_resp := [] |}.

Definition sample_env : iter_env :=
  {| ie_sigint := false; ie_rq := zeroed FIXED_REQ_LEN; ie_reopen := None;
     ie_fork := ForkParent 1234; ie_rp := zero_response;
     ie_open := Opened; ie_out := [] |}.

(** A stream on which three stray bytes are followed by the end of the
    stream and then by a whole request. *)
Definition sample_inbound : endpoint :=
  [Data (bytes_of "div"); Eof;
   Data (encode_request LittleEndian (sample_request "add" 6 9))].

(* ===================================================================== *)
(** ** Integers, bytes and object representations                         *)
(* ===================================================================== *)

Lemma wrap_signed_range (bits x : Z) :
  0 < bits ->
  - 2 ^ (bits - 1) <= wrap_signed bits x < 2 ^ (bits - 1).
Proof.
  intros Hb. unfold wrap_signed.
  assert (H2 : 2 ^ bits = 2 * 2 ^ (bits - 1)).
  { replace bits with (Z.succ (bits - 1)) at 1 by lia.
    rewrite Z.pow_succ_r by lia. reflexivity. }
  assert (Hp : 0 < 2 ^ (bits - 1)) by (apply Z.pow_pos_nonneg; lia).
  pose proof (Z.mod_pos_bound (x + 2 ^ (bits - 1)) (2 ^ bits)) as Hm.
  lia.
Qed.

Lemma wrap_signed_congruent (bits x : Z) :
  0 < bits -> (wrap_signed bits x - x) mod 2 ^ bits = 0.
Proof.
  intros Hb. unfold wrap_signed.
  assert (Hp : 0 < 2 ^ bits) by (apply Z.pow_pos_nonneg; lia).
  set (h := 2 ^ (bits - 1)). set (m := 2 ^ bits) in *.
  rewrite (Z.mod_eq (x + h) m) by lia.
  replace (x + h - m * ((x + h) / m) - h - x)
    with ((- ((x + h) / m)) * m) by ring.
  apply Z.mod_mul. lia.
Qed.

Lemma wrap_signed_small (bits x : Z) :
  0 < bits ->
  - 2 ^ (bits - 1) <= x < 2 ^ (bits - 1) -> wrap_signed bits x = x.
Proof.
  intros Hb Hx. unfold wrap_signed.
  assert (H2 : 2 ^ bits = 2 * 2 ^ (bits - 1)).
  { replace bits with (Z.succ (bits - 1)) at 1 by lia.
    rewrite Z.pow_succ_r by lia. reflexivity. }
  rewrite Z.mod_small by lia. lia.
Qed.

Lemma wrap64_in_int64 (x : Z) : in_int64 (wrap64 x).
Proof.
  pose proof (wrap_signed_range 64 x ltac:(lia)) as H.
  unfold in_int64, int64_min, int64_max, wrap64.
  change (64 - 1) with 63 in H. lia.
Qed.

Lemma wrap64_congruent (x : Z) : (wrap64 x - x) mod 2 ^ 64 = 0.
Proof. apply (wrap_signed_congruent 64). lia. Qed.

Lemma wrap64_exact (x : Z) : in_int64 x -> wrap64 x = x.
Proof.
  unfold in_int64, int64_min, int64_max. intros H.
  apply (wrap_signed_small 64); [lia|]. change (64 - 1) with 63. lia.
Qed.

Lemma byte_to_Z_range (b : byte) : 0 <= byte_to_Z b < 256.
Proof.
  unfold byte_to_Z. pose proof (Byte.to_N_bounded b). lia.
Qed.

Lemma byte_of_to_Z (b : byte) : byte_of_Z (byte_to_Z b) = b.
Proof.
  unfold byte_of_Z. rewrite Z.mod_small by apply byte_to_Z_range.
  unfold byte_to_Z. rewrite N2Z.id, Byte.of_to_N. reflexivity.
Qed.

Lemma byte_to_of_Z (z : Z) : byte_to_Z (byte_of_Z z) = z mod 256.
Proof.
  unfold byte_of_Z, byte_to_Z.
  pose proof (Z.mod_pos_bound z 256 ltac:(lia)) as Hm.
  destruct (Byte.of_N (Z.to_N (z mod 256))) as [b|] eqn:E.
  - apply Byte.to_of_N in E. rewrite E. lia.
  - apply Byte.of_N_None_iff in E. lia.
Qed.

Lemma byte_to_Z_inj (x y : byte) : byte_to_Z x = byte_to_Z y -> x = y.
Proof.
  intros H. rewrite <- (byte_of_to_Z x), <- (byte_of_to_Z y), H. reflexivity.
Qed.

Lemma le_bytes_length (n : nat) (x : Z) : length (le_bytes n x) = n.
Proof.
  revert x. induction n as [|n IH]; intros x; simpl; [|rewrite IH]; reflexivity.
Qed.

Lemma le_value_le_bytes (n : nat) (x : Z) :
  le_value (le_bytes n x) = x mod 256 ^ Z.of_nat n.
Proof.
  revert x. induction n as [|n IH]; intros x.
  - simpl. rewrite Z.mod_1_r. reflexivity.
  - cbn [le_bytes le_value]. rewrite IH, byte_to_of_Z.
    rewrite Nat2Z.inj_succ, Z.pow_succ_r by lia.
    rewrite Z.mod_mod by lia.
    rewrite Z.rem_mul_r; [reflexivity | lia | apply Z.pow_pos_nonneg; lia].
Qed.

Lemma in_order_involutive (bo : byte_order) (bs : list byte) :
  in_order bo (in_order bo bs) = bs.
Proof. destruct bo; simpl; [reflexivity | apply rev_involutive]. Qed.

Lemma in_order_length (bo : byte_order) (bs : list byte) :
  length (in_order bo bs) = length bs.
Proof. destruct bo; simpl; [reflexivity | apply length_rev]. Qed.

Lemma int_bytes_length (bo : byte_order) (size : nat) (x : Z) :
  length (int_bytes bo size x) = size.
Proof. unfold int_bytes. rewrite in_order_length. apply le_bytes_length. Qed.

(** A signed integer that fits its field is read back unchanged. *)
Lemma int_of_bytes_int_bytes (bo : byte_order) (size : nat) (x : Z) :
  (0 < size)%nat ->
  - 2 ^ (8 * Z.of_nat size - 1) <= x < 2 ^ (8 * Z.of_nat size - 1) ->
  int_of_bytes bo (int_bytes bo size x) = x.
Proof.
  intros Hs Hx. unfold int_of_bytes.
  rewrite int_bytes_length. unfold int_bytes.
  rewrite in_order_involutive, le_value_le_bytes.
  set (bits := 8 * Z.of_nat size) in *.
  assert (Hbits : 0 < bits) by (unfold bits; lia).
  assert (E : 256 ^ Z.of_nat size = 2 ^ bits).
  { unfold bits. change 256 with (2 ^ 8). rewrite <- Z.pow_mul_r by lia.
    reflexivity. }
  rewrite E.
  assert (H2 : 2 ^ bits = 2 * 2 ^ (bits - 1)).
  { replace bits with (Z.succ (bits - 1)) at 1 by lia.
    rewrite Z.pow_succ_r by lia. reflexivity. }
  destruct (Z.neg_nonneg_cases x) as [Hneg|Hpos].
  - assert (Em : x mod 2 ^ bits = x + 2 ^ bits).
    { symmetry. apply (Z.mod_unique x (2 ^ bits) (-1)); lia. }
    rewrite Em. destruct (Z.ltb_spec (x + 2 ^ bits) (2 ^ (bits - 1))); lia.
  - rewrite Z.mod_small by lia.
    destruct (Z.ltb_spec x (2 ^ (bits - 1))); lia.
Qed.

Lemma int64_roundtrip (bo : byte_order) (x : Z) :
  in_int64 x -> int_of_bytes bo (int_bytes bo 8 x) = x.
Proof.
  unfold in_int64, int64_min, int64_max. intros H.
  apply int_of_bytes_int_bytes; [lia|].
  change (8 * Z.of_nat 8 - 1) with 63. lia.
Qed.

Lemma int32_roundtrip (bo : byte_order) (x : Z) :
  in_int32 x -> int_of_bytes bo (int_bytes bo 4 x) = x.
Proof.
  unfold in_int32, int32_min, int32_max. intros H.
  apply int_of_bytes_int_bytes; [lia|].
  change (8 * Z.of_nat 4 - 1) with 31. lia.
Qed.

(** Cutting a concatenation at the end of its first part. *)
Lemma firstn_app_exact {A : Type} (n : nat) (l r : list A) :
  length l = n -> firstn n (l ++ r) = l.
Proof.
  intros <-. rewrite firstn_app, Nat.sub_diag, firstn_all. simpl.
  apply app_nil_r.
Qed.

Lemma skipn_app_exact {A : Type} (n m : nat) (l r : list A) :
  length l = n -> skipn (n + m) (l ++ r) = skipn m r.
Proof.
  intros <-. rewrite skipn_app.
  rewrite skipn_all2 by lia.
  replace (length l + m - length l)%nat with m by lia. reflexivity.
Qed.

Lemma read_full_loop_eq (fd : endpoint) (buf : list byte) (n off : nat) :
  read_full_loop fd buf n off =
  if lt_dec off n then
    match sys_read fd (n - off) with
    | None => ReadBlocks
    | Some (SysOk [], fd') => ReadReturns (Count off) buf fd'
    | Some (SysOk bs, fd') =>
        read_full_loop fd' (store buf off bs) n (off + length bs)
    | Some (SysErr e, fd') =>
        if e =? EINTR then read_full_loop fd' buf n off
        else ReadReturns (Failed e) buf fd'
    end
  else ReadReturns (Count off) buf fd.
Proof.
  simp read_full_loop.
  destruct (lt_dec off n) as [Hlt|Hge]; simpl; [|reflexivity].
  destruct (sys_read fd (n - off)) as [[[[|b bs]|e] fd']|]; reflexivity.
Qed.

(* ===================================================================== *)
(** ** Wire codec                                                         *)
(* ===================================================================== *)

Lemma encode_request_length (bo : byte_order) (rq : request_msg_t) :
  length (operation rq) = OP_MAX ->
  length (resp_fifo rq) = RESP_NAME_MAX ->
  length (encode_request bo rq) = FIXED_REQ_LEN.
Proof.
  intros Ho Hf. unfold encode_request.
  rewrite !length_app, !int_bytes_length, Ho, Hf. reflexivity.
Qed.

Lemma encode_response_length (bo : byte_order) (rp : response_msg_t) :
  length (error rp) = ERROR_MAX ->
  length (encode_response bo rp) = FIXED_RESP_LEN.
Proof.
  intros He. unfold encode_response.
  rewrite !length_app, !int_bytes_length, He. reflexivity.
Qed.

Lemma decode_encode_request (bo : byte_order) (rq : request_msg_t) :
  valid_request rq -> decode_request bo (encode_request bo rq) = rq.
Proof.
  destruct rq as [o a b p f]. unfold valid_request. simpl.
  intros (Ho & Ha & Hb & Hp & Hf).
  unfold decode_request, encode_request, OP_MAX, RESP_NAME_MAX in *.
  cbn [operation operand1 operand2 client_pid resp_fifo].
  pose proof (int_bytes_length bo 8 a) as La.
  pose proof (int_bytes_length bo 8 b) as Lb.
  pose proof (int_bytes_length bo 4 p) as Lp.
  f_equal.
  - apply firstn_app_exact. exact Ho.
  - rewrite (skipn_app_exact 4 0 o _ Ho). simpl skipn.
    rewrite firstn_app_exact by exact La. apply int64_roundtrip, Ha.
  - rewrite (skipn_app_exact 4 8 o _ Ho), (skipn_app_exact 8 0 _ _ La).
    simpl skipn. rewrite firstn_app_exact by exact Lb.
    apply int64_roundtrip, Hb.
  - rewrite (skipn_app_exact 4 16 o _ Ho), (skipn_app_exact 8 8 _ _ La),
      (skipn_app_exact 8 0 _ _ Lb).
    simpl skipn. rewrite firstn_app_exact by exact Lp.
    apply int32_roundtrip, Hp.
  - rewrite (skipn_app_exact 4 20 o _ Ho), (skipn_app_exact 8 12 _ _ La),
      (skipn_app_exact 8 4 _ _ Lb), (skipn_app_exact 4 0 _ _ Lp).
    simpl skipn. rewrite <- Hf. apply firstn_all.
Qed.

Lemma decode_encode_response (bo : byte_order) (rp : response_msg_t) :
  valid_response rp -> decode_response bo (encode_response bo rp) = rp.
Proof.
  destruct rp as [r s e]. unfold valid_response. simpl.
  intros (Hr & Hs & He).
  unfold decode_response, encode_response, ERROR_MAX in *.
  cbn [result success error].
  pose proof (int_bytes_length bo 8 r) as Lr.
  pose proof (int_bytes_length bo 4 s) as Ls.
  f_equal.
  - rewrite firstn_app_exact by exact Lr. apply int64_roundtrip, Hr.
  - rewrite (skipn_app_exact 8 0 _ _ Lr). simpl skipn.
    rewrite firstn_app_exact by exact Ls. apply int32_roundtrip, Hs.
  - rewrite (skipn_app_exact 8 4 _ _ Lr), (skipn_app_exact 4 0 _ _ Ls).
    simpl skipn. rewrite <- He. apply firstn_all.
Qed.

(** C4.  For every valid request and every valid response, in either byte
    order: the encoding of a request has exactly [FIXED_REQ_LEN] bytes and
    the encoding of a response exactly [FIXED_RESP_LEN] bytes, and decoding
    the encoding gives back the record, field by field. *)
Theorem codec_roundtrip (bo : byte_order)
  (rq : request_msg_t) (rp : response_msg_t)
  (Hrq : valid_request rq) (Hrp : valid_response rp) :
  (length (encode_request bo rq) = FIXED_REQ_LEN /\
   decode_request bo (encode_request bo rq) = rq) /\
  (length (encode_response bo rp) = FIXED_RESP_LEN /\
   decode_response bo (encode_response bo rp) = rp).
Proof.
  repeat split.
  - apply encode_request_length; apply Hrq.
  - apply decode_encode_request, Hrq.
  - apply encode_response_length; apply Hrp.
  - apply decode_encode_response, Hrp.
Qed.

(* ===================================================================== *)
(** ** compute                                                            *)
(* ===================================================================== *)

Lemma memcmp_zero_iff (a b : list byte) (n : nat) :
  (n <= length a)%nat -> (n <= length b)%nat ->
  memcmp a b n = 0 <-> firstn n a = firstn n b.
Proof.
  revert a b. induction n as [|n IH]; intros a b Ha Hb.
  - simpl. tauto.
  - destruct a as [|x a]; [simpl in Ha; lia|].
    destruct b as [|y b]; [simpl in Hb; lia|].
    simpl in Ha, Hb. cbn [memcmp firstn].
    destruct (Byte.eqb x y) eqn:E.
    + apply Byte.byte_dec_bl in E. subst y.
      rewrite IH by lia. split; [intros ->; reflexivity|].
      intros H. inversion H. reflexivity.
    + apply Byte.eqb_false in E. split.
      * intros H. exfalso. apply E, byte_to_Z_inj. lia.
      * intros H. inversion H. contradiction.
Qed.

(** The test [memcmp(rq->operation, name, 3) == 0] looks at the first three
    bytes of the tag and at nothing else. *)
Lemma tag_test (op name : list byte) :
  (3 <= length op)%nat -> length name = 3%nat ->
  (memcmp op name 3 =? 0) = true <-> firstn 3 op = name.
Proof.
  intros Ho Hn. rewrite Z.eqb_eq, memcmp_zero_iff by lia.
  rewrite <- Hn at 2. rewrite firstn_all. reflexivity.
Qed.

Lemma tag_test_false (op name : list byte) :
  (3 <= length op)%nat -> length name = 3%nat ->
  firstn 3 op <> name -> (memcmp op name 3 =? 0) = false.
Proof.
  intros Ho Hn Hne. destruct (memcmp op name 3 =? 0) eqn:E; [|reflexivity].
  apply tag_test in E; [contradiction | assumption | assumption].
Qed.

Lemma firstn3_length (op name : list byte) :
  firstn 3 op = name -> length name = 3%nat -> (3 <= length op)%nat.
Proof.
  intros H Hn. rewrite <- H, length_firstn in Hn. lia.
Qed.

(** C1.  For every request whose tag starts with "add", "sub" or "mul"
    (the client's NUL-padded tags among them) and for all operands,
    [compute] returns a response with [success = 1] and an empty error
    message, whose result is the exact sum, difference or product reduced
    modulo 2^64 into the signed 64-bit range: it lies in that range, it
    differs from the exact value by a multiple of 2^64, and it is the exact
    value whenever that one is representable. *)
Theorem compute_add_sub_mul (op : arith_op)
  (rq : request_msg_t) (rp : response_msg_t)
  (Htag : firstn 3 (operation rq) = op_name op) :
  exists rp' : response_msg_t,
    compute rq rp = Some rp' /\
    success rp' = 1 /\
    c_string (error rp') = [] /\
    in_int64 (result rp') /\
    (result rp' - exact op (operand1 rq) (operand2 rq)) mod 2 ^ 64 = 0 /\
    (in_int64 (exact op (operand1 rq) (operand2 rq)) ->
     result rp' = exact op (operand1 rq) (operand2 rq)).
Proof.
  assert (Hlen : (3 <= length (operation rq))%nat)
    by (apply (firstn3_length _ _ Htag); destruct op; reflexivity).
  assert (Herr : forall r, c_string
            (error (set_result (set_error (set_success rp 1)
                                  (store_first (error rp) x00)) r)) = []).
  { intros r. cbn [error set_result set_error].
    destruct (error rp); reflexivity. }
  unfold compute.
  destruct op; cbn [op_name exact] in *.
  - rewrite (proj2 (tag_test _ (bytes_of "add") Hlen eq_refl) Htag).
    eexists; split; [reflexivity|].
    repeat split; [apply Herr | apply wrap64_in_int64 ..
                   | apply wrap64_congruent | apply wrap64_exact].
  - rewrite (tag_test_false _ (bytes_of "add") Hlen eq_refl)
      by (rewrite Htag; discriminate).
    rewrite (proj2 (tag_test _ (bytes_of "sub") Hlen eq_refl) Htag).
    eexists; split; [reflexivity|].
    repeat split; [apply Herr | apply wrap64_in_int64 ..
                   | apply wrap64_congruent | apply wrap64_exact].
  - rewrite (tag_test_false _ (bytes_of "add") Hlen eq_refl)
      by (rewrite Htag; discriminate).
    rewrite (tag_test_false _ (bytes_of "sub") Hlen eq_refl)
      by (rewrite Htag; discriminate).
    rewrite (proj2 (tag_test _ (bytes_of "mul") Hlen eq_refl) Htag).
    eexists; split; [reflexivity|].
    repeat split; [apply Herr | apply wrap64_in_int64 ..
                   | apply wrap64_congruent | apply wrap64_exact].
Qed.

Lemma quot_in_int64 (a b : Z) :
  in_int64 a -> in_int64 b -> b <> 0 -> ~ (a = int64_min /\ b = -1) ->
  in_int64 (Z.quot a b).
Proof.
  unfold in_int64, int64_min, int64_max. intros Ha Hb Hb0 Hov.
  assert (Habs : Z.abs (Z.quot a b) = Z.abs a / Z.abs b).
  { rewrite <- Z.quot_abs by assumption.
    apply Z.quot_div_nonneg; lia. }
  destruct (Z.eq_dec (Z.abs b) 1) as [H1|H1].
  - destruct (Z.eq_dec b 1) as [->|Hb1].
    + rewrite Z.quot_1_r. lia.
    + assert (b = -1) by lia. subst b.
      replace (-1) with (- (1)) by reflexivity.
      rewrite Z.quot_opp_r, Z.quot_1_r by lia. lia.
  - assert (Hle : Z.abs a / Z.abs b <= Z.abs a / 2)
      by (apply Z.div_le_compat_l; lia).
    assert (Hh : Z.abs a / 2 <= 2 ^ 62).
    { apply Z.div_le_upper_bound; [lia|].
      change (2 * 2 ^ 62) with (2 ^ 63). lia. }
    assert (2 ^ 62 < 2 ^ 63 - 1) by reflexivity.
    lia.
Qed.

(** C2, amended.  For every valid request whose tag starts with "div":
    when [operand2] is zero, [compute] returns [success = 0] with the error
    message "Divide by zero"; when [operand2] is not zero and the pair is
    not [(INT64_MIN, -1)], it returns [success = 1] with an empty error
    message and the quotient truncated toward zero, which is a signed
    64-bit value; and whenever it returns a response at all, that response
    reports "Divide by zero" exactly when [operand2] is zero. *)
Theorem compute_div (rq : request_msg_t) (rp : response_msg_t)
  (Hrq : valid_request rq)
  (Htag : firstn 3 (operation rq) = bytes_of "div") :
  (operand2 rq = 0 ->
   exists rp' : response_msg_t,
     compute rq rp = Some rp' /\ success rp' = 0 /\
     c_string (error rp') = bytes_of "Divide by zero") /\
  (operand2 rq <> 0 ->
   ~ (operand1 rq = int64_min /\ operand2 rq = -1) ->
   exists rp' : response_msg_t,
     compute rq rp = Some rp' /\ success rp' = 1 /\
     c_string (error rp') = [] /\
     result rp' = Z.quot (operand1 rq) (operand2 rq) /\
     in_int64 (result rp')) /\
  (forall rp' : response_msg_t,
     compute rq rp = Some rp' ->
     (success rp' = 0 /\ c_string (error rp') = bytes_of "Divide by zero")
     <-> operand2 rq = 0).
Proof.
  destruct Hrq as (Ho & Ha & Hb & _ & _).
  assert (Hlen : (3 <= length (operation rq))%nat) by (rewrite Ho; cbv; lia).
  assert (Hcomp : compute rq rp =
    if operand2 rq =? 0 then
      Some (set_error (set_success (set_error (set_success rp 1)
                                      (store_first (error rp) x00)) 0)
              (snprintf (store_first (error rp) x00) ERROR_MAX
                 (bytes_of "Divide by zero")))
    else match div64 (operand1 rq) (operand2 rq) with
         | Some q => Some (set_result (set_error (set_success rp 1)
                                         (store_first (error rp) x00)) q)
         | None => None
         end).
  { unfold compute.
    rewrite (tag_test_false _ (bytes_of "add") Hlen eq_refl)
      by (rewrite Htag; discriminate).
    rewrite (tag_test_false _ (bytes_of "sub") Hlen eq_refl)
      by (rewrite Htag; discriminate).
    rewrite (tag_test_false _ (bytes_of "mul") Hlen eq_refl)
      by (rewrite Htag; discriminate).
    rewrite (proj2 (tag_test _ (bytes_of "div") Hlen eq_refl) Htag).
    reflexivity. }
  rewrite Hcomp. clear Hcomp.
  split; [|split].
  - intros H0. rewrite H0. simpl (0 =? 0).
    eexists; split; [reflexivity|]. split; reflexivity.
  - intros Hn0 Hov.
    rewrite (proj2 (Z.eqb_neq _ _) Hn0).
    unfold div64. rewrite (proj2 (Z.eqb_neq _ _) Hn0). simpl orb.
    assert (E : (operand1 rq =? int64_min) && (operand2 rq =? -1) = false).
    { apply andb_false_iff.
      destruct (Z.eqb_spec (operand1 rq) int64_min);
        destruct (Z.eqb_spec (operand2 rq) (-1)); tauto. }
    rewrite E. eexists; split; [reflexivity|].
    cbn [success result error set_result set_error set_success].
    repeat split; try (apply quot_in_int64; assumption).
    destruct (error rp); reflexivity.
  - intros rp'. destruct (Z.eqb_spec (operand2 rq) 0) as [H0|Hn0].
    + intros H. inversion H; subst rp'. clear H.
      cbn [success error set_error set_success]. split; [tauto|].
      intros _. split; reflexivity.
    + destruct (div64 (operand1 rq) (operand2 rq)); [|discriminate].
      intros H. inversion H; subst rp'. clear H.
      cbn [success error set_result set_error set_success].
      split; [intros [H _]; discriminate | contradiction].
Qed.

(** C3, amended.  For every valid request whose tag does not start with
    "add", "sub", "mul" or "div" (the fourth byte of the tag is not looked
    at) and for all operands, [compute] returns [success = 0] with the
    error message "Invalid operation". *)
Theorem compute_invalid_operation (rq : request_msg_t) (rp : response_msg_t)
  (Hrq : valid_request rq)
  (Hadd : firstn 3 (operation rq) <> bytes_of "add")
  (Hsub : firstn 3 (operation rq) <> bytes_of "sub")
  (Hmul : firstn 3 (operation rq) <> bytes_of "mul")
  (Hdiv : firstn 3 (operation rq) <> bytes_of "div") :
  exists rp' : response_msg_t,
    compute rq rp = Some rp' /\ success rp' = 0 /\
    c_string (error rp') = bytes_of "Invalid operation".
Proof.
  destruct Hrq as (Ho & _).
  assert (Hlen : (3 <= length (operation rq))%nat) by (rewrite Ho; cbv; lia).
  unfold compute.
  rewrite !tag_test_false by (assumption || reflexivity).
  eexists; split; [reflexivity|]. split; reflexivity.
Qed.

(** C10.  [compute] reads the tag and the two operands of the request and
    nothing else: two requests that agree on [operation], [operand1] and
    [operand2], whatever their [client_pid] and [resp_fifo], give the same
    outcome and, when there is one, the same response in every field. *)
Theorem compute_ignores_origin (rq1 rq2 : request_msg_t) (rp : response_msg_t)
  (Hop : operation rq1 = operation rq2)
  (Ha : operand1 rq1 = operand1 rq2)
  (Hb : operand2 rq1 = operand2 rq2) :
  compute rq1 rp = compute rq2 rp.
Proof.
  unfold compute. rewrite Hop, Ha, Hb. reflexivity.
Qed.

(** Closed facts about sample inputs, by evaluation. *)
Ltac by_evaluation :=
  unfold valid_request, valid_response;
  repeat split; first [reflexivity | vm_compute; discriminate].

Lemma compute_add_sub_mul_witness :
  firstn 3 (operation (sample_request "mul" (2 ^ 62) 4)) = op_name Mul /\
  exists rp' : response_msg_t,
    compute (sample_request "mul" (2 ^ 62) 4) zero_response = Some rp' /\
    success rp' = 1 /\
    c_string (error rp') = [] /\
    in_int64 (result rp') /\
    (result rp' - exact Mul (2 ^ 62) 4) mod 2 ^ 64 = 0 /\
    (in_int64 (exact Mul (2 ^ 62) 4) -> result rp' = exact Mul (2 ^ 62) 4).
Proof.
  split; [reflexivity|].
  apply (compute_add_sub_mul Mul (sample_request "mul" (2 ^ 62) 4)
           zero_response).
  reflexivity.
Defined.

Example compute_add_6_9 :
  option_map result (compute (sample_request "add" 6 9) zero_response)
  = Some 15.
Proof. reflexivity. Qed.

Example compute_sub_5_5 :
  option_map (fun rp => (result rp, success rp))
    (compute (sample_request "sub" 5 5) zero_response) = Some (0, 1).
Proof. reflexivity. Qed.

Example compute_add_wraps :
  option_map result (compute (sample_request "add" int64_max 1) zero_response)
  = Some int64_min.
Proof. reflexivity. Qed.

Example compute_div_10_0 :
  option_map (fun rp => (success rp, c_string (error rp)))
    (compute (sample_request "div" 10 0) zero_response)
  = Some (0, bytes_of "Divide by zero").
Proof. reflexivity. Qed.

Example compute_div_truncates :
  option_map result (compute (sample_request "div" (-7) 2) zero_response)
  = Some (-3).
Proof. reflexivity. Qed.

(** C2 as stated fails at [(INT64_MIN, -1)]: the divisor is not zero, the
    truncated quotient is 2^63, which no [int64_t] result can equal, and
    [compute] does not return a response at all. *)
Lemma compute_div_overflow_counterexample :
  valid_request (sample_request "div" int64_min (-1)) /\
  firstn 3 (operation (sample_request "div" int64_min (-1))) = bytes_of "div" /\
  operand2 (sample_request "div" int64_min (-1)) <> 0 /\
  Z.quot int64_min (-1) = int64_max + 1 /\
  compute (sample_request "div" int64_min (-1)) zero_response = None /\
  ~ (exists rp' : response_msg_t,
       compute (sample_request "div" int64_min (-1)) zero_response = Some rp' /\
       success rp' = 1 /\ result rp' = Z.quot int64_min (-1)).
Proof.
  split; [by_evaluation|].
  split; [reflexivity|].
  split; [discriminate|].
  split; [reflexivity|].
  split; [reflexivity|].
  intros (rp' & H & _). vm_compute in H. discriminate H.
Qed.

Lemma compute_div_witness :
  valid_request (sample_request "div" (-7) 2) /\
  firstn 3 (operation (sample_request "div" (-7) 2)) = bytes_of "div" /\
  exists rp' : response_msg_t,
    compute (sample_request "div" (-7) 2) zero_response = Some rp' /\
    success rp' = 1 /\ c_string (error rp') = [] /\
    result rp' = Z.quot (-7) 2 /\ in_int64 (result rp').
Proof.
  split; [by_evaluation|].
  split; [reflexivity|].
  refine (proj1 (proj2 (compute_div (sample_request "div" (-7) 2)
                          zero_response _ _)) _ _).
  - by_evaluation.
  - reflexivity.
  - discriminate.
  - intros [H _]. discriminate H.
Defined.

(** C3 as stated fails at the tag "addx": it is none of the four tags the
    client sends, yet [compute] adds the operands and reports success. *)
Lemma compute_unknown_tag_counterexample :
  valid_request (sample_request "addx" 6 9) /\
  operation (sample_request "addx" 6 9) = bytes_of "addx" /\
  ~ In (operation (sample_request "addx" 6 9))
       [tag_of (bytes_of "add"); tag_of (bytes_of "sub");
        tag_of (bytes_of "mul"); tag_of (bytes_of "div")] /\
  option_map (fun rp => (success rp, result rp))
    (compute (sample_request "addx" 6 9) zero_response) = Some (1, 15) /\
  ~ (exists rp' : response_msg_t,
       compute (sample_request "addx" 6 9) zero_response = Some rp' /\
       success rp' = 0 /\
       c_string (error rp') = bytes_of "Invalid operation").
Proof.
  split; [by_evaluation|].
  split; [reflexivity|].
  split.
  { intros H. vm_compute in H.
    repeat (destruct H as [H|H]; [discriminate H|]). exact H. }
  split; [reflexivity|].
  intros (rp' & H & Hs & _). vm_compute in H.
  inversion H; subst rp'. discriminate Hs.
Qed.

Lemma compute_invalid_operation_witness :
  valid_request (sample_request "pow" 2 5) /\
  exists rp' : response_msg_t,
    compute (sample_request "pow" 2 5) zero_response = Some rp' /\
    success rp' = 0 /\
    c_string (error rp') = bytes_of "Invalid operation".
Proof.
  split; [by_evaluation|].
  apply (compute_invalid_operation (sample_request "pow" 2 5) zero_response).
  - by_evaluation.
  - discriminate.
  - discriminate.
  - discriminate.
  - discriminate.
Defined.

Lemma compute_ignores_origin_witness :
  client_pid (sample_request "mul" 6 7) <> 777 /\
  resp_fifo (sample_request "mul" 6 7) <> zeroed RESP_NAME_MAX /\
  compute (sample_request "mul" 6 7) zero_response
  = compute {| operation := tag_of (bytes_of "mul");
               operand1 := 6; operand2 := 7; client_pid := 777;
               resp_fifo := zeroed RESP_NAME_MAX |} zero_response.
Proof.
  split; [discriminate|].
  split; [discriminate|].
  apply (compute_ignores_origin (sample_request "mul" 6 7)
           {| operation := tag_of (bytes_of "mul");
              operand1 := 6; operand2 := 7; client_pid := 777;
              resp_fifo := zeroed RESP_NAME_MAX |} zero_response);
    reflexivity.
Defined.

Lemma codec_roundtrip_witness :
  valid_request (sample_request "sub" (-5) int64_max) /\
  valid_response {| result := -12; success := 1; error := zeroed ERROR_MAX |} /\
  (length (encode_request BigEndian (sample_request "sub" (-5) int64_max))
   = FIXED_REQ_LEN /\
   decode_request BigEndian
     (encode_request BigEndian (sample_request "sub" (-5) int64_max))
   = sample_request "sub" (-5) int64_max) /\
  (length (encode_response BigEndian
             {| result := -12; success := 1; error := zeroed ERROR_MAX |})
   = FIXED_RESP_LEN /\
   decode_response BigEndian
     (encode_response BigEndian
        {| result := -12; success := 1; error := zeroed ERROR_MAX |})
   = {| result := -12; success := 1; error := zeroed ERROR_MAX |}).
Proof.
  split; [by_evaluation|].
  split; [by_evaluation|].
  apply (codec_roundtrip BigEndian (sample_request "sub" (-5) int64_max)
           {| result := -12; success := 1; error := zeroed ERROR_MAX |});
    by_evaluation.
Defined.

(* ===================================================================== *)
(** ** read_full                                                          *)
(* ===================================================================== *)

Lemma store_nil (buf : list byte) (off : nat) : store buf off [] = buf.
Proof.
  unfold store. simpl. rewrite Nat.add_0_r. apply firstn_skipn.
Qed.

Lemma store_length (buf : list byte) (off : nat) (bs : list byte) :
  (off + length bs <= length buf)%nat ->
  length (store buf off bs) = length buf.
Proof.
  intros H. unfold store.
  rewrite !length_app, length_firstn, length_skipn. lia.
Qed.

Lemma store_app (buf : list byte) (off : nat) (c d : list byte) :
  (off + length c <= length buf)%nat ->
  store (store buf off c) (off + length c) d = store buf off (c ++ d).
Proof.
  intros H. unfold store at 1 3.
  assert (Hpre : length (firstn off buf ++ c) = (off + length c)%nat)
    by (rewrite length_app, length_firstn; lia).
  assert (E : store buf off c
              = (firstn off buf ++ c) ++ skipn (off + length c) buf)
    by (unfold store; rewrite <- app_assoc; reflexivity).
  rewrite E.
  rewrite (firstn_app_exact _ _ _ Hpre).
  rewrite (skipn_app_exact _ (length d) _ _ Hpre).
  rewrite skipn_skipn, length_app.
  rewrite <- !app_assoc.
  replace (length d + (off + length c))%nat
    with (off + (length c + length d))%nat by lia.
  reflexivity.
Qed.

Lemma read_full_loop_done (fd : endpoint) (buf : list byte) (n : nat) :
  read_full_loop fd buf n n = ReadReturns (Count n) buf fd.
Proof.
  rewrite read_full_loop_eq.
  destruct (lt_dec n n) as [H|_]; [lia | reflexivity].
Qed.

(** What the loop returns, in terms of what the endpoint delivers. *)
Lemma read_full_loop_spec (fd : endpoint) :
  forall (buf : list byte) (n off : nat),
    (off <= n)%nat -> length buf = n ->
    if (n - off <=? length (delivered fd))%nat then
      exists rest : endpoint,
        read_full_loop fd buf n off
        = ReadReturns (Count n)
            (store buf off (firstn (n - off) (delivered fd))) rest
    else
      match ending_of fd with
      | Closed =>
          exists rest : endpoint,
            read_full_loop fd buf n off
            = ReadReturns (Count (off + length (delivered fd)))
                (store buf off (delivered fd)) rest
      | Broken e =>
          e <> EINTR /\
          exists rest : endpoint,
            read_full_loop fd buf n off
            = ReadReturns (Failed e) (store buf off (delivered fd)) rest
      | Silent => read_full_loop fd buf n off = ReadBlocks
      end.
Proof.
  induction fd as [|ev fd IH]; intros buf n off Hoff Hbuf.
  all: destruct (Nat.eq_dec off n) as [->|Hne];
    [ rewrite Nat.sub_diag; cbn [Nat.leb firstn];
      eexists; rewrite read_full_loop_done, store_nil; reflexivity
    | assert (Hlt : (off < n)%nat) by lia ].
  - rewrite read_full_loop_eq.
    destruct (lt_dec off n) as [_|F]; [|contradiction].
    cbn [delivered ending_of sys_read length].
    rewrite (proj2 (Nat.leb_gt _ _)) by lia. reflexivity.
  - rewrite read_full_loop_eq.
    destruct (lt_dec off n) as [_|F]; [|contradiction].
    destruct ev as [[|b bs]| |e].
    + (* an empty chunk reads as end of stream *)
      cbn [delivered ending_of sys_read length Nat.leb].
      rewrite (proj2 (Nat.leb_gt _ _)) by lia.
      exists fd. rewrite store_nil, Nat.add_0_r. reflexivity.
    + cbn [delivered ending_of sys_read].
      set (c := b :: bs) in *.
      assert (Hc : (0 < length c)%nat) by (unfold c; simpl; lia).
      destruct (Nat.leb_spec (length c) (n - off)) as [Hfit|Hclamp].
      * (* the whole chunk fits *)
        assert (Hrec : read_full_loop fd (store buf off c) n (off + length c)
                       = match c with
                         | [] => ReadReturns (Count off) buf fd
                         | _ :: _ => read_full_loop fd (store buf off c) n
                                       (off + length c)
                         end) by reflexivity.
        rewrite <- Hrec. clear Hrec.
        specialize (IH (store buf off c) n (off + length c)%nat
                      ltac:(lia)
                      ltac:(rewrite store_length; lia)).
        rewrite length_app.
        replace (n - (off + length c) <=? length (delivered fd))%nat
          with (n - off <=? length c + length (delivered fd))%nat in IH
          by (destruct (Nat.leb_spec (n - off)
                          (length c + length (delivered fd)));
              destruct (Nat.leb_spec (n - (off + length c))
                          (length (delivered fd))); lia || reflexivity).
        destruct (n - off <=? length c + length (delivered fd))%nat.
        -- destruct IH as [rest IH]. exists rest. rewrite IH.
           rewrite store_app by lia.
           rewrite firstn_app, (firstn_all2 c) by lia.
           replace (n - (off + length c))%nat
             with (n - off - length c)%nat by lia.
           reflexivity.
        -- destruct (ending_of fd) as [|e|].
           ++ destruct IH as [rest IH]. exists rest. rewrite IH.
              rewrite store_app by lia.
              replace (off + length c + length (delivered fd))%nat
                with (off + (length c + length (delivered fd)))%nat by lia.
              reflexivity.
           ++ destruct IH as [He [rest IH]]. split; [exact He|].
              exists rest. rewrite IH, store_app by lia. reflexivity.
           ++ exact IH.
      * (* only the first [n - off] bytes of the chunk are taken *)
        rewrite (proj2 (Nat.leb_le _ _)) by (rewrite length_app; lia).
        destruct (n - off)%nat as [|m] eqn:Em; [lia|].
        unfold c. cbn [firstn].
        assert (Hm : length (b :: firstn m bs) = S m)
          by (simpl; rewrite length_firstn; unfold c in Hclamp;
              simpl in Hclamp; lia).
        rewrite Hm.
        replace (off + S m)%nat with n by lia.
        eexists. rewrite read_full_loop_done.
        cbn [app]. rewrite firstn_app.
        replace (m - length bs)%nat with O
          by (unfold c in Hclamp; simpl in Hclamp; lia).
        cbn [firstn]. rewrite app_nil_r. reflexivity.
    + cbn [delivered ending_of sys_read length Nat.leb].
      rewrite (proj2 (Nat.leb_gt _ _)) by lia.
      exists fd. rewrite store_nil, Nat.add_0_r. reflexivity.
    + cbn [delivered ending_of sys_read].
      destruct (Z.eqb_spec e EINTR) as [He|He].
      * apply IH; assumption.
      * cbn [length].
        rewrite (proj2 (Nat.leb_gt _ _)) by lia.
        split; [exact He|]. exists fd. rewrite store_nil. reflexivity.
Qed.

Lemma store_whole (buf bs : list byte) :
  length bs = length buf -> store buf 0 bs = bs.
Proof.
  intros H. unfold store. cbn [firstn app Nat.add].
  rewrite H, skipn_all. apply app_nil_r.
Qed.

Lemma store_prefix (buf bs : list byte) :
  firstn (length bs) (store buf 0 bs) = bs.
Proof.
  unfold store. cbn [firstn app Nat.add].
  apply firstn_app_exact. reflexivity.
Qed.

(** C5.  [read_full] on a buffer of [n] bytes, over everything an endpoint
    can do: (1) an interrupted [read] is retried, so an interruption ahead
    of the stream changes nothing (and [delivered] and [ending_of], which
    decide the three other cases, pass over interruptions anywhere);
    (2) when [n] bytes arrive before the stream stops, it returns exactly
    [n] and the buffer holds the first [n] bytes; (3) when the peer closes
    after only [k < n] bytes, it returns [k], a count and not an error, and
    the buffer starts with those [k] bytes; (4) when a [read] fails other
    than by interruption before [n] bytes arrived, it returns the error,
    and (5) it returns an error in that case only. *)
Theorem read_full_exact (fd : endpoint) (buf : list byte) (n : nat)
  (Hbuf : length buf = n) :
  ((0 < n)%nat -> read_full (Err EINTR :: fd) buf n = read_full fd buf n) /\
  ((n <= length (delivered fd))%nat ->
   exists rest : endpoint,
     read_full fd buf n
     = ReadReturns (Count n) (firstn n (delivered fd)) rest /\
     ssize_of (Count n) = Z.of_nat n) /\
  ((length (delivered fd) < n)%nat -> ending_of fd = Closed ->
   exists (buf' : list byte) (rest : endpoint),
     read_full fd buf n
     = ReadReturns (Count (length (delivered fd))) buf' rest /\
     firstn (length (delivered fd)) buf' = delivered fd /\
     0 <= ssize_of (Count (length (delivered fd))) < Z.of_nat n) /\
  ((length (delivered fd) < n)%nat ->
   forall e : Z, ending_of fd = Broken e ->
   exists (buf' : list byte) (rest : endpoint),
     read_full fd buf n = ReadReturns (Failed e) buf' rest /\
     ssize_of (Failed e) = -1) /\
  (forall (e : Z) (buf' : list byte) (rest : endpoint),
     read_full fd buf n = ReadReturns (Failed e) buf' rest ->
     e <> EINTR /\ ending_of fd = Broken e /\
     (length (delivered fd) < n)%nat).
Proof.
  pose proof (read_full_loop_spec fd buf n 0 ltac:(lia) Hbuf) as S.
  rewrite Nat.sub_0_r in S. fold (read_full fd buf n) in S.
  split; [|split; [|split; [|split]]].
  - intros Hn. unfold read_full at 1. rewrite read_full_loop_eq.
    destruct (lt_dec 0 n) as [_|F]; [|contradiction].
    reflexivity.
  - intros Hle. rewrite (proj2 (Nat.leb_le _ _) Hle) in S.
    destruct S as [rest S]. exists rest. split; [|reflexivity].
    rewrite S, store_whole; [reflexivity|].
    rewrite length_firstn. lia.
  - intros Hlt Hend. rewrite (proj2 (Nat.leb_gt _ _) Hlt), Hend in S.
    destruct S as [rest S]. do 2 eexists.
    split; [exact S|]. split; [apply store_prefix|]. simpl. lia.
  - intros Hlt e Hend. rewrite (proj2 (Nat.leb_gt _ _) Hlt), Hend in S.
    destruct S as [_ [rest S]]. do 2 eexists. split; [exact S|reflexivity].
  - intros e buf' rest H. rewrite H in S.
    destruct (Nat.leb_spec n (length (delivered fd))) as [Hle|Hlt].
    + destruct S as [rest' S]. discriminate S.
    + destruct (ending_of fd) as [|e'|].
      * destruct S as [rest' S]. discriminate S.
      * destruct S as [He [rest' S]]. inversion S; subst. auto.
      * discriminate S.
Qed.

Example read_full_retries_and_fills :
  read_full [Data (bytes_of "ab"); Err EINTR; Data (bytes_of "cdefg"); Eof]
    (zeroed 4) 4
  = ReadReturns (Count 4) (bytes_of "abcd") [Data (bytes_of "efg"); Eof].
Proof. reflexivity. Qed.

Example read_full_short_on_close :
  read_full [Data (bytes_of "ab"); Err EINTR; Eof; Data (bytes_of "cd")]
    (zeroed 4) 4
  = ReadReturns (Count 2) (bytes_of "ab" ++ zeroed 2) [Data (bytes_of "cd")].
Proof. reflexivity. Qed.

Example read_full_error :
  read_full [Data (bytes_of "ab"); Err 5; Data (bytes_of "cd")] (zeroed 4) 4
  = ReadReturns (Failed 5) (bytes_of "ab" ++ zeroed 2) [Data (bytes_of "cd")].
Proof. reflexivity. Qed.

(** Without an end of stream in between, stray bytes are completed by the
    bytes that follow them. *)
Example read_full_completes_stray_bytes :
  read_full [Data (bytes_of "ab"); Data (bytes_of "cdefg")] (zeroed 4) 4
  = ReadReturns (Count 4) (bytes_of "abcd") [Data (bytes_of "efg")].
Proof. reflexivity. Qed.

Lemma read_full_exact_witness :
  length (zeroed 4) = 4%nat /\
  exists (buf' : list byte) (rest : endpoint),
    read_full [Data (bytes_of "ab"); Err EINTR; Eof] (zeroed 4) 4
    = ReadReturns (Count 2) buf' rest /\
    firstn 2 buf' = bytes_of "ab" /\
    0 <= ssize_of (Count 2) < 4.
Proof.
  split; [reflexivity|].
  refine (proj1 (proj2 (proj2
            (read_full_exact [Data (bytes_of "ab"); Err EINTR; Eof]
               (zeroed 4) 4 _))) _ _).
  - reflexivity.
  - simpl. lia.
  - reflexivity.
Defined.

(* ===================================================================== *)
(** ** write_full and the worker                                          *)
(* ===================================================================== *)

Lemma firstn_extend (buf : list byte) (off j : nat) :
  firstn off buf ++ firstn j (skipn off buf) = firstn (off + j) buf.
Proof.
  revert buf. induction off as [|off IH]; intros buf; [reflexivity|].
  destruct buf as [|x buf]; [destruct j; reflexivity|].
  cbn [firstn skipn Nat.add app]. rewrite IH. reflexivity.
Qed.

(** What the loop of [write_full] returns, in terms of what the endpoint
    takes: [sent] is always the part of the buffer written so far. *)
Lemma write_full_loop_spec (out : out_endpoint) :
  forall (buf : list byte) (n off : nat),
    (off <= n)%nat -> length buf = n ->
    if (n - off <=? capacity out)%nat then
      exists rest : out_endpoint,
        write_full_loop out buf n off (firstn off buf)
        = WriteReturns (Count n) buf rest
    else
      match refusal out with
      | Some e =>
          e <> EINTR /\
          exists rest : out_endpoint,
            write_full_loop out buf n off (firstn off buf)
            = WriteReturns (Failed e) (firstn (off + capacity out) buf) rest
      | None =>
          write_full_loop out buf n off (firstn off buf)
          = WriteBlocks (firstn (off + capacity out) buf)
      end.
Proof.
  induction out as [|ev out IH]; intros buf n off Hoff Hbuf.
  all: destruct (Nat.eq_dec off n) as [->|Hne];
    [ rewrite Nat.sub_diag; cbn [Nat.leb]; eexists;
      destruct ev || idtac; cbn [write_full_loop];
      rewrite Nat.ltb_irrefl, <- Hbuf, firstn_all; reflexivity
    | assert (Hlt : (off <? n)%nat = true) by (apply Nat.ltb_lt; lia) ].
  - cbn [write_full_loop capacity refusal]. rewrite Hlt.
    rewrite (proj2 (Nat.leb_gt _ _)) by lia.
    rewrite Nat.add_0_r. reflexivity.
  - cbn [write_full_loop]. rewrite Hlt.
    destruct ev as [k|e]; cbn [sys_write capacity refusal].
    + rewrite firstn_firstn.
      set (j := Nat.min k (n - off)).
      assert (Hj : length (firstn j (skipn off buf)) = j)
        by (rewrite length_firstn, length_skipn; unfold j; lia).
      rewrite Hj, firstn_extend.
      specialize (IH buf n (off + j)%nat ltac:(unfold j; lia) Hbuf).
      destruct (Nat.leb_spec (n - off) (k + capacity out)) as [Hle|Hgt].
      * rewrite (proj2 (Nat.leb_le _ _)) in IH by (unfold j; lia).
        exact IH.
      * assert (Ej : j = k) by (unfold j; lia).
        rewrite (proj2 (Nat.leb_gt _ _)) in IH by lia.
        rewrite Ej in IH.
        replace (off + (k + capacity out))%nat
          with (off + k + capacity out)%nat by lia.
        rewrite Ej. exact IH.
    + destruct (Z.eqb_spec e EINTR) as [He|He].
      * apply IH; assumption.
      * cbn [capacity]. rewrite (proj2 (Nat.leb_gt _ _)) by lia.
        split; [exact He|]. eexists. rewrite Nat.add_0_r. reflexivity.
Qed.

Lemma write_full_spec (out : out_endpoint) (buf : list byte) (n : nat) :
  length buf = n ->
  if (n <=? capacity out)%nat then
    exists rest : out_endpoint,
      write_full out buf n = WriteReturns (Count n) buf rest
  else
    match refusal out with
    | Some e =>
        e <> EINTR /\
        exists rest : out_endpoint,
          write_full out buf n
          = WriteReturns (Failed e) (firstn (capacity out) buf) rest
    | None => write_full out buf n = WriteBlocks (firstn (capacity out) buf)
    end.
Proof.
  intros Hbuf.
  pose proof (write_full_loop_spec out buf n 0 ltac:(lia) Hbuf) as S.
  rewrite Nat.sub_0_r in S. exact S.
Qed.

Lemma store_first_length (buf : list byte) (c : byte) :
  length (store_first buf c) = length buf.
Proof. destruct buf; reflexivity. Qed.

Lemma snprintf_length (buf lit : list byte) (size : nat) :
  (0 < size)%nat -> size = length buf -> (length lit < size)%nat ->
  length (snprintf buf size lit) = length buf.
Proof.
  intros Hs Hb Hl. unfold snprintf. destruct size as [|m]; [lia|].
  rewrite firstn_all2 by lia.
  rewrite length_app. cbn [length]. rewrite length_skipn. lia.
Qed.

Lemma some_inj {A : Type} (a b : A) : Some a = Some b -> a = b.
Proof. intros H. injection H as H. exact H. Qed.

(** [compute] leaves a well-formed response well-formed. *)
Lemma compute_valid_response (rq : request_msg_t) (rp rp' : response_msg_t) :
  valid_request rq -> valid_response rp ->
  compute rq rp = Some rp' -> valid_response rp'.
Proof.
  intros (_ & Ha & Hb & _ & _) (Hr & Hs & He). unfold compute.
  assert (He0 : length (store_first (error rp) x00) = ERROR_MAX)
    by (rewrite store_first_length; exact He).
  assert (Hmsg : forall lit, (length lit < ERROR_MAX)%nat ->
            length (snprintf (store_first (error rp) x00) ERROR_MAX lit)
            = ERROR_MAX).
  { intros lit Hl. rewrite snprintf_length; [exact He0 | cbv; lia | | exact Hl].
    symmetry. exact He0. }
  assert (H1 : in_int32 1) by (vm_compute; split; discriminate).
  assert (H0 : in_int32 0) by (vm_compute; split; discriminate).
  destruct (memcmp (operation rq) (bytes_of "add") 3 =? 0);
    [intros H; apply some_inj in H; subst rp';
     repeat split; cbn [result success error set_result set_error set_success];
     try apply wrap64_in_int64; try apply H1; exact He0 |].
  destruct (memcmp (operation rq) (bytes_of "sub") 3 =? 0);
    [intros H; apply some_inj in H; subst rp';
     repeat split; cbn [result success error set_result set_error set_success];
     try apply wrap64_in_int64; try apply H1; exact He0 |].
  destruct (memcmp (operation rq) (bytes_of "mul") 3 =? 0);
    [intros H; apply some_inj in H; subst rp';
     repeat split; cbn [result success error set_result set_error set_success];
     try apply wrap64_in_int64; try apply H1; exact He0 |].
  destruct (memcmp (operation rq) (bytes_of "div") 3 =? 0).
  - destruct (Z.eqb_spec (operand2 rq) 0) as [Hz|Hnz].
    + intros H; apply some_inj in H; subst rp'.
      unfold valid_response.
      cbn [result success error set_result set_error set_success].
      split; [exact Hr|]. split; [exact H0|]. apply Hmsg. cbv; lia.
    + unfold div64. rewrite (proj2 (Z.eqb_neq _ _) Hnz). cbn [orb].
      destruct ((operand1 rq =? int64_min) && (operand2 rq =? -1)) eqn:E;
        [discriminate|].
      intros H; apply some_inj in H; subst rp'.
      unfold valid_response.
      cbn [result success error set_result set_error set_success].
      split; [|split; [exact H1 | exact He0]].
      apply quot_in_int64; try assumption.
      intros [E1 E2]. rewrite E1, E2 in E. discriminate E.
  - intros H; apply some_inj in H; subst rp'.
    unfold valid_response.
    cbn [result success error set_result set_error set_success].
    split; [exact Hr|]. split; [exact H0|]. apply Hmsg. cbv; lia.
Qed.

Lemma zero_response_valid : valid_response zero_response.
Proof. by_evaluation. Qed.

Lemma writes_to_same (path bs : list byte) (t : list event) :
  writes_to path (EvWrite path bs :: t) = bs :: writes_to path t.
Proof.
  cbn [writes_to].
  destruct (list_eq_dec Byte.byte_eq_dec path path); [reflexivity|contradiction].
Qed.

Lemma le_value_range (bs : list byte) :
  0 <= le_value bs < 256 ^ Z.of_nat (length bs).
Proof.
  induction bs as [|b bs IH].
  - simpl. lia.
  - cbn [le_value length]. rewrite Nat2Z.inj_succ, Z.pow_succ_r by lia.
    pose proof (byte_to_Z_range b). lia.
Qed.

Lemma int_of_bytes_range (bo : byte_order) (bs : list byte) :
  (0 < length bs)%nat ->
  - 2 ^ (8 * Z.of_nat (length bs) - 1) <= int_of_bytes bo bs
  < 2 ^ (8 * Z.of_nat (length bs) - 1).
Proof.
  intros Hl. unfold int_of_bytes.
  pose proof (le_value_range (in_order bo bs)) as R.
  rewrite in_order_length in R.
  set (bits := 8 * Z.of_nat (length bs)) in *.
  assert (E : 256 ^ Z.of_nat (length bs) = 2 ^ bits).
  { unfold bits. change 256 with (2 ^ 8). rewrite <- Z.pow_mul_r by lia.
    reflexivity. }
  rewrite E in R.
  assert (H2 : 2 ^ bits = 2 * 2 ^ (bits - 1)).
  { replace bits with (Z.succ (bits - 1)) at 1 by lia.
    rewrite Z.pow_succ_r by (unfold bits; lia). reflexivity. }
  destruct (Z.ltb_spec (le_value (in_order bo bs)) (2 ^ (bits - 1))); lia.
Qed.

(** Whatever 152 bytes the server reads, the request it dispatches is a
    value of [request_msg_t]. *)
Lemma decode_request_valid (bo : byte_order) (bs : list byte) :
  length bs = FIXED_REQ_LEN -> valid_request (decode_request bo bs).
Proof.
  intros Hl. unfold valid_request, decode_request.
  cbn [operation operand1 operand2 client_pid resp_fifo].
  assert (L8a : length (firstn 8 (skipn 4 bs)) = 8%nat)
    by (rewrite length_firstn, length_skipn, Hl; reflexivity).
  assert (L8b : length (firstn 8 (skipn 12 bs)) = 8%nat)
    by (rewrite length_firstn, length_skipn, Hl; reflexivity).
  assert (L4 : length (firstn 4 (skipn 20 bs)) = 4%nat)
    by (rewrite length_firstn, length_skipn, Hl; reflexivity).
  pose proof (int_of_bytes_range bo _ ltac:(rewrite L8a; lia)) as R1.
  pose proof (int_of_bytes_range bo _ ltac:(rewrite L8b; lia)) as R2.
  pose proof (int_of_bytes_range bo _ ltac:(rewrite L4; lia)) as R3.
  rewrite L8a in R1. rewrite L8b in R2. rewrite L4 in R3.
  change (8 * Z.of_nat 8 - 1) with 63 in R1, R2.
  change (8 * Z.of_nat 4 - 1) with 31 in R3.
  unfold in_int64, in_int32, int64_min, int64_max, int32_min, int32_max.
  repeat split; try lia.
  - rewrite length_firstn, Hl. reflexivity.
  - rewrite length_firstn, length_skipn, Hl. reflexivity.
Qed.

Lemma worker_response_length (bo : byte_order)
  (rq : request_msg_t) (rp : response_msg_t) :
  valid_request rq -> compute rq zero_response = Some rp ->
  length (encode_response bo rp) = FIXED_RESP_LEN.
Proof.
  intros Hrq Hc. apply encode_response_length.
  apply (compute_valid_response rq zero_response rp Hrq
           zero_response_valid Hc).
Qed.

(** C8, amended.  For every valid request on which [compute] returns a
    response, whatever the reply endpoint does: the worker opens the
    request's reply address once and writes to it at most once; what it
    writes is a prefix of the one encoded response, which has
    [FIXED_RESP_LEN] bytes.  When the open succeeds and the endpoint takes
    [FIXED_RESP_LEN] bytes, the worker writes exactly the encoded response,
    closes the endpoint and exits.  When the open fails it writes nothing
    and exits.  When a write fails because the reader has gone ([EPIPE])
    the worker is killed by SIGPIPE inside that write; when a write fails
    otherwise it closes and exits.  In none of these cases does it open or
    write again. *)
Theorem worker_replies_once (bo : byte_order)
  (rq : request_msg_t) (rp : response_msg_t)
  (o : open_outcome) (out : out_endpoint)
  (Hrq : valid_request rq)
  (Hcomp : compute rq zero_response = Some rp) :
  let path := c_string (resp_fifo rq) in
  let r := child bo rq o out in
  length (encode_response bo rp) = FIXED_RESP_LEN /\
  filter is_open (trace r) = [EvOpen path o] /\
  (length (filter is_write (trace r)) <= 1)%nat /\
  (forall sent : list byte,
     In sent (writes_to path (trace r)) ->
     exists rest : list byte, encode_response bo rp = sent ++ rest) /\
  (o = Opened -> (FIXED_RESP_LEN <= capacity out)%nat ->
   trace r = [EvPrint (computed_message rq rp); EvOpen path Opened;
              EvWrite path (encode_response bo rp); EvPrint (MsgSent path);
              EvClose path; EvExit 0] /\
   writes_to path (trace r) = [encode_response bo rp] /\
   status r = Exited 0) /\
  (forall e : Z, o = OpenFails e ->
   trace r = [EvPrint (computed_message rq rp); EvOpen path (OpenFails e);
              EvLog (MsgOpenFailed path e); EvPrint (MsgOpenFailed path e);
              EvExit 0] /\
   writes_to path (trace r) = [] /\
   status r = Exited 0) /\
  (o = Opened -> (capacity out < FIXED_RESP_LEN)%nat ->
   refusal out = Some EPIPE ->
   trace r = [EvPrint (computed_message rq rp); EvOpen path Opened;
              EvWrite path (firstn (capacity out) (encode_response bo rp))] /\
   status r = Sigpipe) /\
  (forall e : Z, o = Opened -> (capacity out < FIXED_RESP_LEN)%nat ->
   refusal out = Some e -> e <> EPIPE ->
   trace r = [EvPrint (computed_message rq rp); EvOpen path Opened;
              EvWrite path (firstn (capacity out) (encode_response bo rp));
              EvLog (MsgWriteFailed path e); EvPrint (MsgWriteFailed path e);
              EvClose path; EvExit 0] /\
   status r = Exited 0).
Proof.
  intros path r.
  pose proof (worker_response_length bo rq rp Hrq Hcomp) as Hlen.
  split; [exact Hlen|].
  pose proof (write_full_spec out (encode_response bo rp) FIXED_RESP_LEN Hlen)
    as W.
  assert (Hpre : forall k, exists rest,
            encode_response bo rp
            = firstn k (encode_response bo rp) ++ rest)
    by (intros k; exists (skipn k (encode_response bo rp));
        symmetry; apply firstn_skipn).
  subst r. unfold child. rewrite Hcomp. fold path.
  assert (Hsame : forall (A : Type) (x y : A),
            (if list_eq_dec Byte.byte_eq_dec path path then x else y) = x)
    by (intros A x y; destruct (list_eq_dec Byte.byte_eq_dec path path);
        [reflexivity | contradiction]).
  destruct o as [|e0|].
  - (* the reply endpoint is open *)
    destruct (Nat.leb_spec FIXED_RESP_LEN (capacity out)) as [Hle|Hgt].
    + destruct W as [rest W]. rewrite W.
      cbn [trace status app filter is_open is_write length writes_to].
      rewrite !Hsame.
      split; [reflexivity|]. split; [lia|].
      split; [intros sent [<-|[]]; exists []; symmetry; apply app_nil_r|].
      split; [intros _ _; repeat split|].
      split; [intros e He; discriminate He|].
      split; [intros _ Hc _; lia|].
      intros e _ Hc _ _. lia.
    + destruct (refusal out) as [e|].
      * destruct W as [He [rest W]]. rewrite W.
        destruct (Z.eqb_spec e EPIPE) as [Hp|Hp].
        -- (* the reader has gone *)
           cbn [trace status app filter is_open is_write length writes_to].
           rewrite !Hsame.
           split; [reflexivity|]. split; [lia|].
           split; [intros sent [<-|[]]; apply Hpre|].
           split; [intros _ Hc; lia|].
           split; [intros e' He'; discriminate He'|].
           split; [intros _ _ _; split; reflexivity|].
           intros e' _ _ [= <-] Hn. contradiction.
        -- cbn [trace status app filter is_open is_write length writes_to].
           rewrite !Hsame.
           split; [reflexivity|]. split; [lia|].
           split; [intros sent [<-|[]]; apply Hpre|].
           split; [intros _ Hc; lia|].
           split; [intros e' He'; discriminate He'|].
           split; [intros _ _ [= E]; contradiction|].
           intros e' _ _ [= <-] _. split; reflexivity.
      * rewrite W.
        cbn [trace status app filter is_open is_write length writes_to].
        rewrite !Hsame.
        split; [reflexivity|]. split; [lia|].
        split; [intros sent [<-|[]]; apply Hpre|].
        split; [intros _ Hc; lia|].
        split; [intros e' He'; discriminate He'|].
        split; [intros _ _ Hr; discriminate Hr|].
        intros e' _ _ Hr. discriminate Hr.
  - cbn [trace status app filter is_open is_write length writes_to].
    split; [reflexivity|]. split; [lia|].
    split; [intros sent []|].
    split; [intros Ho; discriminate Ho|].
    split; [intros e [= <-]; repeat split|].
    split; [intros Ho; discriminate Ho|].
    intros e Ho. discriminate Ho.
  - cbn [trace status app filter is_open is_write length writes_to].
    split; [reflexivity|]. split; [lia|].
    split; [intros sent []|].
    split; [intros Ho; discriminate Ho|].
    split; [intros e Ho; discriminate Ho|].
    split; [intros Ho; discriminate Ho|].
    intros e Ho. discriminate Ho.
Qed.

(** C8 as stated fails for the request [div INT64_MIN -1]: the reply
    endpoint opens and would take a whole response, yet the worker is
    stopped inside [compute] and nothing is ever written to the reply
    address. *)
Lemma worker_killed_counterexample :
  valid_request (sample_request "div" int64_min (-1)) /\
  c_string (resp_fifo (sample_request "div" int64_min (-1))) = sample_path /\
  (FIXED_RESP_LEN <= capacity [Accept FIXED_RESP_LEN])%nat /\
  child LittleEndian (sample_request "div" int64_min (-1)) Opened
    [Accept FIXED_RESP_LEN]
  = {| trace := []; status := Killed |} /\
  writes_to sample_path
    (trace (child LittleEndian (sample_request "div" int64_min (-1)) Opened
              [Accept FIXED_RESP_LEN])) = [].
Proof.
  split; [by_evaluation|].
  split; [reflexivity|].
  split; [vm_compute; lia|].
  split; reflexivity.
Qed.

Lemma worker_replies_once_witness :
  valid_request (sample_request "add" 6 9) /\
  compute (sample_request "add" 6 9) zero_response
  = Some {| result := 15; success := 1; error := zeroed ERROR_MAX |} /\
  trace (child LittleEndian (sample_request "add" 6 9) Opened
           [Accept 100; WErr EINTR; Accept 1000])
  = [EvPrint (computed_message (sample_request "add" 6 9)
              {| result := 15; success := 1; error := zeroed ERROR_MAX |});
     EvOpen (c_string (resp_fifo (sample_request "add" 6 9))) Opened;
     EvWrite (c_string (resp_fifo (sample_request "add" 6 9)))
       (encode_response LittleEndian
          {| result := 15; success := 1; error := zeroed ERROR_MAX |});
     EvPrint (MsgSent (c_string (resp_fifo (sample_request "add" 6 9))));
     EvClose (c_string (resp_fifo (sample_request "add" 6 9))); EvExit 0] /\
  writes_to (c_string (resp_fifo (sample_request "add" 6 9)))
    (trace (child LittleEndian (sample_request "add" 6 9) Opened
              [Accept 100; WErr EINTR; Accept 1000]))
  = [encode_response LittleEndian
       {| result := 15; success := 1; error := zeroed ERROR_MAX |}] /\
  status (child LittleEndian (sample_request "add" 6 9) Opened
            [Accept 100; WErr EINTR; Accept 1000]) = Exited 0.
Proof.
  split; [by_evaluation|].
  split; [reflexivity|].
  refine (proj1 (proj2 (proj2 (proj2 (proj2
            (worker_replies_once LittleEndian (sample_request "add" 6 9)
               {| result := 15; success := 1; error := zeroed ERROR_MAX |}
               Opened [Accept 100; WErr EINTR; Accept 1000] _ _))))) _ _).
  - by_evaluation.
  - reflexivity.
  - reflexivity.
  - vm_compute. lia.
Defined.

Example worker_write_fails :
  let r := child LittleEndian (sample_request "add" 6 9) Opened
             [Accept 100; WErr 5; Accept 1000] in
  map (length (A:=byte))
    (writes_to (c_string (resp_fifo (sample_request "add" 6 9))) (trace r))
  = [100%nat] /\
  status r = Exited 0.
Proof. split; reflexivity. Qed.

Example worker_loses_its_reader :
  let r := child LittleEndian (sample_request "add" 6 9) Opened
             [Accept 100; WErr EPIPE; Accept 1000] in
  map (length (A:=byte))
    (writes_to (c_string (resp_fifo (sample_request "add" 6 9))) (trace r))
  = [100%nat] /\
  filter (fun e => match e with EvClose _ | EvExit _ => true | _ => false end)
    (trace r) = [] /\
  status r = Sigpipe.
Proof. repeat split. Qed.

(** When [fork] fails the server answers the request itself, and there too
    it writes to the reply address at most once. *)
Lemma dispatch_writes_at_most_once (bo : byte_order)
  (rq : request_msg_t) (env : iter_env) (st : server_state) :
  (length (filter is_write (it_trace (dispatch bo rq env st))) <= 1)%nat.
Proof.
  unfold dispatch.
  destruct (ie_fork env) as [cpid|e]; [simpl; lia|].
  destruct (compute rq (ie_rp env)) as [rp|]; [|simpl; lia].
  destruct (ie_open env); try (simpl; lia).
  destruct (write_full _ _ _) as [[k|e'] ? ?|?]; try (simpl; lia).
  destruct (e' =? EPIPE); simpl; lia.
Qed.

(* ===================================================================== *)
(** ** The dispatch loop                                                  *)
(* ===================================================================== *)

(** C6.  Whenever an iteration of the dispatch loop reads a partial record
    of [k] bytes, [0 < k < FIXED_REQ_LEN]: the iteration only writes a log
    line (it opens nothing, writes no response, forks no worker), it does
    not end the server, and it goes on to the next iteration, which, if no
    stop was requested and a well-formed request then arrives, dispatches a
    worker for exactly that request. *)
Theorem partial_request_ignored (bo : byte_order)
  (st : server_state) (env : iter_env)
  (k : nat) (buf : list byte) (fd' : endpoint)
  (Hrun : stop_requested st = false)
  (Hread : read_full (req_fd st) (ie_rq env) FIXED_REQ_LEN
           = ReadReturns (Count k) buf fd')
  (Hk : (0 < k < FIXED_REQ_LEN)%nat) :
  server_iteration bo st env
  = {| it_trace := [EvLog (MsgPartial (Z.of_nat k))];
       it_ctl := Continue {| stop_requested := ie_sigint env;
                             req_fd := fd' |} |} /\
  filter (fun e => is_open e || is_write e || is_fork e)
    (it_trace (server_iteration bo st env)) = [] /\
  (forall (env2 : iter_env) (rq : request_msg_t) (fd'' : endpoint) (cpid : Z),
     ie_sigint env = false ->
     valid_request rq ->
     read_full fd' (ie_rq env2) FIXED_REQ_LEN
     = ReadReturns (Count FIXED_REQ_LEN) (encode_request bo rq) fd'' ->
     ie_fork env2 = ForkParent cpid ->
     server_loop bo [env; env2] st
     = ([EvLog (MsgPartial (Z.of_nat k)); EvPrint (MsgRecv rq); EvLog (MsgRecv rq);
         EvFork rq (ForkParent cpid)],
        Continue {| stop_requested := ie_sigint env2; req_fd := fd'' |})).
Proof.
  assert (Hit : server_iteration bo st env
    = {| it_trace := [EvLog (MsgPartial (Z.of_nat k))];
         it_ctl := Continue {| stop_requested := ie_sigint env;
                               req_fd := fd' |} |}).
  { unfold server_iteration. rewrite Hrun, Hread.
    destruct k as [|k]; [lia|].
    rewrite (proj2 (Nat.ltb_lt _ _)) by lia. reflexivity. }
  split; [exact Hit|].
  split; [rewrite Hit; reflexivity|].
  intros env2 rq fd'' cpid Hsig Hrq Hread2 Hfork.
  assert (Hit2 : server_iteration bo
                   {| stop_requested := false; req_fd := fd' |} env2
    = {| it_trace := [EvPrint (MsgRecv rq); EvLog (MsgRecv rq);
                      EvFork rq (ForkParent cpid)];
         it_ctl := Continue {| stop_requested := ie_sigint env2;
                               req_fd := fd'' |} |}).
  { unfold server_iteration. cbn [stop_requested req_fd].
    rewrite Hread2.
    change FIXED_REQ_LEN with 152%nat. cbn iota.
    rewrite Nat.ltb_irrefl.
    rewrite decode_encode_request by exact Hrq.
    unfold dispatch. rewrite Hfork. reflexivity. }
  cbn [server_loop]. rewrite Hit. cbn [it_ctl it_trace].
  rewrite Hsig, Hit2. reflexivity.
Qed.

(** A whole record at the head of the stream is read in one call. *)
Lemma read_full_whole_record (bs junk : list byte) (rest : endpoint) (n : nat) :
  (0 < n)%nat -> length bs = n -> length junk = n ->
  read_full (Data bs :: rest) junk n = ReadReturns (Count n) bs rest.
Proof.
  intros Hn Hbs Hjunk. unfold read_full. rewrite read_full_loop_eq.
  destruct (lt_dec 0 n) as [_|F]; [|contradiction].
  cbn [sys_read]. rewrite Nat.sub_0_r, Hbs, Nat.leb_refl.
  destruct bs as [|b bs]; [simpl in Hbs; lia|].
  cbn [Nat.add]. rewrite Hbs, read_full_loop_done, store_whole by lia.
  reflexivity.
Qed.

(** Requests that arrive whole, one after the other, are each handed to a
    worker of their own, in the order of arrival, and the server goes on
    reading. *)
Lemma server_loop_dispatches_each (bo : byte_order) (cpid : Z)
  (junk : list byte) (rest : endpoint) (rqs : list request_msg_t) :
  length junk = FIXED_REQ_LEN ->
  Forall valid_request rqs ->
  let env := {| ie_sigint := false; ie_rq := junk; ie_reopen := None;
                ie_fork := ForkParent cpid; ie_rp := zero_response;
                ie_open := Opened; ie_out := [] |} in
  server_loop bo (map (fun _ => env) rqs)
    {| stop_requested := false;
       req_fd := map (fun rq => Data (encode_request bo rq)) rqs ++ rest |}
  = (flat_map (fun rq => dispatched rq cpid) rqs,
     Continue {| stop_requested := false; req_fd := rest |}).
Proof.
  intros Hjunk Hall env.
  induction Hall as [|rq rqs Hrq Hall IH]; [reflexivity|].
  cbn [map app flat_map server_loop].
  assert (Hit : server_iteration bo
            {| stop_requested := false;
               req_fd := Data (encode_request bo rq)
                         :: map (fun rq => Data (encode_request bo rq)) rqs
                            ++ rest |} env
          = {| it_trace := dispatched rq cpid;
               it_ctl := Continue
                 {| stop_requested := false;
                    req_fd := map (fun rq => Data (encode_request bo rq)) rqs
                              ++ rest |} |}).
  { unfold server_iteration. cbn [stop_requested req_fd ie_rq env].
    rewrite read_full_whole_record;
      [ | cbv; lia | apply encode_request_length; apply Hrq | exact Hjunk ].
    change FIXED_REQ_LEN with 152%nat. cbn iota.
    rewrite Nat.ltb_irrefl, decode_encode_request by exact Hrq.
    reflexivity. }
  rewrite Hit. cbn [it_ctl it_trace]. rewrite IH. reflexivity.
Qed.

Lemma partial_request_ignored_witness :
  read_full sample_inbound (ie_rq sample_env) FIXED_REQ_LEN
  = ReadReturns (Count 3) (bytes_of "div" ++ zeroed 149)
      [Data (encode_request LittleEndian (sample_request "add" 6 9))] /\
  (0 < 3 < FIXED_REQ_LEN)%nat /\
  server_loop LittleEndian [sample_env; sample_env]
    {| stop_requested := false; req_fd := sample_inbound |}
  = ([EvLog (MsgPartial 3);
      EvPrint (MsgRecv (sample_request "add" 6 9));
      EvLog (MsgRecv (sample_request "add" 6 9));
      EvFork (sample_request "add" 6 9) (ForkParent 1234)],
     Continue {| stop_requested := false; req_fd := [] |}).
Proof.
  split; [reflexivity|].
  split; [vm_compute; lia|].
  refine (proj2 (proj2
            (partial_request_ignored LittleEndian
               {| stop_requested := false; req_fd := sample_inbound |}
               sample_env 3 (bytes_of "div" ++ zeroed 149)
               [Data (encode_request LittleEndian (sample_request "add" 6 9))]
               _ _ _))
            sample_env (sample_request "add" 6 9) [] 1234 _ _ _ _).
  - reflexivity.
  - reflexivity.
  - vm_compute. lia.
  - reflexivity.
  - by_evaluation.
  - reflexivity.
  - reflexivity.
Defined.

(* ===================================================================== *)
(** ** The client's request                                               *)
(* ===================================================================== *)

Lemma strlen_le (s : list byte) : (strlen s <= length s)%nat.
Proof.
  induction s as [|b s IH]; simpl; [lia|].
  destruct (Byte.eqb b x00); lia.
Qed.

Lemma skipn_repeat (x : byte) (n m : nat) :
  skipn n (repeat x m) = repeat x (m - n).
Proof.
  revert m. induction n as [|n IH]; intros m.
  - rewrite Nat.sub_0_r. reflexivity.
  - destruct m as [|m]; [reflexivity|]. simpl. apply IH.
Qed.

Lemma zero_tail (l : list byte) (z i : nat) :
  (length l <= i < length l + z)%nat ->
  nth i (l ++ repeat x00 z) x01 = x00.
Proof.
  intros H. rewrite app_nth2 by lia. apply nth_repeat_lt. lia.
Qed.

Lemma build_request_operation (line : list byte) (a b pid : Z)
  (path : list byte) :
  operation (build_request line a b pid path)
  = firstn (Nat.min OP_MAX (strlen line)) line
      ++ repeat x00 (OP_MAX - Nat.min OP_MAX (strlen line)).
Proof.
  unfold build_request. cbn [operation]. unfold memcpy, zeroed.
  assert (E : (if (OP_MAX <? strlen line)%nat then OP_MAX else strlen line)
              = Nat.min OP_MAX (strlen line))
    by (destruct (Nat.ltb_spec OP_MAX (strlen line)); lia).
  rewrite E, skipn_repeat. reflexivity.
Qed.

Lemma build_request_resp_fifo (line : list byte) (a b pid : Z)
  (path : list byte) :
  resp_fifo (build_request line a b pid path)
  = firstn (Nat.min (RESP_NAME_MAX - 1) (strlen path)) path
      ++ repeat x00
           (RESP_NAME_MAX - Nat.min (RESP_NAME_MAX - 1) (strlen path)).
Proof.
  unfold build_request. cbn [resp_fifo]. unfold strncpy, zeroed.
  rewrite skipn_repeat.
  change (RESP_NAME_MAX - (RESP_NAME_MAX - 1))%nat with 1%nat.
  destruct (Nat.ltb_spec (strlen path) (RESP_NAME_MAX - 1)) as [Hlt|Hge].
  - rewrite Nat.min_r by lia. rewrite <- app_assoc, <- repeat_app.
    replace (RESP_NAME_MAX - 1 - strlen path + 1)%nat
      with (RESP_NAME_MAX - strlen path)%nat
      by (unfold RESP_NAME_MAX in *; lia).
    reflexivity.
  - rewrite Nat.min_l by lia. reflexivity.
Qed.

(** C7.  For every line the user typed, every pair of operands, every pid
    and response path: the request the client builds encodes to exactly
    [FIXED_REQ_LEN] bytes; its [operation] field has [OP_MAX] bytes, which
    are the first [min(OP_MAX, strlen(line))] bytes of the line followed
    by zero bytes only; its [resp_fifo] field has [RESP_NAME_MAX] bytes,
    which are the first [min(RESP_NAME_MAX-1, strlen(path))] bytes of the
    path followed by zero bytes only. *)
Theorem request_fixed_size_zero_filled (bo : byte_order)
  (line : list byte) (a b pid : Z) (path : list byte) :
  let rq := build_request line a b pid path in
  let n := Nat.min OP_MAX (strlen line) in
  let m := Nat.min (RESP_NAME_MAX - 1) (strlen path) in
  length (encode_request bo rq) = FIXED_REQ_LEN /\
  length (operation rq) = OP_MAX /\
  firstn n (operation rq) = firstn n line /\
  (forall i : nat, (n <= i < OP_MAX)%nat -> nth i (operation rq) x01 = x00) /\
  length (resp_fifo rq) = RESP_NAME_MAX /\
  firstn m (resp_fifo rq) = firstn m path /\
  (forall i : nat,
     (m <= i < RESP_NAME_MAX)%nat -> nth i (resp_fifo rq) x01 = x00).
Proof.
  intros rq n m.
  pose proof (strlen_le line) as Hl. pose proof (strlen_le path) as Hp.
  assert (Ln : length (firstn n line) = n)
    by (rewrite length_firstn; unfold n; lia).
  assert (Lm : length (firstn m path) = m)
    by (rewrite length_firstn; unfold m; lia).
  assert (Eo : operation rq = firstn n line ++ repeat x00 (OP_MAX - n))
    by apply build_request_operation.
  assert (Ef : resp_fifo rq = firstn m path ++ repeat x00 (RESP_NAME_MAX - m))
    by apply build_request_resp_fifo.
  assert (Lo : length (operation rq) = OP_MAX)
    by (rewrite Eo, length_app, repeat_length, Ln; unfold n; lia).
  assert (Lf : length (resp_fifo rq) = RESP_NAME_MAX)
    by (rewrite Ef, length_app, repeat_length, Lm; unfold m; lia).
  split; [apply encode_request_length; assumption|].
  split; [exact Lo|].
  split; [rewrite Eo; apply firstn_app_exact; exact Ln|].
  split; [intros i Hi; rewrite Eo; apply zero_tail; rewrite Ln; lia|].
  split; [exact Lf|].
  split; [rewrite Ef; apply firstn_app_exact; exact Lm|].
  intros i Hi. rewrite Ef. apply zero_tail. rewrite Lm. lia.
Qed.

Example request_for_add :
  operation (sample_request "add" 6 9) = bytes_of "add" ++ [x00] /\
  resp_fifo (sample_request "add" 6 9) = sample_path ++ zeroed 105 /\
  is_valid_op (bytes_of "add") = true /\
  is_valid_op (bytes_of "addx") = false.
Proof. repeat split. Qed.


(* ===================================================================== *)
(** ** More on write_full                                                 *)
(* ===================================================================== *)

(** X1.  [write_full] on a buffer of [n] bytes, over everything an endpoint
    can do: an interrupted [write] is retried; when the endpoint takes [n]
    bytes before it refuses, all of the buffer is sent and [n] is
    returned; when a [write] fails other than by interruption first, the
    error is returned and what was sent is the part of the buffer the
    endpoint took; when the endpoint stops taking bytes without failing,
    the call does not return.  It never returns a short count. *)
Theorem write_full_exact (out : out_endpoint) (buf : list byte) (n : nat)
  (Hbuf : length buf = n) :
  ((0 < n)%nat -> write_full (WErr EINTR :: out) buf n = write_full out buf n) /\
  ((n <= capacity out)%nat ->
   exists rest : out_endpoint,
     write_full out buf n = WriteReturns (Count n) buf rest) /\
  ((capacity out < n)%nat ->
   forall e : Z, refusal out = Some e ->
   exists rest : out_endpoint,
     write_full out buf n
     = WriteReturns (Failed e) (firstn (capacity out) buf) rest) /\
  ((capacity out < n)%nat -> refusal out = None ->
   write_full out buf n = WriteBlocks (firstn (capacity out) buf)) /\
  (forall (r : io_ret) (sent : list byte) (rest : out_endpoint),
     write_full out buf n = WriteReturns r sent rest ->
     (r = Count n /\ sent = buf) \/
     (exists e : Z, r = Failed e /\ e <> EINTR /\
                    (length sent < n)%nat /\
                    sent = firstn (length sent) buf)).
Proof.
  pose proof (write_full_spec out buf n Hbuf) as S.
  split; [|split; [|split; [|split]]].
  - intros Hn. unfold write_full. cbn [write_full_loop].
    rewrite (proj2 (Nat.ltb_lt 0 n) Hn). reflexivity.
  - intros Hle. rewrite (proj2 (Nat.leb_le _ _) Hle) in S. exact S.
  - intros Hlt e He. rewrite (proj2 (Nat.leb_gt _ _) Hlt), He in S.
    apply S.
  - intros Hlt He. rewrite (proj2 (Nat.leb_gt _ _) Hlt), He in S. exact S.
  - intros r sent rest H. rewrite H in S.
    destruct (Nat.leb_spec n (capacity out)) as [Hle|Hlt].
    + destruct S as [rest' S]. injection S as -> -> _. left. split; reflexivity.
    + destruct (refusal out) as [e|]; [|discriminate S].
      destruct S as [He [rest' S]]. injection S as -> -> _.
      right. exists e.
      assert (L : length (firstn (capacity out) buf) = capacity out)
        by (rewrite length_firstn; lia).
      rewrite L. repeat split; [exact He | exact Hlt].
Qed.

Lemma write_full_exact_witness :
  length (bytes_of "abcdef") = 6%nat /\
  exists rest : out_endpoint,
    write_full [Accept 2; WErr EINTR; Accept 1; WErr 32; Accept 9]
      (bytes_of "abcdef") 6
    = WriteReturns (Failed 32) (firstn 3 (bytes_of "abcdef")) rest.
Proof.
  split; [reflexivity|].
  refine (proj1 (proj2 (proj2
            (write_full_exact [Accept 2; WErr EINTR; Accept 1; WErr 32; Accept 9]
               (bytes_of "abcdef") 6 _))) _ 32 _).
  - reflexivity.
  - simpl. lia.
  - reflexivity.
Defined.

(* ===================================================================== *)
(** ** More on read_full: records that follow each other                  *)
(* ===================================================================== *)

(** After a full read, the endpoint still delivers what it had not handed
    over, and ends the way it would have ended. *)
Lemma read_full_loop_rest (fd : endpoint) :
  forall (buf : list byte) (n off : nat),
    (off <= n)%nat -> (n - off <= length (delivered fd))%nat ->
    exists (buf' : list byte) (rest : endpoint),
      read_full_loop fd buf n off = ReadReturns (Count n) buf' rest /\
      delivered rest = skipn (n - off) (delivered fd) /\
      ending_of rest = ending_of fd.
Proof.
  induction fd as [|ev fd IH]; intros buf n off Hoff Hle.
  all: destruct (Nat.eq_dec off n) as [->|Hne];
    [ rewrite Nat.sub_diag, read_full_loop_done; do 2 eexists;
      repeat split; reflexivity
    | assert (Hlt : (off < n)%nat) by lia ].
  - simpl in Hle. lia.
  - rewrite read_full_loop_eq.
    destruct (lt_dec off n) as [_|F]; [|contradiction].
    destruct ev as [[|b bs]| |e]; cbn [delivered] in Hle;
      try (simpl in Hle; lia).
    + cbn [delivered ending_of sys_read].
      set (c := b :: bs) in *.
      assert (Hc : (0 < length c)%nat) by (unfold c; simpl; lia).
      rewrite length_app in Hle.
      destruct (Nat.leb_spec (length c) (n - off)) as [Hfit|Hclamp].
      * assert (Hrec : read_full_loop fd (store buf off c) n (off + length c)
                       = match c with
                         | [] => ReadReturns (Count off) buf fd
                         | _ :: _ => read_full_loop fd (store buf off c) n
                                       (off + length c)
                         end) by reflexivity.
        rewrite <- Hrec. clear Hrec.
        destruct (IH (store buf off c) n (off + length c)%nat
                    ltac:(lia) ltac:(lia)) as (buf' & rest & E & D & G).
        exists buf', rest. split; [exact E|]. split; [|exact G].
        rewrite D, skipn_app, (skipn_all2 c) by lia.
        replace (n - (off + length c))%nat
          with (n - off - length c)%nat by lia.
        reflexivity.
      * destruct (n - off)%nat as [|m] eqn:Em; [lia|].
        unfold c. cbn [firstn].
        assert (Hm : length (b :: firstn m bs) = S m)
          by (simpl; rewrite length_firstn; unfold c in Hclamp;
              simpl in Hclamp; lia).
        rewrite Hm.
        replace (off + S m)%nat with n by lia.
        rewrite read_full_loop_done. do 2 eexists.
        split; [reflexivity|].
        assert (Hs : exists x xs, skipn (S m) (b :: bs) = x :: xs).
        { destruct (skipn (S m) (b :: bs)) as [|x xs] eqn:Es.
          - apply (f_equal (@length byte)) in Es.
            rewrite length_skipn in Es. unfold c in Hclamp.
            simpl in Es, Hclamp. lia.
          - eauto. }
        destruct Hs as (x & xs & Es). rewrite Es.
        cbn [delivered ending_of]. rewrite <- Es.
        split; [|reflexivity].
        rewrite (skipn_app (S m) (b :: bs)).
        replace (S m - length (b :: bs))%nat with O
          by (unfold c in Hclamp; simpl in *; lia).
        reflexivity.
    + cbn [delivered ending_of sys_read] in *.
      destruct (Z.eqb_spec e EINTR) as [He|He]; [|simpl in Hle; lia].
      apply IH; assumption.
Qed.

(** X2.  When [n] bytes arrive, [read_full] takes exactly the first [n] of
    them, wherever the chunk boundaries and interruptions fall, and leaves
    an endpoint that delivers exactly the bytes after them and ends as the
    original would have: consecutive calls read consecutive records. *)
Theorem read_full_conserves_stream (fd : endpoint) (buf : list byte) (n : nat)
  (Hbuf : length buf = n)
  (Hn : (n <= length (delivered fd))%nat) :
  exists rest : endpoint,
    read_full fd buf n = ReadReturns (Count n) (firstn n (delivered fd)) rest /\
    delivered rest = skipn n (delivered fd) /\
    ending_of rest = ending_of fd.
Proof.
  destruct (read_full_loop_rest fd buf n 0 ltac:(lia)
              ltac:(rewrite Nat.sub_0_r; exact Hn))
    as (buf' & rest & E & D & G).
  rewrite Nat.sub_0_r in D. fold (read_full fd buf n) in E.
  pose proof (read_full_loop_spec fd buf n 0 ltac:(lia) Hbuf) as S.
  rewrite Nat.sub_0_r, (proj2 (Nat.leb_le _ _) Hn) in S.
  fold (read_full fd buf n) in S. destruct S as [rest' S].
  rewrite E in S. injection S as -> ->.
  exists rest'. split; [|split; assumption].
  rewrite E, store_whole; [reflexivity|].
  rewrite length_firstn. lia.
Qed.

Lemma read_full_conserves_stream_witness :
  length (zeroed 4) = 4%nat /\
  (4 <= length (delivered [Data (bytes_of "ab"); Err EINTR;
                           Data (bytes_of "cdefg"); Eof]))%nat /\
  exists rest : endpoint,
    read_full [Data (bytes_of "ab"); Err EINTR; Data (bytes_of "cdefg"); Eof]
      (zeroed 4) 4
    = ReadReturns (Count 4) (bytes_of "abcd") rest /\
    delivered rest = bytes_of "efg" /\
    ending_of rest = Closed.
Proof.
  split; [reflexivity|].
  split; [simpl; lia|].
  apply (read_full_conserves_stream
           [Data (bytes_of "ab"); Err EINTR; Data (bytes_of "cdefg"); Eof]
           (zeroed 4) 4).
  - reflexivity.
  - simpl. lia.
Defined.

Lemma read_full_record (fd : endpoint) (buf rec tail : list byte) (n : nat) :
  length buf = n -> length rec = n -> delivered fd = rec ++ tail ->
  exists rest : endpoint,
    read_full fd buf n = ReadReturns (Count n) rec rest /\
    delivered rest = tail /\
    ending_of rest = ending_of fd.
Proof.
  intros Hbuf Hrec Hd.
  assert (Hn : (n <= length (delivered fd))%nat)
    by (rewrite Hd, length_app; lia).
  destruct (read_full_loop_rest fd buf n 0 ltac:(lia)
              ltac:(rewrite Nat.sub_0_r; exact Hn))
    as (buf' & rest & E & D & G).
  rewrite Nat.sub_0_r in D. fold (read_full fd buf n) in E.
  pose proof (read_full_loop_spec fd buf n 0 ltac:(lia) Hbuf) as S.
  rewrite Nat.sub_0_r, (proj2 (Nat.leb_le _ _) Hn) in S.
  fold (read_full fd buf n) in S. destruct S as [rest' S].
  rewrite E in S. injection S as -> ->.
  exists rest'. split; [|split].
  - rewrite E, store_whole by (rewrite length_firstn; lia).
    rewrite Hd, firstn_app_exact by exact Hrec. reflexivity.
  - rewrite D, Hd. rewrite <- (Nat.add_0_r n).
    rewrite skipn_app_exact by exact Hrec. reflexivity.
  - exact G.
Qed.

(* ===================================================================== *)
(** ** More on the dispatch loop                                          *)
(* ===================================================================== *)

(** X3.  Whatever way the bytes of a sequence of well-formed requests are
    cut into chunks on the request FIFO, and whatever interruptions fall in
    between, the server (with [fork] succeeding) hands each request to a
    worker of its own, in the order of arrival and unchanged, and goes on
    reading where the last request ended. *)
Theorem server_loop_reassembles (bo : byte_order) (cpid : Z)
  (junk tail : list byte) (rqs : list request_msg_t) (fd : endpoint)
  (Hjunk : length junk = FIXED_REQ_LEN)
  (Hall : Forall valid_request rqs)
  (Hfd : delivered fd = flat_map (encode_request bo) rqs ++ tail) :
  exists rest : endpoint,
    server_loop bo
      (map (fun _ => {| ie_sigint := false; ie_rq := junk; ie_reopen := None;
                        ie_fork := ForkParent cpid; ie_rp := zero_response;
                        ie_open := Opened; ie_out := [] |}) rqs)
      {| stop_requested := false; req_fd := fd |}
    = (flat_map (fun rq => dispatched rq cpid) rqs,
       Continue {| stop_requested := false; req_fd := rest |}) /\
    delivered rest = tail /\
    ending_of rest = ending_of fd.
Proof.
  revert fd Hfd. induction Hall as [|rq rqs Hrq Hall IH]; intros fd Hfd.
  - exists fd. repeat split. exact Hfd.
  - cbn [flat_map] in Hfd. rewrite <- app_assoc in Hfd.
    destruct (read_full_record fd junk (encode_request bo rq) _ FIXED_REQ_LEN
                Hjunk (encode_request_length bo rq (proj1 Hrq)
                         (proj2 (proj2 (proj2 (proj2 Hrq))))) Hfd)
      as (rest1 & R & D & G).
    destruct (IH rest1 D) as (rest & L & D' & G').
    exists rest. split; [|split; [exact D' | congruence]].
    cbn [map flat_map server_loop].
    set (env := {| ie_sigint := false; ie_rq := junk; ie_reopen := None;
                   ie_fork := ForkParent cpid; ie_rp := zero_response;
                   ie_open := Opened; ie_out := [] |}) in *.
    assert (Hit : server_iteration bo
                    {| stop_requested := false; req_fd := fd |} env
            = {| it_trace := dispatched rq cpid;
                 it_ctl := Continue {| stop_requested := false;
                                       req_fd := rest1 |} |}).
    { unfold server_iteration. cbn [stop_requested req_fd ie_rq env].
      rewrite R. change FIXED_REQ_LEN with 152%nat. cbn iota.
      rewrite Nat.ltb_irrefl, decode_encode_request by exact Hrq.
      reflexivity. }
    rewrite Hit. cbn [it_ctl it_trace]. rewrite L. reflexivity.
Qed.

Lemma server_loop_reassembles_witness :
  length (zeroed FIXED_REQ_LEN) = FIXED_REQ_LEN /\
  Forall valid_request [sample_request "add" 6 9; sample_request "div" 7 2] /\
  exists rest : endpoint,
    server_loop LittleEndian
      (map (fun _ => {| ie_sigint := false; ie_rq := zeroed FIXED_REQ_LEN;
                        ie_reopen := None; ie_fork := ForkParent 77;
                        ie_rp := zero_response; ie_open := Opened;
                        ie_out := [] |})
         [sample_request "add" 6 9; sample_request "div" 7 2])
      {| stop_requested := false;
         req_fd :=
           [Data (firstn 100 (encode_request LittleEndian
                                (sample_request "add" 6 9)));
            Err EINTR;
            Data (skipn 100 (encode_request LittleEndian
                               (sample_request "add" 6 9))
                  ++ encode_request LittleEndian (sample_request "div" 7 2)
                  ++ bytes_of "xyz")] |}
    = (dispatched (sample_request "add" 6 9) 77
         ++ dispatched (sample_request "div" 7 2) 77 ++ [],
       Continue {| stop_requested := false; req_fd := rest |}) /\
    delivered rest = bytes_of "xyz" /\
    ending_of rest = Silent.
Proof.
  split; [reflexivity|].
  split; [repeat constructor; by_evaluation|].
  apply (server_loop_reassembles LittleEndian 77 (zeroed FIXED_REQ_LEN)
           (bytes_of "xyz")
           [sample_request "add" 6 9; sample_request "div" 7 2]).
  - reflexivity.
  - repeat constructor; by_evaluation.
  - reflexivity.
Defined.

(** X4.  When a [read] on the request FIFO fails other than by
    interruption before a whole record has arrived, the server leaves
    through [die("read request")]: the bytes that had arrived are dropped,
    nothing is dispatched, and the test for [EINTR] in the loop never
    applies. *)
Theorem server_read_error_is_fatal (bo : byte_order)
  (st : server_state) (env : iter_env) (e : Z)
  (Hrun : stop_requested st = false)
  (Hrq : length (ie_rq env) = FIXED_REQ_LEN)
  (Hshort : (length (delivered (req_fd st)) < FIXED_REQ_LEN)%nat)
  (Hend : ending_of (req_fd st) = Broken e) :
  server_iteration bo st env
  = {| it_trace := []; it_ctl := Die "read request" |}.
Proof.
  pose proof (read_full_loop_spec (req_fd st) (ie_rq env) FIXED_REQ_LEN 0
                ltac:(lia) Hrq) as S.
  rewrite Nat.sub_0_r, (proj2 (Nat.leb_gt _ _) Hshort), Hend in S.
  fold (read_full (req_fd st) (ie_rq env) FIXED_REQ_LEN) in S.
  destruct S as [He [rest S]].
  unfold server_iteration. rewrite Hrun, S.
  rewrite (proj2 (Z.eqb_neq _ _) He). reflexivity.
Qed.

Lemma server_read_error_is_fatal_witness :
  server_iteration LittleEndian
    {| stop_requested := false;
       req_fd := [Data (bytes_of "add"); Err EINTR; Err 5;
                  Data (encode_request LittleEndian
                          (sample_request "add" 6 9))] |}
    sample_env
  = {| it_trace := []; it_ctl := Die "read request" |}.
Proof.
  apply (server_read_error_is_fatal LittleEndian _ sample_env 5).
  - reflexivity.
  - reflexivity.
  - vm_compute. lia.
  - reflexivity.
Defined.

(** X5.  When the request FIFO is at its end with no byte of a record read
    (every writer has closed), the server closes and re-opens it and
    dispatches nothing: it goes on with the re-opened FIFO, or leaves
    through [die("reopen")] when the re-opening fails. *)
Theorem server_reopens_at_end_of_stream (bo : byte_order)
  (st : server_state) (env : iter_env)
  (Hrun : stop_requested st = false)
  (Hrq : length (ie_rq env) = FIXED_REQ_LEN)
  (Hnone : delivered (req_fd st) = [])
  (Hend : ending_of (req_fd st) = Closed) :
  server_iteration bo st env
  = match ie_reopen env with
    | Some fd' =>
        {| it_trace := [EvReopen true];
           it_ctl := Continue {| stop_requested := ie_sigint env;
                                 req_fd := fd' |} |}
    | None => {| it_trace := [EvReopen false]; it_ctl := Die "reopen" |}
    end.
Proof.
  pose proof (read_full_loop_spec (req_fd st) (ie_rq env) FIXED_REQ_LEN 0
                ltac:(lia) Hrq) as S.
  rewrite Nat.sub_0_r, Hnone, Hend in S. cbn [length Nat.leb] in S.
  change (FIXED_REQ_LEN <=? 0)%nat with false in S.
  fold (read_full (req_fd st) (ie_rq env) FIXED_REQ_LEN) in S.
  destruct S as [rest S].
  unfold server_iteration. rewrite Hrun, S. cbn [Nat.add].
  destruct (ie_reopen env); reflexivity.
Qed.

Lemma server_reopens_at_end_of_stream_witness :
  server_iteration LittleEndian
    {| stop_requested := false;
       req_fd := [Err EINTR; Eof; Data (bytes_of "late")] |}
    sample_env
  = {| it_trace := [EvReopen false]; it_ctl := Die "reopen" |}.
Proof.
  apply (server_reopens_at_end_of_stream LittleEndian
           {| stop_requested := false;
              req_fd := [Err EINTR; Eof; Data (bytes_of "late")] |}
           sample_env); reflexivity.
Defined.

Lemma continue_keeps_stop_flag (bo : byte_order)
  (st st' : server_state) (env : iter_env) :
  it_ctl (server_iteration bo st env) = Continue st' ->
  stop_requested st' = ie_sigint env.
Proof.
  unfold server_iteration, dispatch.
  repeat match goal with
         | |- context [if ?b then _ else _] => destruct b
         | |- context [match ?x with _ => _ end] => destruct x
         end;
    cbn [it_ctl]; intros H; try discriminate H;
    injection H as <-; reflexivity.
Qed.

(** X6.  The stop flag is looked at once per iteration, before the read:
    when it is set the loop is left without reading anything; and when a
    stop signal is handled during an iteration that would go on, that
    iteration is the last one, whatever is waiting on the request FIFO. *)
Theorem stop_request_ends_loop (bo : byte_order)
  (st st' : server_state) (env env2 : iter_env) (envs : list iter_env)
  (Hgo : it_ctl (server_iteration bo st env) = Continue st')
  (Hsig : ie_sigint env = true) :
  server_loop bo (env2 :: envs) st' = ([], Break) /\
  server_loop bo (env :: env2 :: envs) st
  = (it_trace (server_iteration bo st env), Break).
Proof.
  assert (Hstop : stop_requested st' = true)
    by (rewrite (continue_keeps_stop_flag bo st st' env Hgo); exact Hsig).
  assert (H2 : server_loop bo (env2 :: envs) st' = ([], Break)).
  { cbn [server_loop]. unfold server_iteration. rewrite Hstop. reflexivity. }
  split; [exact H2|].
  change (server_loop bo (env :: env2 :: envs) st)
    with (match it_ctl (server_iteration bo st env) with
          | Continue st0 =>
              let (t, c) := server_loop bo (env2 :: envs) st0 in
              (it_trace (server_iteration bo st env) ++ t, c)
          | c => (it_trace (server_iteration bo st env), c)
          end).
  rewrite Hgo, H2, app_nil_r. reflexivity.
Qed.

Lemma stop_request_ends_loop_witness :
  server_loop LittleEndian
    [{| ie_sigint := true; ie_rq := zeroed FIXED_REQ_LEN; ie_reopen := None;
        ie_fork := ForkParent 9; ie_rp := zero_response; ie_open := Opened;
        ie_out := [] |}; sample_env; sample_env]
    {| stop_requested := false;
       req_fd := [Data (encode_request LittleEndian (sample_request "add" 6 9));
                  Data (encode_request LittleEndian
                          (sample_request "mul" 6 9))] |}
  = (dispatched (sample_request "add" 6 9) 9, Break).
Proof.
  refine (proj2 (stop_request_ends_loop LittleEndian _
                   {| stop_requested := true;
                      req_fd := [Data (encode_request LittleEndian
                                         (sample_request "mul" 6 9))] |}
                   _ sample_env [sample_env] _ _)).
  - reflexivity.
  - reflexivity.
Defined.

(* ===================================================================== *)
(** ** More on compute                                                    *)
(* ===================================================================== *)

(** X7.  On a well-formed request [compute] fails to return in one case
    only: a tag starting with "div" with the operands [INT64_MIN] and
    [-1]. *)
Theorem compute_fails_only_on_overflow
  (rq : request_msg_t) (rp : response_msg_t)
  (Hrq : valid_request rq) :
  compute rq rp = None <->
  firstn 3 (operation rq) = bytes_of "div" /\
  operand1 rq = int64_min /\ operand2 rq = -1.
Proof.
  destruct Hrq as (Ho & _).
  assert (Hlen : (3 <= length (operation rq))%nat) by (rewrite Ho; cbv; lia).
  unfold compute. split.
  - destruct (memcmp (operation rq) (bytes_of "add") 3 =? 0); [discriminate|].
    destruct (memcmp (operation rq) (bytes_of "sub") 3 =? 0); [discriminate|].
    destruct (memcmp (operation rq) (bytes_of "mul") 3 =? 0); [discriminate|].
    destruct (memcmp (operation rq) (bytes_of "div") 3 =? 0) eqn:Ed;
      [|discriminate].
    apply (tag_test _ (bytes_of "div") Hlen eq_refl) in Ed.
    destruct (Z.eqb_spec (operand2 rq) 0) as [H0|H0]; [discriminate|].
    unfold div64. rewrite (proj2 (Z.eqb_neq _ _) H0). cbn [orb].
    destruct (Z.eqb_spec (operand1 rq) int64_min);
      destruct (Z.eqb_spec (operand2 rq) (-1)); cbn [andb];
      try discriminate.
    intros _. auto.
  - intros (Htag & Ha & Hb).
    rewrite (tag_test_false _ (bytes_of "add") Hlen eq_refl)
      by (rewrite Htag; discriminate).
    rewrite (tag_test_false _ (bytes_of "sub") Hlen eq_refl)
      by (rewrite Htag; discriminate).
    rewrite (tag_test_false _ (bytes_of "mul") Hlen eq_refl)
      by (rewrite Htag; discriminate).
    rewrite (proj2 (tag_test _ (bytes_of "div") Hlen eq_refl) Htag).
    rewrite Ha, Hb. reflexivity.
Qed.

Lemma compute_fails_only_on_overflow_witness :
  valid_request (sample_request "div" int64_min (-2)) /\
  compute (sample_request "div" int64_min (-2)) zero_response <> None.
Proof.
  split; [by_evaluation|].
  intros H.
  apply (compute_fails_only_on_overflow
           (sample_request "div" int64_min (-2)) zero_response) in H.
  - destruct H as (_ & _ & H). discriminate H.
  - by_evaluation.
Defined.

(** X8.  What a response looks like after [compute]: either [success] is
    1, the error message is empty and only the first byte of the error
    buffer was touched; or [success] is 0, the [result] field is what it
    was before the call, and the message is "Divide by zero" (then
    [operand2] is 0) or "Invalid operation". *)
Theorem compute_outcome (rq : request_msg_t) (rp rp' : response_msg_t)
  (Hc : compute rq rp = Some rp') :
  (success rp' = 1 /\ c_string (error rp') = [] /\
   skipn 1 (error rp') = skipn 1 (error rp)) \/
  (success rp' = 0 /\ result rp' = result rp /\
   ((c_string (error rp') = bytes_of "Divide by zero" /\ operand2 rq = 0) \/
    c_string (error rp') = bytes_of "Invalid operation")).
Proof.
  assert (Hok : forall r,
            success (set_result (set_error (set_success rp 1)
                                   (store_first (error rp) x00)) r) = 1 /\
            c_string (error (set_result (set_error (set_success rp 1)
                                   (store_first (error rp) x00)) r)) = [] /\
            skipn 1 (error (set_result (set_error (set_success rp 1)
                                   (store_first (error rp) x00)) r))
            = skipn 1 (error rp)).
  { intros r. cbn [success error set_result set_error set_success].
    destruct (error rp); repeat split. }
  unfold compute in Hc.
  destruct (memcmp (operation rq) (bytes_of "add") 3 =? 0);
    [apply some_inj in Hc; subst rp'; left; apply Hok|].
  destruct (memcmp (operation rq) (bytes_of "sub") 3 =? 0);
    [apply some_inj in Hc; subst rp'; left; apply Hok|].
  destruct (memcmp (operation rq) (bytes_of "mul") 3 =? 0);
    [apply some_inj in Hc; subst rp'; left; apply Hok|].
  destruct (memcmp (operation rq) (bytes_of "div") 3 =? 0).
  - destruct (Z.eqb_spec (operand2 rq) 0) as [H0|H0].
    + apply some_inj in Hc; subst rp'. right.
      repeat split. left. split; [reflexivity | exact H0].
    + destruct (div64 (operand1 rq) (operand2 rq)); [|discriminate Hc].
      apply some_inj in Hc; subst rp'. left. apply Hok.
  - apply some_inj in Hc; subst rp'. right.
    repeat split. right. reflexivity.
Qed.

Lemma compute_outcome_witness :
  compute (sample_request "div" 7 0)
    {| result := 99; success := 5; error := bytes_of "junk" ++ zeroed 124 |}
  = Some {| result := 99; success := 0;
            error := bytes_of "Divide by zero" ++ zeroed 114 |} /\
  ((0 = 1 /\ c_string (bytes_of "Divide by zero" ++ zeroed 114) = [] /\
    skipn 1 (bytes_of "Divide by zero" ++ zeroed 114)
    = skipn 1 (bytes_of "junk" ++ zeroed 124)) \/
   (0 = 0 /\ 99 = 99 /\
    ((c_string (bytes_of "Divide by zero" ++ zeroed 114)
      = bytes_of "Divide by zero" /\ 0 = 0) \/
     c_string (bytes_of "Divide by zero" ++ zeroed 114)
     = bytes_of "Invalid operation"))).
Proof.
  split; [reflexivity|].
  apply (compute_outcome (sample_request "div" 7 0)
           {| result := 99; success := 5;
              error := bytes_of "junk" ++ zeroed 124 |}
           {| result := 99; success := 0;
              error := bytes_of "Divide by zero" ++ zeroed 114 |}).
  reflexivity.
Defined.

(** X9.  What the client is shown does not depend on what the response
    held before [compute]: from two different prior responses, [compute]
    returns or fails alike, and the two responses agree on [success], on
    the error message and, when [success] is 1, on [result].  So the reply
    the server sends itself when [fork] fails, from a response it never
    initialised, reads like the worker's. *)
Theorem compute_ignores_prior_response
  (rq : request_msg_t) (rp1 rp2 rp1' : response_msg_t)
  (Hc : compute rq rp1 = Some rp1') :
  exists rp2' : response_msg_t,
    compute rq rp2 = Some rp2' /\
    success rp2' = success rp1' /\
    c_string (error rp2') = c_string (error rp1') /\
    (success rp1' = 1 -> result rp2' = result rp1').
Proof.
  assert (He : forall rp, c_string (store_first (error rp) x00) = [])
    by (intros rp; destruct (error rp); reflexivity).
  unfold compute in *.
  destruct (memcmp (operation rq) (bytes_of "add") 3 =? 0);
    [apply some_inj in Hc; subst rp1'; eexists; split; [reflexivity|];
     cbn [success result error set_result set_error set_success];
     rewrite !He; repeat split|].
  destruct (memcmp (operation rq) (bytes_of "sub") 3 =? 0);
    [apply some_inj in Hc; subst rp1'; eexists; split; [reflexivity|];
     cbn [success result error set_result set_error set_success];
     rewrite !He; repeat split|].
  destruct (memcmp (operation rq) (bytes_of "mul") 3 =? 0);
    [apply some_inj in Hc; subst rp1'; eexists; split; [reflexivity|];
     cbn [success result error set_result set_error set_success];
     rewrite !He; repeat split|].
  destruct (memcmp (operation rq) (bytes_of "div") 3 =? 0).
  - destruct (operand2 rq =? 0).
    + apply some_inj in Hc; subst rp1'. eexists; split; [reflexivity|].
      cbn [success result error set_result set_error set_success].
      repeat split. intros H; discriminate H.
    + destruct (div64 (operand1 rq) (operand2 rq)); [|discriminate Hc].
      apply some_inj in Hc; subst rp1'. eexists; split; [reflexivity|].
      cbn [success result error set_result set_error set_success].
      rewrite !He. repeat split.
  - apply some_inj in Hc; subst rp1'. eexists; split; [reflexivity|].
    cbn [success result error set_result set_error set_success].
    repeat split. intros H; discriminate H.
Qed.

Lemma compute_ignores_prior_response_witness :
  exists rp2' : response_msg_t,
    compute (sample_request "sub" 6 9)
      {| result := 99; success := 5; error := bytes_of "junk" ++ zeroed 124 |}
    = Some rp2' /\
    success rp2' = 1 /\
    c_string (error rp2') = [] /\
    (1 = 1 -> result rp2' = -3).
Proof.
  apply (compute_ignores_prior_response (sample_request "sub" 6 9)
           zero_response
           {| result := 99; success := 5;
              error := bytes_of "junk" ++ zeroed 124 |}
           {| result := -3; success := 1; error := zeroed ERROR_MAX |}).
  reflexivity.
Defined.

(* ===================================================================== *)
(** ** More on the wire codec                                             *)
(* ===================================================================== *)

Lemma le_bytes_shift (n : nat) (x : Z) :
  le_bytes n (x - 256 ^ Z.of_nat n) = le_bytes n x.
Proof.
  revert x. induction n as [|n IH]; intros x; [reflexivity|].
  cbn [le_bytes]. rewrite Nat2Z.inj_succ, Z.pow_succ_r by lia.
  set (M := 256 ^ Z.of_nat n).
  replace (x - 256 * M) with (x + (- M) * 256) by ring.
  rewrite Z.mod_add, Z.div_add by lia.
  replace (x / 256 + - M) with (x / 256 - M) by ring.
  unfold M. rewrite IH. reflexivity.
Qed.

Lemma le_bytes_le_value (bs : list byte) :
  le_bytes (length bs) (le_value bs) = bs.
Proof.
  induction bs as [|b bs IH]; [reflexivity|].
  cbn [length le_bytes le_value].
  pose proof (byte_to_Z_range b) as Hb.
  replace (byte_to_Z b + 256 * le_value bs)
    with (byte_to_Z b + le_value bs * 256) by ring.
  rewrite Z.mod_add, Z.div_add by lia.
  rewrite Z.mod_small, Z.div_small by lia.
  rewrite byte_of_to_Z. cbn [Z.add]. rewrite IH. reflexivity.
Qed.

(** The bytes of an integer field are the representation of its value. *)
Lemma int_bytes_int_of_bytes (bo : byte_order) (bs : list byte) :
  int_bytes bo (length bs) (int_of_bytes bo bs) = bs.
Proof.
  unfold int_bytes, int_of_bytes.
  pose proof (in_order_length bo bs) as L.
  pose proof (in_order_involutive bo bs) as I.
  set (l := in_order bo bs) in *. rewrite <- L.
  assert (E : 2 ^ (8 * Z.of_nat (length l)) = 256 ^ Z.of_nat (length l)).
  { change 256 with (2 ^ 8). rewrite <- Z.pow_mul_r by lia. reflexivity. }
  destruct (le_value l <? _).
  - rewrite le_bytes_le_value. exact I.
  - rewrite E, le_bytes_shift, le_bytes_le_value. exact I.
Qed.

Lemma decode_response_valid (bo : byte_order) (bs : list byte) :
  length bs = FIXED_RESP_LEN -> valid_response (decode_response bo bs).
Proof.
  intros Hl. unfold valid_response, decode_response.
  cbn [result success error].
  assert (L8 : length (firstn 8 bs) = 8%nat)
    by (rewrite length_firstn, Hl; reflexivity).
  assert (L4 : length (firstn 4 (skipn 8 bs)) = 4%nat)
    by (rewrite length_firstn, length_skipn, Hl; reflexivity).
  pose proof (int_of_bytes_range bo _ ltac:(rewrite L8; lia)) as R1.
  pose proof (int_of_bytes_range bo _ ltac:(rewrite L4; lia)) as R2.
  rewrite L8 in R1. rewrite L4 in R2.
  change (8 * Z.of_nat 8 - 1) with 63 in R1.
  change (8 * Z.of_nat 4 - 1) with 31 in R2.
  unfold in_int64, in_int32, int64_min, int64_max, int32_min, int32_max.
  repeat split; try lia.
  rewrite length_firstn, length_skipn, Hl. reflexivity.
Qed.

Lemma encode_decode_request (bo : byte_order) (bs : list byte) :
  length bs = FIXED_REQ_LEN ->
  encode_request bo (decode_request bo bs) = bs.
Proof.
  intros Hl. unfold encode_request, decode_request.
  cbn [operation operand1 operand2 client_pid resp_fifo].
  assert (L8a : length (firstn 8 (skipn 4 bs)) = 8%nat)
    by (rewrite length_firstn, length_skipn, Hl; reflexivity).
  assert (L8b : length (firstn 8 (skipn 12 bs)) = 8%nat)
    by (rewrite length_firstn, length_skipn, Hl; reflexivity).
  assert (L4 : length (firstn 4 (skipn 20 bs)) = 4%nat)
    by (rewrite length_firstn, length_skipn, Hl; reflexivity).
  pose proof (int_bytes_int_of_bytes bo (firstn 8 (skipn 4 bs))) as E1.
  pose proof (int_bytes_int_of_bytes bo (firstn 8 (skipn 12 bs))) as E2.
  pose proof (int_bytes_int_of_bytes bo (firstn 4 (skipn 20 bs))) as E3.
  rewrite L8a in E1. rewrite L8b in E2. rewrite L4 in E3.
  rewrite E1, E2, E3.
  unfold OP_MAX, RESP_NAME_MAX.
  rewrite !app_assoc.
  rewrite (firstn_extend bs 4 8). change (4 + 8)%nat with 12%nat.
  rewrite (firstn_extend bs 12 8). change (12 + 8)%nat with 20%nat.
  rewrite (firstn_extend bs 20 4). change (20 + 4)%nat with 24%nat.
  rewrite (firstn_extend bs 24 128).
  apply firstn_all2. rewrite Hl. cbv. lia.
Qed.

Lemma encode_decode_response (bo : byte_order) (bs : list byte) :
  length bs = FIXED_RESP_LEN ->
  encode_response bo (decode_response bo bs) = bs.
Proof.
  intros Hl. unfold encode_response, decode_response.
  cbn [result success error].
  assert (L8 : length (firstn 8 bs) = 8%nat)
    by (rewrite length_firstn, Hl; reflexivity).
  assert (L4 : length (firstn 4 (skipn 8 bs)) = 4%nat)
    by (rewrite length_firstn, length_skipn, Hl; reflexivity).
  pose proof (int_bytes_int_of_bytes bo (firstn 8 bs)) as E1.
  pose proof (int_bytes_int_of_bytes bo (firstn 4 (skipn 8 bs))) as E2.
  rewrite L8 in E1. rewrite L4 in E2.
  rewrite E1, E2. unfold ERROR_MAX.
  rewrite !app_assoc.
  rewrite (firstn_extend bs 8 4). change (8 + 4)%nat with 12%nat.
  rewrite (firstn_extend bs 12 128).
  apply firstn_all2. rewrite Hl. cbv. lia.
Qed.

(** X10.  Decoding never fails and loses nothing: any [FIXED_REQ_LEN]
    bytes are the encoding of exactly the request they decode to, which is
    a value of [request_msg_t]; likewise any [FIXED_RESP_LEN] bytes and the
    response they decode to. *)
Theorem decode_is_total_and_exact (bo : byte_order) (bq bp : list byte)
  (Hq : length bq = FIXED_REQ_LEN) (Hp : length bp = FIXED_RESP_LEN) :
  (valid_request (decode_request bo bq) /\
   encode_request bo (decode_request bo bq) = bq) /\
  (valid_response (decode_response bo bp) /\
   encode_response bo (decode_response bo bp) = bp).
Proof.
  split; split.
  - apply decode_request_valid, Hq.
  - apply encode_decode_request, Hq.
  - apply decode_response_valid, Hp.
  - apply encode_decode_response, Hp.
Qed.

Lemma decode_is_total_and_exact_witness :
  (valid_request (decode_request BigEndian (repeat xff FIXED_REQ_LEN)) /\
   encode_request BigEndian
     (decode_request BigEndian (repeat xff FIXED_REQ_LEN))
   = repeat xff FIXED_REQ_LEN) /\
  (valid_response (decode_response BigEndian (repeat xff FIXED_RESP_LEN)) /\
   encode_response BigEndian
     (decode_response BigEndian (repeat xff FIXED_RESP_LEN))
   = repeat xff FIXED_RESP_LEN).
Proof.
  apply (decode_is_total_and_exact BigEndian (repeat xff FIXED_REQ_LEN)
           (repeat xff FIXED_RESP_LEN)); reflexivity.
Defined.

(* ===================================================================== *)
(** ** The client's input                                                 *)
(* ===================================================================== *)

Lemma strlen_cut (s r : list byte) (i : nat) :
  (i <= strlen s)%nat -> strlen (firstn i s ++ x00 :: r) = i.
Proof.
  revert s. induction i as [|i IH]; intros s Hi; [reflexivity|].
  destruct s as [|b s]; [simpl in Hi; lia|].
  cbn [strlen] in Hi. cbn [firstn app strlen].
  destruct (Byte.eqb b x00); [lia|]. rewrite IH by lia. reflexivity.
Qed.

Lemma firstn_store_at (s : list byte) (i k : nat) (c : byte) :
  (k <= i)%nat -> (i <= length s)%nat ->
  firstn k (store_at s i c) = firstn k s.
Proof.
  intros Hk Hi. unfold store_at.
  rewrite firstn_app, length_firstn.
  replace (k - Nat.min i (length s))%nat with O by lia.
  cbn [firstn]. rewrite app_nil_r, firstn_firstn.
  replace (Nat.min k i) with k by lia. reflexivity.
Qed.

Lemma store_at_length (s : list byte) (i : nat) (c : byte) :
  (i < length s)%nat -> length (store_at s i c) = length s.
Proof.
  intros Hi. unfold store_at.
  rewrite length_app, length_firstn. cbn [length]. rewrite length_skipn. lia.
Qed.

Lemma firstn_succ_nth (s : list byte) (i : nat) :
  (i < length s)%nat -> firstn (S i) s = firstn i s ++ [nth i s x00].
Proof.
  revert s. induction i as [|i IH]; intros s Hi.
  - destruct s; [simpl in Hi; lia | reflexivity].
  - destruct s as [|b s]; [simpl in Hi; lia|].
    simpl in Hi. cbn [firstn nth app] in *. rewrite IH by lia. reflexivity.
Qed.

(** The loop cuts the string at some [k]: what goes is made of line ends
    only, and what stays does not end in one. *)
Lemma trim_loop_spec (n : nat) :
  forall s : list byte,
    strlen s = n ->
    exists k : nat,
      (k <= n)%nat /\
      c_string (trim_loop s n) = firstn k s /\
      Forall (fun b => is_eol b = true) (skipn k (firstn n s)) /\
      (k = O \/ is_eol (last (firstn k s) x00) = false) /\
      length (trim_loop s n) = length s.
Proof.
  induction n as [|n IH]; intros s Hs.
  - exists O. cbn [trim_loop]. unfold c_string. rewrite Hs.
    repeat split; auto.
  - pose proof (strlen_le s) as Hl. cbn [trim_loop].
    destruct (is_eol (nth n s x00)) eqn:E.
    + assert (Hs' : strlen (store_at s n x00) = n)
        by (apply strlen_cut; lia).
      destruct (IH _ Hs') as (k & Hk & Hc & Hf & Hlast & Hlen).
      exists k. split; [lia|].
      rewrite firstn_store_at in Hc by lia.
      rewrite (firstn_store_at s n n) in Hf by lia.
      rewrite firstn_store_at in Hlast by lia.
      split; [exact Hc|]. split; [|split; [exact Hlast|]].
      * rewrite firstn_succ_nth by lia.
        rewrite skipn_app, length_firstn.
        replace (k - Nat.min n (length s))%nat with O by lia.
        cbn [skipn]. apply Forall_app. split; [exact Hf|].
        constructor; [exact E | constructor].
      * rewrite Hlen. apply store_at_length. lia.
    + exists (S n). split; [lia|]. unfold c_string. rewrite Hs.
      split; [reflexivity|]. split; [|split; [|reflexivity]].
      * rewrite skipn_all2 by (rewrite length_firstn; lia). constructor.
      * right. rewrite firstn_succ_nth by lia.
        rewrite last_last. exact E.
Qed.

(** X11.  [trim_newline] removes the line ends at the end of the string
    and nothing else: the string it leaves is the old one without a tail
    made of newline and carriage-return bytes only, it is empty or ends in
    a byte that is neither, and the buffer keeps its length. *)
Theorem trim_newline_strips_line_ends (s : list byte) :
  exists tail : list byte,
    c_string s = c_string (trim_newline s) ++ tail /\
    Forall (fun b => is_eol b = true) tail /\
    (c_string (trim_newline s) = [] \/
     is_eol (last (c_string (trim_newline s)) x00) = false) /\
    length (trim_newline s) = length s.
Proof.
  destruct (trim_loop_spec (strlen s) s eq_refl)
    as (k & Hk & Hc & Hf & Hlast & Hlen).
  fold (trim_newline s) in Hc, Hlen. fold (c_string s) in Hf.
  exists (skipn k (c_string s)). rewrite Hc.
  split; [|split; [exact Hf|split; [|exact Hlen]]].
  - unfold c_string.
    rewrite <- (firstn_skipn k (firstn (strlen s) s)) at 1.
    rewrite firstn_firstn. replace (Nat.min k (strlen s)) with k by lia.
    reflexivity.
  - destruct Hlast as [->|Hlast]; [left; reflexivity | right; exact Hlast].
Qed.

Example trim_newline_crlf :
  c_string (trim_newline (bytes_of "exit" ++ [x0d; x0a; x00; x41]))
  = bytes_of "exit" /\
  trim_newline (bytes_of "exit" ++ [x0d; x0a; x00; x41])
  = bytes_of "exit" ++ [x00; x00; x00; x41] /\
  trim_newline [x0a; x0a] = [x00; x00] /\
  trim_newline (bytes_of "a b") = bytes_of "a b".
Proof. repeat split. Qed.

Lemma strcmp_zero_iff (a b : list byte) :
  strcmp a b = 0 <-> c_string a = c_string b.
Proof.
  revert b. induction a as [|x a IH]; intros b.
  - destruct b as [|y b]; cbn [strcmp]; [tauto|].
    unfold c_string. cbn [strlen].
    destruct (Byte.eqb y x00) eqn:E.
    + apply Byte.byte_dec_bl in E. subst y. simpl. tauto.
    + apply Byte.eqb_false in E. split.
      * intros H. exfalso. apply E, byte_to_Z_inj.
        change (byte_to_Z x00) with 0. lia.
      * intros H. discriminate H.
  - destruct b as [|y b]; cbn [strcmp].
    + unfold c_string. cbn [strlen].
      destruct (Byte.eqb x x00) eqn:E.
      * apply Byte.byte_dec_bl in E. subst x. simpl. tauto.
      * apply Byte.eqb_false in E. split.
        -- intros H. exfalso. apply E, byte_to_Z_inj.
        change (byte_to_Z x00) with 0. lia.
        -- intros H. discriminate H.
    + unfold c_string in *. cbn [strlen].
      destruct (Byte.eqb x y) eqn:Exy.
      * apply Byte.byte_dec_bl in Exy. subst y.
        destruct (Byte.eqb x x00); [simpl; tauto|].
        cbn [firstn]. rewrite IH. split; [intros ->; reflexivity|].
        intros H. injection H as H. exact H.
      * apply Byte.eqb_false in Exy.
        assert (Hd : byte_to_Z x - byte_to_Z y <> 0)
          by (intros H; apply Exy, byte_to_Z_inj; lia).
        split; [intros H; contradiction|]. intros H. exfalso.
        destruct (Byte.eqb x x00) eqn:Ex; destruct (Byte.eqb y x00) eqn:Ey;
          cbn [firstn] in H; try discriminate H.
        -- apply Byte.byte_dec_bl in Ex, Ey. congruence.
        -- injection H as H _. contradiction.
Qed.

(** X12.  [is_valid_op] accepts a buffer exactly when the string in it is
    "add", "sub", "mul" or "div": nothing shorter, longer or in another
    case passes. *)
Theorem is_valid_op_iff (op : list byte) :
  is_valid_op op = true <->
  In (c_string op)
     [bytes_of "add"; bytes_of "sub"; bytes_of "mul"; bytes_of "div"].
Proof.
  unfold is_valid_op. rewrite !orb_true_iff, !Z.eqb_eq, !strcmp_zero_iff.
  change (c_string (bytes_of "add")) with (bytes_of "add").
  change (c_string (bytes_of "sub")) with (bytes_of "sub").
  change (c_string (bytes_of "mul")) with (bytes_of "mul").
  change (c_string (bytes_of "div")) with (bytes_of "div").
  cbn [In]. split.
  - intros [[[H|H]|H]|H]; rewrite H; auto.
  - intros [H|[H|[H|[H|[]]]]]; rewrite <- H; auto.
Qed.

Lemma is_valid_op_cases (op : list byte) :
  is_valid_op op = true ->
  c_string op = bytes_of "add" \/ c_string op = bytes_of "sub" \/
  c_string op = bytes_of "mul" \/ c_string op = bytes_of "div".
Proof.
  unfold is_valid_op. rewrite !orb_true_iff, !Z.eqb_eq, !strcmp_zero_iff.
  intros [[[H|H]|H]|H]; rewrite H; auto.
Qed.

Lemma c_string_length (s : list byte) : length (c_string s) = strlen s.
Proof.
  unfold c_string. rewrite length_firstn. pose proof (strlen_le s). lia.
Qed.

(** The tag the client sends for a three-letter name. *)
Lemma build_request_tag (line : list byte) (a b pid : Z) (path : list byte) :
  strlen line = 3%nat ->
  operation (build_request line a b pid path) = c_string line ++ [x00] /\
  firstn 3 (operation (build_request line a b pid path)) = c_string line.
Proof.
  intros H3. rewrite build_request_operation. unfold c_string. rewrite H3.
  change (Nat.min OP_MAX 3) with 3%nat. change (OP_MAX - 3)%nat with 1%nat.
  split; [reflexivity|].
  apply firstn_app_exact. rewrite length_firstn.
  pose proof (strlen_le line). lia.
Qed.

(** X13.  The client's check and the server's agree: for a line that
    [is_valid_op] accepts, the tag of the request is the name followed by
    a NUL, and whenever [compute] answers that request it answers with
    [success = 1], or, for "div" with a zero divisor, with "Divide by
    zero"; it never answers "Invalid operation". *)
Theorem valid_op_is_served (line : list byte) (a b pid : Z)
  (path : list byte) (rp rp' : response_msg_t)
  (Hvalid : is_valid_op line = true)
  (Hc : compute (build_request line a b pid path) rp = Some rp') :
  operation (build_request line a b pid path) = c_string line ++ [x00] /\
  (success rp' = 1 \/
   (c_string line = bytes_of "div" /\ b = 0 /\ success rp' = 0 /\
    c_string (error rp') = bytes_of "Divide by zero")).
Proof.
  assert (H3 : strlen line = 3%nat).
  { rewrite <- c_string_length.
    destruct (is_valid_op_cases line Hvalid) as [H|[H|[H|H]]];
      rewrite H; reflexivity. }
  destruct (build_request_tag line a b pid path H3) as [Htag Hf].
  split; [exact Htag|].
  assert (Hlen : (3 <= length (operation (build_request line a b pid path)))%nat)
    by (rewrite Htag, length_app, c_string_length, H3; simpl; lia).
  unfold compute in Hc.
  change (operand1 (build_request line a b pid path)) with a in Hc.
  change (operand2 (build_request line a b pid path)) with b in Hc.
  destruct (is_valid_op_cases line Hvalid) as [H|[H|[H|H]]].
  - rewrite (proj2 (tag_test _ (bytes_of "add") Hlen eq_refl)) in Hc
      by congruence.
    apply some_inj in Hc. subst rp'. left. reflexivity.
  - rewrite (tag_test_false _ (bytes_of "add") Hlen eq_refl) in Hc
      by (rewrite Hf, H; discriminate).
    rewrite (proj2 (tag_test _ (bytes_of "sub") Hlen eq_refl)) in Hc
      by congruence.
    apply some_inj in Hc. subst rp'. left. reflexivity.
  - rewrite (tag_test_false _ (bytes_of "add") Hlen eq_refl) in Hc
      by (rewrite Hf, H; discriminate).
    rewrite (tag_test_false _ (bytes_of "sub") Hlen eq_refl) in Hc
      by (rewrite Hf, H; discriminate).
    rewrite (proj2 (tag_test _ (bytes_of "mul") Hlen eq_refl)) in Hc
      by congruence.
    apply some_inj in Hc. subst rp'. left. reflexivity.
  - rewrite (tag_test_false _ (bytes_of "add") Hlen eq_refl) in Hc
      by (rewrite Hf, H; discriminate).
    rewrite (tag_test_false _ (bytes_of "sub") Hlen eq_refl) in Hc
      by (rewrite Hf, H; discriminate).
    rewrite (tag_test_false _ (bytes_of "mul") Hlen eq_refl) in Hc
      by (rewrite Hf, H; discriminate).
    rewrite (proj2 (tag_test _ (bytes_of "div") Hlen eq_refl)) in Hc
      by congruence.
    destruct (Z.eqb_spec b 0) as [H0|H0].
    + apply some_inj in Hc. subst rp'. right. repeat split; assumption.
    + destruct (div64 a b); [|discriminate Hc].
      apply some_inj in Hc. subst rp'. left. reflexivity.
Qed.

Lemma valid_op_is_served_witness :
  is_valid_op (bytes_of "div" ++ [x00; x41]) = true /\
  operation (build_request (bytes_of "div" ++ [x00; x41]) 7 0 42 sample_path)
  = c_string (bytes_of "div" ++ [x00; x41]) ++ [x00] /\
  (0 = 1 \/
   (c_string (bytes_of "div" ++ [x00; x41]) = bytes_of "div" /\ 0 = 0 /\
    0 = 0 /\
    c_string (bytes_of "Divide by zero" ++ zeroed 114)
    = bytes_of "Divide by zero")).
Proof.
  split; [reflexivity|].
  apply (valid_op_is_served (bytes_of "div" ++ [x00; x41]) 7 0 42 sample_path
           zero_response
           {| result := 0; success := 0;
              error := bytes_of "Divide by zero" ++ zeroed 114 |});
    reflexivity.
Defined.

(* ===================================================================== *)
(** ** The client's response FIFO                                         *)
(* ===================================================================== *)

Lemma digit_value (d : Z) : 0 <= d < 10 -> byte_to_Z (digit d) = 48 + d.
Proof.
  intros Hd. unfold digit. rewrite byte_to_of_Z. apply Z.mod_small. lia.
Qed.

Lemma digit_mod_not_nul (n : Z) : digit (n mod 10) <> x00.
Proof.
  intros H. apply (f_equal byte_to_Z) in H.
  rewrite digit_value in H by (apply Z.mod_pos_bound; lia).
  change (byte_to_Z x00) with 0 in H.
  pose proof (Z.mod_pos_bound n 10 ltac:(lia)). lia.
Qed.

Lemma utoa_loop_length (f : nat) :
  forall (n : Z) (acc : list byte),
    (length (utoa_loop f n acc) <= f + length acc)%nat /\
    ((0 < f)%nat -> (length acc < length (utoa_loop f n acc))%nat).
Proof.
  induction f as [|f IH]; intros n acc; [simpl; lia|].
  cbn [utoa_loop]. destruct (n <? 10); [simpl; lia|].
  destruct (IH (n / 10) (digit (n mod 10) :: acc)) as [H1 H2].
  cbn [length] in *. split; [lia|]. intros _.
  destruct f as [|f']; [simpl; lia|]. specialize (H2 ltac:(lia)). lia.
Qed.

Lemma utoa_loop_no_nul (f : nat) :
  forall (n : Z) (acc : list byte),
    Forall (fun b => b <> x00) acc ->
    Forall (fun b => b <> x00) (utoa_loop f n acc).
Proof.
  induction f as [|f IH]; intros n acc Hacc; [exact Hacc|].
  cbn [utoa_loop].
  assert (H : Forall (fun b => b <> x00) (digit (n mod 10) :: acc))
    by (constructor; [apply digit_mod_not_nul | exact Hacc]).
  destruct (n <? 10); [exact H | apply IH, H].
Qed.

(** Different numbers have different digits. *)
Lemma utoa_loop_inj (f : nat) :
  forall (n m : Z) (acc1 acc2 : list byte),
    0 <= n < 10 ^ Z.of_nat f -> 0 <= m < 10 ^ Z.of_nat f ->
    length acc1 = length acc2 ->
    utoa_loop f n acc1 = utoa_loop f m acc2 ->
    n = m /\ acc1 = acc2.
Proof.
  induction f as [|f IH]; intros n m acc1 acc2 Hn Hm Hl H.
  - simpl in Hn, Hm. cbn [utoa_loop] in H. split; [lia | exact H].
  - rewrite Nat2Z.inj_succ, Z.pow_succ_r in Hn, Hm by lia.
    cbn [utoa_loop] in H.
    assert (Hdig : forall x y, digit (x mod 10) = digit (y mod 10) ->
                               x mod 10 = y mod 10).
    { intros x y E. apply (f_equal byte_to_Z) in E.
      rewrite !digit_value in E by (apply Z.mod_pos_bound; lia). lia. }
    destruct (Z.ltb_spec n 10) as [Hn10|Hn10];
      destruct (Z.ltb_spec m 10) as [Hm10|Hm10].
    + injection H as Hd Ha. apply Hdig in Hd.
      rewrite !Z.mod_small in Hd by lia. auto.
    + exfalso. apply (f_equal (@length byte)) in H.
      destruct f as [|f'];
        [rewrite Z.pow_0_r in Hm; lia|].
      pose proof (proj2 (utoa_loop_length (S f') (m / 10)
                           (digit (m mod 10) :: acc2)) ltac:(lia)) as L.
      cbn [length] in *. lia.
    + exfalso. apply (f_equal (@length byte)) in H.
      destruct f as [|f'];
        [rewrite Z.pow_0_r in Hn; lia|].
      pose proof (proj2 (utoa_loop_length (S f') (n / 10)
                           (digit (n mod 10) :: acc1)) ltac:(lia)) as L.
      cbn [length] in *. lia.
    + assert (Hq : forall x, 10 <= x < 10 * 10 ^ Z.of_nat f ->
                             0 <= x / 10 < 10 ^ Z.of_nat f).
      { intros x Hx. split; [apply Z.div_pos; lia|].
        apply Z.div_lt_upper_bound; lia. }
      destruct (IH (n / 10) (m / 10)
                  (digit (n mod 10) :: acc1) (digit (m mod 10) :: acc2)
                  (Hq n ltac:(lia)) (Hq m ltac:(lia))
                  ltac:(cbn [length]; lia) H) as [Eq Ea].
      injection Ea as Hd Ha. apply Hdig in Hd.
      split; [|exact Ha].
      pose proof (Z.div_mod n 10 ltac:(lia)) as Dn.
      pose proof (Z.div_mod m 10 ltac:(lia)) as Dm.
      rewrite Eq, Hd in Dn. congruence.
Qed.

Lemma c_string_app_nul (l r : list byte) :
  Forall (fun b => b <> x00) l -> c_string (l ++ x00 :: r) = l.
Proof.
  intros H. unfold c_string.
  assert (E : strlen (l ++ x00 :: r) = length l).
  { induction H as [|b l Hb Hl IH]; [reflexivity|].
    cbn [app strlen length].
    destruct (Byte.eqb b x00) eqn:Eb;
      [apply Byte.byte_dec_bl in Eb; contradiction|].
    rewrite IH. reflexivity. }
  rewrite E. apply firstn_app_exact. reflexivity.
Qed.

Lemma strlen_app_nul (l r : list byte) :
  Forall (fun b => b <> x00) l -> strlen (l ++ x00 :: r) = length l.
Proof.
  intros H. rewrite <- c_string_length, c_string_app_nul by exact H.
  reflexivity.
Qed.

Lemma fifo_name_shape (pid : Z) :
  0 <= pid ->
  Forall (fun b => b <> x00) (fifo_name pid) /\
  (length (fifo_name pid) <= 31)%nat.
Proof.
  intros Hp. unfold fifo_name, itoa.
  rewrite (proj2 (Z.ltb_ge pid 0) Hp).
  pose proof (utoa_loop_no_nul 10 pid [] (Forall_nil _)) as Hd.
  pose proof (proj1 (utoa_loop_length 10 pid [])) as Hl.
  split.
  - apply Forall_app. split; [repeat constructor; discriminate|].
    apply Forall_app. split; [exact Hd|].
    repeat constructor; discriminate.
  - rewrite !length_app. simpl in *. lia.
Qed.

(** X14.  For a pid that is not negative: the text
    ["/tmp/arith_resp_<pid>.fifo"] fits the client's 128-byte array with
    its NUL, the request carries it whole in [resp_fifo], NUL-terminated,
    and two different pids give two different texts. *)
Theorem client_fifo_is_its_pid (junk line : list byte) (a b pid pid' : Z)
  (Hpid : 0 <= pid <= int32_max) (Hpid' : 0 <= pid' <= int32_max) :
  c_string (client_fifo junk pid) = fifo_name pid /\
  c_string (resp_fifo (build_request line a b pid (client_fifo junk pid)))
  = fifo_name pid /\
  (length (fifo_name pid) < RESP_NAME_MAX - 1)%nat /\
  (fifo_name pid = fifo_name pid' -> pid = pid').
Proof.
  destruct (fifo_name_shape pid ltac:(lia)) as [Hnn Hlen].
  assert (Hbuf : client_fifo junk pid
                 = fifo_name pid
                     ++ x00 :: skipn (S (length (fifo_name pid))) junk).
  { unfold client_fifo, snprintf, RESP_NAME_MAX.
    rewrite firstn_all2 by lia. reflexivity. }
  split; [rewrite Hbuf; apply c_string_app_nul, Hnn|].
  split; [|split].
  - rewrite build_request_resp_fifo, Hbuf.
    rewrite strlen_app_nul by exact Hnn.
    replace (Nat.min (RESP_NAME_MAX - 1) (length (fifo_name pid)))
      with (length (fifo_name pid)) by (unfold RESP_NAME_MAX; lia).
    rewrite firstn_app_exact by reflexivity.
    destruct (RESP_NAME_MAX - length (fifo_name pid))%nat as [|z] eqn:Ez;
      [unfold RESP_NAME_MAX in Ez; lia|].
    cbn [repeat]. apply c_string_app_nul, Hnn.
  - unfold RESP_NAME_MAX. lia.
  - unfold fifo_name, itoa.
    rewrite (proj2 (Z.ltb_ge pid 0)), (proj2 (Z.ltb_ge pid' 0)) by lia.
    intros H. apply app_inv_head, app_inv_tail in H.
    unfold int32_max in *.
    apply (utoa_loop_inj 10 pid pid' [] []); try reflexivity; try exact H.
    all: change (10 ^ Z.of_nat 10) with 10000000000; lia.
Qed.

Lemma client_fifo_is_its_pid_witness :
  0 <= 42 <= int32_max /\ 0 <= 2147483647 <= int32_max /\
  c_string (client_fifo (repeat xff 128) 42)
  = bytes_of "/tmp/arith_resp_42.fifo" /\
  c_string (resp_fifo (build_request (bytes_of "add") 6 9 42
                         (client_fifo (repeat xff 128) 42)))
  = bytes_of "/tmp/arith_resp_42.fifo" /\
  (length (fifo_name 42) < RESP_NAME_MAX - 1)%nat /\
  (fifo_name 42 = fifo_name 2147483647 -> 42 = 2147483647).
Proof.
  split; [vm_compute; split; discriminate|].
  split; [vm_compute; split; discriminate|].
  apply (client_fifo_is_its_pid (repeat xff 128) (bytes_of "add") 6 9
           42 2147483647); vm_compute; split; discriminate.
Defined.

Example fifo_name_of_largest_pid :
  fifo_name 2147483647 = bytes_of "/tmp/arith_resp_2147483647.fifo" /\
  fifo_name 0 = bytes_of "/tmp/arith_resp_0.fifo" /\
  itoa (-120) = bytes_of "-120".
Proof. repeat split. Qed.

(* ===================================================================== *)
(** ** The client's turn                                                  *)
(* ===================================================================== *)

Lemma build_request_lengths (line : list byte) (a b pid : Z)
  (path : list byte) :
  length (operation (build_request line a b pid path)) = OP_MAX /\
  length (resp_fifo (build_request line a b pid path)) = RESP_NAME_MAX.
Proof.
  pose proof (strlen_le line). pose proof (strlen_le path).
  rewrite build_request_operation, build_request_resp_fifo.
  rewrite !length_app, !repeat_length, !length_firstn.
  unfold OP_MAX, RESP_NAME_MAX. lia.
Qed.

Lemma valid_op_is_not_exit (line : list byte) :
  is_valid_op line = true -> (strcmp line (bytes_of "exit") =? 0) = false.
Proof.
  intros Hv. apply Z.eqb_neq. rewrite strcmp_zero_iff.
  change (c_string (bytes_of "exit")) with (bytes_of "exit").
  destruct (is_valid_op_cases line Hv) as [H|[H|[H|H]]];
    rewrite H; discriminate.
Qed.

(** A turn up to the point where the request is on the request FIFO. *)
Lemma client_turn_sends (bo : byte_order) (pid : Z) (my_fifo line0 : list byte)
  (a b : Z) (env : client_env) :
  is_valid_op (trim_newline line0) = true ->
  ce_req_open env = Opened ->
  (FIXED_REQ_LEN <= capacity (ce_req_out env))%nat ->
  client_turn bo pid my_fifo (Typed line0 (Some (a, b))) env
  = match ce_resp_open env with
    | OpenBlocks =>
        ([Sent (encode_request bo
                  (build_request (trim_newline line0) a b pid my_fifo))],
         Hang)
    | OpenFails _ =>
        ([Sent (encode_request bo
                  (build_request (trim_newline line0) a b pid my_fifo));
          Perror "open resp fifo"], NextTurn)
    | Opened =>
        let (shown, ctl) := receive bo (ce_resp env) in
        (Sent (encode_request bo
                 (build_request (trim_newline line0) a b pid my_fifo))
           :: shown, ctl)
    end.
Proof.
  intros Hv Ho Hcap. unfold client_turn.
  rewrite (valid_op_is_not_exit _ Hv), Hv, Ho. cbn [negb].
  destruct (build_request_lengths (trim_newline line0) a b pid my_fifo)
    as [L1 L2].
  pose proof (write_full_spec (ce_req_out env) _ FIXED_REQ_LEN
                (encode_request_length bo _ L1 L2)) as W.
  rewrite (proj2 (Nat.leb_le _ _) Hcap) in W. destruct W as [rest W].
  rewrite W. reflexivity.
Qed.

Lemma receive_full (bo : byte_order) (resp : endpoint)
  (rp : response_msg_t) (tail : list byte) :
  valid_response rp ->
  delivered resp = encode_response bo rp ++ tail ->
  receive bo resp = ([shown_for rp], NextTurn).
Proof.
  intros Hrp Hd. unfold receive.
  destruct (read_full_record resp (zeroed FIXED_RESP_LEN)
              (encode_response bo rp) tail FIXED_RESP_LEN
              (repeat_length _ _)
              (encode_response_length bo rp (proj2 (proj2 Hrp))) Hd)
    as (rest & R & _).
  rewrite R. cbn [ssize_of].
  change (Z.of_nat FIXED_RESP_LEN <? 0) with false.
  rewrite Z.ltb_irrefl. cbn [orb].
  rewrite decode_encode_response by exact Hrp.
  unfold shown_for. destruct (success rp =? 0); reflexivity.
Qed.

Lemma receive_short (bo : byte_order) (resp : endpoint) :
  (length (delivered resp) < FIXED_RESP_LEN)%nat ->
  receive bo resp
  = match ending_of resp with
    | Closed =>
        ([SaidNoAnswer (Z.of_nat (length (delivered resp)))], NextTurn)
    | Broken _ => ([SaidNoAnswer (-1)], NextTurn)
    | Silent => ([], Hang)
    end.
Proof.
  intros Hlt. unfold receive.
  pose proof (read_full_loop_spec resp (zeroed FIXED_RESP_LEN) FIXED_RESP_LEN
                0 ltac:(lia) (repeat_length _ _)) as S.
  rewrite Nat.sub_0_r, (proj2 (Nat.leb_gt _ _) Hlt) in S.
  fold (read_full resp (zeroed FIXED_RESP_LEN) FIXED_RESP_LEN) in S.
  destruct (ending_of resp) as [|e|].
  - destruct S as [rest S]. rewrite S. cbn [ssize_of Nat.add].
    rewrite (proj2 (Z.ltb_lt (Z.of_nat (length (delivered resp)))
                      (Z.of_nat FIXED_RESP_LEN))) by lia.
    rewrite orb_true_r. reflexivity.
  - destruct S as [_ [rest S]]. rewrite S. reflexivity.
  - rewrite S. reflexivity.
Qed.

(** X15.  A turn that goes well: for a line [is_valid_op] accepts (line
    ends trimmed) and two integers, when both FIFOs open, the request FIFO
    takes the request and the response FIFO delivers the encoding of a
    response, the client sends exactly the encoded request and shows the
    response: its [result] when [success] is not 0, its error message
    otherwise; then it goes on to the next turn. *)
Theorem turn_shows_answer (bo : byte_order) (pid : Z)
  (my_fifo line0 tail : list byte) (a b : Z) (env : client_env)
  (rp : response_msg_t)
  (Hvalid : is_valid_op (trim_newline line0) = true)
  (Hreq : ce_req_open env = Opened)
  (Hcap : (FIXED_REQ_LEN <= capacity (ce_req_out env))%nat)
  (Hresp : ce_resp_open env = Opened)
  (Hrp : valid_response rp)
  (Hback : delivered (ce_resp env) = encode_response bo rp ++ tail) :
  client_turn bo pid my_fifo (Typed line0 (Some (a, b))) env
  = ([Sent (encode_request bo
              (build_request (trim_newline line0) a b pid my_fifo));
      shown_for rp], NextTurn).
Proof.
  rewrite (client_turn_sends bo pid my_fifo line0 a b env Hvalid Hreq Hcap).
  rewrite Hresp, (receive_full bo (ce_resp env) rp tail Hrp Hback).
  reflexivity.
Qed.

Lemma turn_shows_answer_witness :
  client_turn LittleEndian 42 (sample_path ++ zeroed 105)
    (Typed (bytes_of "mul" ++ [x0d; x0a; x00]) (Some (6, 7)))
    {| ce_req_open := Opened; ce_req_out := [Accept 100; Accept 100];
       ce_resp_open := Opened;
       ce_resp := [Data (firstn 9 (encode_response LittleEndian
                    {| result := 42; success := 1;
                       error := zeroed ERROR_MAX |}));
                   Err EINTR;
                   Data (skipn 9 (encode_response LittleEndian
                    {| result := 42; success := 1;
                       error := zeroed ERROR_MAX |})); Eof] |}
  = ([Sent (encode_request LittleEndian (sample_request "mul" 6 7));
      SaidResult 42], NextTurn).
Proof.
  apply (turn_shows_answer LittleEndian 42 (sample_path ++ zeroed 105)
           (bytes_of "mul" ++ [x0d; x0a; x00]) [] 6 7 _
           {| result := 42; success := 1; error := zeroed ERROR_MAX |}).
  - reflexivity.
  - reflexivity.
  - vm_compute. lia.
  - reflexivity.
  - by_evaluation.
  - reflexivity.
Defined.

(** X16.  A turn without an answer: when the request went out but fewer
    than [FIXED_RESP_LEN] bytes come back, the client shows no result: it
    reports the short count when the response FIFO was closed, [-1] when a
    [read] failed, and goes on to the next turn; when nothing more comes
    and the FIFO stays open, it waits forever. *)
Theorem turn_without_full_response (bo : byte_order) (pid : Z)
  (my_fifo line0 : list byte) (a b : Z) (env : client_env)
  (Hvalid : is_valid_op (trim_newline line0) = true)
  (Hreq : ce_req_open env = Opened)
  (Hcap : (FIXED_REQ_LEN <= capacity (ce_req_out env))%nat)
  (Hresp : ce_resp_open env = Opened)
  (Hshort : (length (delivered (ce_resp env)) < FIXED_RESP_LEN)%nat) :
  client_turn bo pid my_fifo (Typed line0 (Some (a, b))) env
  = match ending_of (ce_resp env) with
    | Closed =>
        ([Sent (encode_request bo
                  (build_request (trim_newline line0) a b pid my_fifo));
          SaidNoAnswer (Z.of_nat (length (delivered (ce_resp env))))],
         NextTurn)
    | Broken _ =>
        ([Sent (encode_request bo
                  (build_request (trim_newline line0) a b pid my_fifo));
          SaidNoAnswer (-1)], NextTurn)
    | Silent =>
        ([Sent (encode_request bo
                  (build_request (trim_newline line0) a b pid my_fifo))],
         Hang)
    end.
Proof.
  rewrite (client_turn_sends bo pid my_fifo line0 a b env Hvalid Hreq Hcap).
  rewrite Hresp, (receive_short bo (ce_resp env) Hshort).
  destruct (ending_of (ce_resp env)); reflexivity.
Qed.

Lemma turn_without_full_response_witness :
  client_turn LittleEndian 42 (sample_path ++ zeroed 105)
    (Typed (bytes_of "div" ++ [x0a; x00]) (Some (int64_min, -1)))
    {| ce_req_open := Opened; ce_req_out := [Accept 200];
       ce_resp_open := Opened; ce_resp := [Eof] |}
  = ([Sent (encode_request LittleEndian
              (sample_request "div" int64_min (-1)));
      SaidNoAnswer 0], NextTurn).
Proof.
  apply (turn_without_full_response LittleEndian 42
           (sample_path ++ zeroed 105) (bytes_of "div" ++ [x0a; x00])
           int64_min (-1)
           {| ce_req_open := Opened; ce_req_out := [Accept 200];
              ce_resp_open := Opened; ce_resp := [Eof] |}).
  - reflexivity.
  - reflexivity.
  - vm_compute. lia.
  - reflexivity.
  - vm_compute. lia.
Defined.

Lemma write_full_sent_prefix (out : out_endpoint) (buf : list byte) (n : nat) :
  length buf = n ->
  match write_full out buf n with
  | WriteReturns _ sent _ => exists tail, buf = sent ++ tail
  | WriteBlocks sent => exists tail, buf = sent ++ tail
  end.
Proof.
  intros Hbuf. pose proof (write_full_spec out buf n Hbuf) as S.
  assert (P : forall k, exists tail, buf = firstn k buf ++ tail)
    by (intros k; exists (skipn k buf); symmetry; apply firstn_skipn).
  destruct (n <=? capacity out)%nat.
  - destruct S as [rest S]. rewrite S. exists []. symmetry. apply app_nil_r.
  - destruct (refusal out) as [e|].
    + destruct S as [_ [rest S]]. rewrite S. apply P.
    + rewrite S. apply P.
Qed.

Lemma receive_sends_nothing (bo : byte_order) (resp : endpoint) :
  filter is_sent (fst (receive bo resp)) = [].
Proof.
  unfold receive.
  destruct (read_full _ _ _) as [rr buf rest|]; [|reflexivity].
  destruct (_ || _); [reflexivity|].
  destruct (success _ =? 0); reflexivity.
Qed.

(** X17.  The client puts nothing on the request FIFO unless the user
    typed a line [is_valid_op] accepts and two integers: on the end of the
    input, on "exit", on any other word and on unreadable numbers nothing
    is sent.  What it sends in a turn is sent at most once and is the
    encoding of the request built from that line, or the beginning of it
    when the FIFO stops taking bytes. *)
Theorem client_sends_only_checked_requests (bo : byte_order) (pid : Z)
  (my_fifo : list byte) (input : typed) (env : client_env)
  (bytes : list byte)
  (Hin : In (Sent bytes) (fst (client_turn bo pid my_fifo input env))) :
  (length (filter is_sent (fst (client_turn bo pid my_fifo input env))) <= 1)%nat
  /\
  exists (line : list byte) (a b : Z) (rest : list byte),
    input = Typed line (Some (a, b)) /\
    is_valid_op (trim_newline line) = true /\
    encode_request bo (build_request (trim_newline line) a b pid my_fifo)
    = bytes ++ rest.
Proof.
  unfold client_turn in *.
  destruct input as [|line nums]; [destruct Hin|].
  destruct (strcmp (trim_newline line) (bytes_of "exit") =? 0);
    [destruct Hin|].
  destruct (is_valid_op (trim_newline line)) eqn:Hv; cbn [negb] in *;
    [|destruct Hin as [H|[]]; discriminate H].
  destruct nums as [[a b]|]; [|destruct Hin as [H|[]]; discriminate H].
  destruct (ce_req_open env);
    [| destruct Hin as [H|[]]; discriminate H | destruct Hin].
  destruct (build_request_lengths (trim_newline line) a b pid my_fifo)
    as [L1 L2].
  pose proof (write_full_sent_prefix (ce_req_out env) _ FIXED_REQ_LEN
                (encode_request_length bo _ L1 L2)) as P.
  assert (Hfound : forall sent,
            (exists tail, encode_request bo
                            (build_request (trim_newline line) a b pid my_fifo)
                          = sent ++ tail) ->
            Sent bytes = Sent sent ->
            exists (line' : list byte) (a' b' : Z) (rest : list byte),
              Typed line (Some (a, b)) = Typed line' (Some (a', b')) /\
              is_valid_op (trim_newline line') = true /\
              encode_request bo
                (build_request (trim_newline line') a' b' pid my_fifo)
              = bytes ++ rest).
  { intros sent [tail Ht] E. injection E as ->.
    exists line, a, b, tail. auto. }
  destruct (write_full _ _ _) as [[k|e] sent rest|sent].
  - destruct (ce_resp_open env).
    + pose proof (receive_sends_nothing bo (ce_resp env)) as N.
      destruct (receive bo (ce_resp env)) as [shown ctl].
      cbn [fst filter is_sent length] in *. rewrite N. split; [simpl; lia|].
      destruct Hin as [H|H]; [apply (Hfound sent P); congruence|].
      exfalso. assert (Hf : In (Sent bytes) (filter is_sent shown))
        by (apply filter_In; split; [exact H | reflexivity]).
      rewrite N in Hf. destruct Hf.
    + cbn [fst filter is_sent length] in *. split; [lia|].
      destruct Hin as [H|[H|[]]]; [|discriminate H].
      apply (Hfound sent P); congruence.
    + cbn [fst filter is_sent length] in *. split; [lia|].
      destruct Hin as [H|[]]. apply (Hfound sent P); congruence.
  - destruct (e =? EPIPE).
    + cbn [fst filter is_sent length] in *. split; [lia|].
      destruct Hin as [H|[]]. apply (Hfound sent P); congruence.
    + cbn [fst filter is_sent length] in *. split; [lia|].
      destruct Hin as [H|[H|[]]]; [|discriminate H].
      apply (Hfound sent P); congruence.
  - cbn [fst filter is_sent length] in *. split; [lia|].
    destruct Hin as [H|[]]. apply (Hfound sent P); congruence.
Qed.

Lemma client_sends_only_checked_requests_witness :
  In (Sent (firstn 10 (encode_request LittleEndian (sample_request "add" 6 9))))
     (fst (client_turn LittleEndian 42 (sample_path ++ zeroed 105)
             (Typed (bytes_of "add" ++ [x0a; x00]) (Some (6, 9)))
             {| ce_req_open := Opened; ce_req_out := [Accept 10; WErr 32];
                ce_resp_open := Opened; ce_resp := [] |})) /\
  exists (line : list byte) (a b : Z) (rest : list byte),
    Typed (bytes_of "add" ++ [x0a; x00]) (Some (6, 9))
    = Typed line (Some (a, b)) /\
    is_valid_op (trim_newline line) = true /\
    encode_request LittleEndian
      (build_request (trim_newline line) a b 42 (sample_path ++ zeroed 105))
    = firstn 10 (encode_request LittleEndian (sample_request "add" 6 9))
        ++ rest.
Proof.
  split; [left; reflexivity|].
  apply (client_sends_only_checked_requests LittleEndian 42
           (sample_path ++ zeroed 105)
           (Typed (bytes_of "add" ++ [x0a; x00]) (Some (6, 9)))
           {| ce_req_open := Opened; ce_req_out := [Accept 10; WErr 32];
              ce_resp_open := Opened; ce_resp := [] |}).
  left. reflexivity.
Defined.

Example client_turns_that_send_nothing :
  client_turn LittleEndian 42 sample_path NoMoreInput
    {| ce_req_open := Opened; ce_req_out := [Accept 200];
       ce_resp_open := Opened; ce_resp := [] |} = ([], Leave) /\
  client_turn LittleEndian 42 sample_path
    (Typed (bytes_of "exit" ++ [x0d; x0a; x00]) None)
    {| ce_req_open := Opened; ce_req_out := [Accept 200];
       ce_resp_open := Opened; ce_resp := [] |} = ([], Leave) /\
  client_turn LittleEndian 42 sample_path
    (Typed (bytes_of "addx" ++ [x0a; x00]) (Some (1, 2)))
    {| ce_req_open := Opened; ce_req_out := [Accept 200];
       ce_resp_open := Opened; ce_resp := [] |}
  = ([SaidInvalidOperation], NextTurn) /\
  client_turn LittleEndian 42 sample_path
    (Typed (bytes_of "add" ++ [x0a; x00]) None)
    {| ce_req_open := Opened; ce_req_out := [Accept 200];
       ce_resp_open := Opened; ce_resp := [] |}
  = ([SaidInvalidInput], NextTurn).
Proof. repeat split. Qed.

(* ===================================================================== *)
(** ** A request and its answer, from end to end                          *)
(* ===================================================================== *)

Lemma build_request_valid (line : list byte) (a b pid : Z)
  (path : list byte) :
  in_int64 a -> in_int64 b -> in_int32 pid ->
  valid_request (build_request line a b pid path).
Proof.
  intros Ha Hb Hp.
  destruct (build_request_lengths line a b pid path) as [L1 L2].
  unfold valid_request. repeat split; try assumption; apply Ha || apply Hb
    || apply Hp.
Qed.

(** X18.  One transaction through the three programs.  Let the user type
    an accepted operation and two 64-bit integers; let the request FIFO
    take what the client writes and deliver it to the server, [fork]
    succeed, [compute] return a response for the request, and the
    client's FIFO take what the worker writes and deliver it to the
    client.  Then the server dispatches exactly the request the client
    built, the worker writes exactly the encoding of the response
    [compute] returned, once, to the path named in the request, and the
    client shows that response. *)
Theorem request_response_end_to_end (bo : byte_order) (pid cpid : Z)
  (my_fifo line0 tail1 tail2 : list byte) (a b : Z)
  (env : client_env) (senv : iter_env) (srv : endpoint) (wout : out_endpoint)
  (rq : request_msg_t) (rp : response_msg_t)
  (Hrq : rq = build_request (trim_newline line0) a b pid my_fifo)
  (Hvalid : is_valid_op (trim_newline line0) = true)
  (Ha : in_int64 a) (Hb : in_int64 b) (Hpid : in_int32 pid)
  (Hreq : ce_req_open env = Opened)
  (Hcap : (FIXED_REQ_LEN <= capacity (ce_req_out env))%nat)
  (Hsrv : delivered srv = encode_request bo rq ++ tail1)
  (Hjunk : length (ie_rq senv) = FIXED_REQ_LEN)
  (Hfork : ie_fork senv = ForkParent cpid)
  (Hcomp : compute rq zero_response = Some rp)
  (Hwout : (FIXED_RESP_LEN <= capacity wout)%nat)
  (Hresp : ce_resp_open env = Opened)
  (Hback : delivered (ce_resp env) = encode_response bo rp ++ tail2) :
  (exists rest : endpoint,
     server_iteration bo {| stop_requested := false; req_fd := srv |} senv
     = {| it_trace := dispatched rq cpid;
          it_ctl := Continue {| stop_requested := ie_sigint senv;
                                req_fd := rest |} |}) /\
  writes_to (c_string (resp_fifo rq)) (trace (child bo rq Opened wout))
  = [encode_response bo rp] /\
  client_turn bo pid my_fifo (Typed line0 (Some (a, b))) env
  = ([Sent (encode_request bo rq); shown_for rp], NextTurn).
Proof.
  assert (Vrq : valid_request rq)
    by (rewrite Hrq; apply build_request_valid; assumption).
  assert (Vrp : valid_response rp)
    by (apply (compute_valid_response rq zero_response rp Vrq
                 zero_response_valid Hcomp)).
  split; [|split].
  - destruct (read_full_record srv (ie_rq senv) (encode_request bo rq) tail1
                FIXED_REQ_LEN Hjunk
                (encode_request_length bo rq (proj1 Vrq)
                   (proj2 (proj2 (proj2 (proj2 Vrq))))) Hsrv)
      as (rest & R & _).
    exists rest. unfold server_iteration. cbn [stop_requested req_fd].
    rewrite R. change FIXED_REQ_LEN with 152%nat. cbn iota.
    rewrite Nat.ltb_irrefl, decode_encode_request by exact Vrq.
    unfold dispatch. rewrite Hfork. reflexivity.
  - unfold child. rewrite Hcomp.
    pose proof (write_full_spec wout (encode_response bo rp) FIXED_RESP_LEN
                  (encode_response_length bo rp (proj2 (proj2 Vrp)))) as W.
    rewrite (proj2 (Nat.leb_le _ _) Hwout) in W. destruct W as [rest W].
    rewrite W. cbn [trace app writes_to].
    destruct (list_eq_dec Byte.byte_eq_dec _ _) as [_|F];
      [reflexivity | contradiction].
  - rewrite (client_turn_sends bo pid my_fifo line0 a b env Hvalid Hreq Hcap).
    rewrite Hresp, <- Hrq.
    rewrite (receive_full bo (ce_resp env) rp tail2 Vrp Hback).
    reflexivity.
Qed.

Lemma request_response_end_to_end_witness :
  (exists rest : endpoint,
     server_iteration LittleEndian
       {| stop_requested := false;
          req_fd := [Err EINTR;
                     Data (encode_request LittleEndian
                             (sample_request "div" (-7) 2))] |}
       sample_env
     = {| it_trace := dispatched (sample_request "div" (-7) 2) 1234;
          it_ctl := Continue {| stop_requested := false; req_fd := rest |} |})
  /\
  writes_to (c_string (resp_fifo (sample_request "div" (-7) 2)))
    (trace (child LittleEndian (sample_request "div" (-7) 2) Opened
              [Accept 70; Accept 70]))
  = [encode_response LittleEndian
       {| result := -3; success := 1; error := zeroed ERROR_MAX |}] /\
  client_turn LittleEndian 42 (sample_path ++ zeroed 105)
    (Typed (bytes_of "div" ++ [x0a; x00]) (Some (-7, 2)))
    {| ce_req_open := Opened; ce_req_out := [Accept 152];
       ce_resp_open := Opened;
       ce_resp := [Data (encode_response LittleEndian
                    {| result := -3; success := 1;
                       error := zeroed ERROR_MAX |}); Eof] |}
  = ([Sent (encode_request LittleEndian (sample_request "div" (-7) 2));
      shown_for {| result := -3; success := 1; error := zeroed ERROR_MAX |}],
     NextTurn).
Proof.
  apply (request_response_end_to_end LittleEndian 42 1234
           (sample_path ++ zeroed 105) (bytes_of "div" ++ [x0a; x00])
           [] [] (-7) 2
           {| ce_req_open := Opened; ce_req_out := [Accept 152];
              ce_resp_open := Opened;
              ce_resp := [Data (encode_response LittleEndian
                           {| result := -3; success := 1;
                              error := zeroed ERROR_MAX |}); Eof] |}
           sample_env
           [Err EINTR;
            Data (encode_request LittleEndian (sample_request "div" (-7) 2))]
           [Accept 70; Accept 70]
           (sample_request "div" (-7) 2)
           {| result := -3; success := 1; error := zeroed ERROR_MAX |}).
  - reflexivity.
  - reflexivity.
  - vm_compute; split; discriminate.
  - vm_compute; split; discriminate.
  - vm_compute; split; discriminate.
  - reflexivity.
  - vm_compute. lia.
  - reflexivity.
  - reflexivity.
  - reflexivity.
  - reflexivity.
  - vm_compute. lia.
  - reflexivity.
  - reflexivity.
Defined.

(* ===================================================================== *)
(** ** More on the worker and on the reply without a worker               *)
(* ===================================================================== *)

(** X19.  How a worker ends, for a well-formed request.  It is stopped by
    the arithmetic fault exactly when [compute] does not return; it is
    killed by SIGPIPE exactly when [compute] returns, the reply FIFO opens
    and a write fails with [EPIPE] before the whole response is written;
    it hangs exactly when [compute] returns and either the open of the
    reply FIFO does not return or the FIFO stops taking bytes, without
    failing, before the whole response is written; in every other case,
    success or failure alike, it exits with status 0. *)
Theorem worker_status (bo : byte_order) (rq : request_msg_t)
  (o : open_outcome) (out : out_endpoint)
  (Hrq : valid_request rq) :
  (status (child bo rq o out) = Killed <->
   compute rq zero_response = None) /\
  (status (child bo rq o out) = Sigpipe <->
   compute rq zero_response <> None /\
   o = Opened /\ (capacity out < FIXED_RESP_LEN)%nat /\
   refusal out = Some EPIPE) /\
  (status (child bo rq o out) = Blocked <->
   compute rq zero_response <> None /\
   (o = OpenBlocks \/
    (o = Opened /\ (capacity out < FIXED_RESP_LEN)%nat /\
     refusal out = None))) /\
  (forall code : Z, status (child bo rq o out) = Exited code -> code = 0).
Proof.
  unfold child.
  destruct (compute rq zero_response) as [rp|] eqn:Hc.
  2:{ cbn [status].
      split; [split; reflexivity|].
      split; [split; [intros H; discriminate H | intros [H _]; congruence]|].
      split; [|intros code H; discriminate H].
      split; [intros H; discriminate H|].
      intros [H _]. congruence. }
  pose proof (write_full_spec out (encode_response bo rp) FIXED_RESP_LEN
                (worker_response_length bo rq rp Hrq Hc)) as W.
  destruct o as [|e|]; cbn [status].
  - destruct (Nat.leb_spec FIXED_RESP_LEN (capacity out)) as [Hle|Hgt].
    + destruct W as [rest W]. rewrite W. cbn [status].
      split; [split; intros H; discriminate H|].
      split; [split; [intros H; discriminate H|intros (_ & _ & H & _); lia]|].
      split; [|intros code H; injection H as <-; reflexivity].
      split; [intros H; discriminate H|].
      intros [_ [H|(_ & H & _)]]; [discriminate H | lia].
    + destruct (refusal out) as [e|].
      * destruct W as [_ [rest W]]. rewrite W.
        destruct (Z.eqb_spec e EPIPE) as [Hp|Hp]; cbn [status].
        -- split; [split; intros H; discriminate H|].
           split; [split; [|reflexivity]|].
           { intros _. split; [discriminate|]. rewrite Hp. auto. }
           split; [|intros code H; discriminate H].
           split; [intros H; discriminate H|].
           intros [_ [H|(_ & _ & H)]]; discriminate H.
        -- split; [split; intros H; discriminate H|].
           split; [split; [intros H; discriminate H|]|].
           { intros (_ & _ & _ & [= H]). contradiction. }
           split; [|intros code H; injection H as <-; reflexivity].
           split; [intros H; discriminate H|].
           intros [_ [H|(_ & _ & H)]]; discriminate H.
      * rewrite W. cbn [status].
        split; [split; intros H; discriminate H|].
        split; [split; [intros H; discriminate H|]|].
        { intros (_ & _ & _ & H). discriminate H. }
        split; [|intros code H; discriminate H].
        split; [|reflexivity].
        intros _. split; [discriminate|]. right. auto.
  - split; [split; intros H; discriminate H|].
    split; [split; [intros H; discriminate H|]|].
    { intros (_ & H & _). discriminate H. }
    split; [|intros code H; injection H as <-; reflexivity].
    split; [intros H; discriminate H|].
    intros [_ [H|(H & _)]]; discriminate H.
  - split; [split; intros H; discriminate H|].
    split; [split; [intros H; discriminate H|]|].
    { intros (_ & H & _). discriminate H. }
    split; [|intros code H; discriminate H].
    split; [|reflexivity].
    intros _. split; [discriminate|]. left. reflexivity.
Qed.

Lemma worker_status_witness :
  valid_request (sample_request "add" 6 9) /\
  status (child LittleEndian (sample_request "add" 6 9) Opened
            [Accept 100; WErr EINTR; WErr EPIPE]) = Sigpipe.
Proof.
  split; [by_evaluation|].
  refine (proj2 (proj1 (proj2
            (worker_status LittleEndian (sample_request "add" 6 9)
               Opened [Accept 100; WErr EINTR; WErr EPIPE] _))) _).
  - by_evaluation.
  - split; [discriminate|].
    split; [reflexivity|]. split; [vm_compute; lia | reflexivity].
Defined.

(** X20.  When [fork] fails the server answers the request itself.  If
    [compute] returns and the reply FIFO opens, it writes to the path
    named in the request what the FIFO takes of the one encoded response.
    After a whole response, and after a write that failed other than by
    [EPIPE], it closes and goes on to the next request; if the FIFO cannot
    be opened it writes nothing and goes on.  A write that fails with
    [EPIPE] kills the server by SIGPIPE; while the open or a write does
    not return, the server serves nobody; and where [compute] does not
    return, it is the server that is stopped by the arithmetic fault. *)
Theorem fork_failure_is_answered_in_the_server (bo : byte_order)
  (rq : request_msg_t) (env : iter_env) (st : server_state) (e : Z)
  (Hfork : ie_fork env = ForkFails e)
  (Hrq : valid_request rq) (Hrp : valid_response (ie_rp env)) :
  let path := c_string (resp_fifo rq) in
  let head := [EvPrint (MsgRecv rq); EvLog (MsgRecv rq);
               EvFork rq (ForkFails e); EvLog (MsgForkFailed e)] in
  match compute rq (ie_rp env) with
  | None => dispatch bo rq env st = {| it_trace := head; it_ctl := Fault |}
  | Some rp =>
      match ie_open env with
      | OpenBlocks =>
          dispatch bo rq env st
          = {| it_trace := head ++ [EvOpen path OpenBlocks];
               it_ctl := Stuck |}
      | OpenFails e' =>
          dispatch bo rq env st
          = {| it_trace := head ++ [EvOpen path (OpenFails e')];
               it_ctl := Continue st |}
      | Opened =>
          if (FIXED_RESP_LEN <=? capacity (ie_out env))%nat then
            dispatch bo rq env st
            = {| it_trace := head ++ [EvOpen path Opened;
                                      EvWrite path (encode_response bo rp);
                                      EvClose path];
                 it_ctl := Continue st |}
          else
            match refusal (ie_out env) with
            | None =>
                dispatch bo rq env st
                = {| it_trace :=
                       head ++ [EvOpen path Opened;
                                EvWrite path
                                  (firstn (capacity (ie_out env))
                                     (encode_response bo rp))];
                     it_ctl := Stuck |}
            | Some e' =>
                if e' =? EPIPE then
                  dispatch bo rq env st
                  = {| it_trace :=
                         head ++ [EvOpen path Opened;
                                  EvWrite path
                                    (firstn (capacity (ie_out env))
                                       (encode_response bo rp))];
                       it_ctl := PipeFault |}
                else
                  dispatch bo rq env st
                  = {| it_trace :=
                         head ++ [EvOpen path Opened;
                                  EvWrite path
                                    (firstn (capacity (ie_out env))
                                       (encode_response bo rp));
                                  EvClose path];
                       it_ctl := Continue st |}
            end
      end
  end.
Proof.
  intros path head. unfold dispatch. rewrite Hfork.
  destruct (compute rq (ie_rp env)) as [rp|] eqn:Hc; [|reflexivity].
  destruct (ie_open env) as [|e'|]; try reflexivity.
  pose proof (compute_valid_response rq (ie_rp env) rp Hrq Hrp Hc) as Vrp.
  pose proof (write_full_spec (ie_out env) (encode_response bo rp)
                FIXED_RESP_LEN
                (encode_response_length bo rp (proj2 (proj2 Vrp)))) as W.
  destruct (FIXED_RESP_LEN <=? capacity (ie_out env))%nat.
  - destruct W as [rest W]. rewrite W. reflexivity.
  - destruct (refusal (ie_out env)) as [e'|].
    + destruct W as [_ [rest W]]. rewrite W.
      destruct (e' =? EPIPE); reflexivity.
    + rewrite W. reflexivity.
Qed.

Lemma fork_failure_is_answered_in_the_server_witness :
  dispatch LittleEndian (sample_request "add" 6 9)
    {| ie_sigint := false; ie_rq := zeroed FIXED_REQ_LEN; ie_reopen := None;
       ie_fork := ForkFails 11;
       ie_rp := {| result := 99; success := 5;
                   error := bytes_of "junk" ++ zeroed 124 |};
       ie_open := Opened; ie_out := [Accept 50; WErr EPIPE] |}
    {| stop_requested := false; req_fd := [] |}
  = {| it_trace :=
         [EvPrint (MsgRecv (sample_request "add" 6 9));
          EvLog (MsgRecv (sample_request "add" 6 9));
          EvFork (sample_request "add" 6 9) (ForkFails 11);
          EvLog (MsgForkFailed 11);
          EvOpen (c_string (resp_fifo (sample_request "add" 6 9))) Opened;
          EvWrite (c_string (resp_fifo (sample_request "add" 6 9)))
            (firstn 50
               (encode_response LittleEndian
                  {| result := 15; success := 1;
                     error := x00 :: bytes_of "unk" ++ zeroed 124 |}))];
       it_ctl := PipeFault |}.
Proof.
  apply (fork_failure_is_answered_in_the_server LittleEndian
           (sample_request "add" 6 9)
           {| ie_sigint := false; ie_rq := zeroed FIXED_REQ_LEN;
              ie_reopen := None; ie_fork := ForkFails 11;
              ie_rp := {| result := 99; success := 5;
                          error := bytes_of "junk" ++ zeroed 124 |};
              ie_open := Opened; ie_out := [Accept 50; WErr EPIPE] |}
           {| stop_requested := false; req_fd := [] |} 11).
  - reflexivity.
  - by_evaluation.
  - by_evaluation.
Defined.


(* ===================================================================== *)
(** ** Sessions side by side                                              *)
(* ===================================================================== *)

Lemma server_loop_dispatch_stream (bo : byte_order) (cpid : Z)
  (junk tail : list byte) (rqs : list request_msg_t) :
  length junk = FIXED_REQ_LEN ->
  Forall valid_request rqs ->
  forall fd : endpoint,
    delivered fd = flat_map (encode_request bo) rqs ++ tail ->
    exists rest : endpoint,
      server_loop bo (map (fun _ => quiet_env junk cpid) rqs)
        {| stop_requested := false; req_fd := fd |}
      = (flat_map (fun rq => dispatched rq cpid) rqs,
         Continue {| stop_requested := false; req_fd := rest |}) /\
      delivered rest = tail.
Proof.
  intros Hjunk Hall.
  induction Hall as [|rq rqs Hrq Hall IH]; intros fd Hfd.
  - exists fd. split; [reflexivity | exact Hfd].
  - cbn [flat_map] in Hfd. rewrite <- app_assoc in Hfd.
    destruct (read_full_record fd junk (encode_request bo rq) _ FIXED_REQ_LEN
                Hjunk (encode_request_length bo rq (proj1 Hrq)
                         (proj2 (proj2 (proj2 (proj2 Hrq))))) Hfd)
      as (rest1 & R & D & _).
    destruct (IH rest1 D) as (rest & L & D').
    exists rest. split; [|exact D'].
    cbn [map flat_map server_loop].
    assert (Hit : server_iteration bo
                    {| stop_requested := false; req_fd := fd |}
                    (quiet_env junk cpid)
            = {| it_trace := dispatched rq cpid;
                 it_ctl := Continue {| stop_requested := false;
                                       req_fd := rest1 |} |}).
    { unfold server_iteration. cbn [stop_requested req_fd ie_rq quiet_env].
      rewrite R. change FIXED_REQ_LEN with 152%nat. cbn iota.
      rewrite Nat.ltb_irrefl, decode_encode_request by exact Hrq.
      reflexivity. }
    rewrite Hit. cbn [it_ctl it_trace]. rewrite L. reflexivity.
Qed.

Lemma reply_path_of_request (junk line : list byte) (a b pid : Z) :
  0 <= pid ->
  c_string (resp_fifo (build_request line a b pid (client_fifo junk pid)))
  = fifo_name pid.
Proof.
  intros Hp. destruct (fifo_name_shape pid Hp) as [Hnn Hlen].
  assert (Hbuf : client_fifo junk pid
                 = fifo_name pid
                     ++ x00 :: skipn (S (length (fifo_name pid))) junk).
  { unfold client_fifo, snprintf, RESP_NAME_MAX.
    rewrite firstn_all2 by lia. reflexivity. }
  rewrite build_request_resp_fifo, Hbuf.
  rewrite strlen_app_nul by exact Hnn.
  replace (Nat.min (RESP_NAME_MAX - 1) (length (fifo_name pid)))
    with (length (fifo_name pid)) by (unfold RESP_NAME_MAX; lia).
  rewrite firstn_app_exact by reflexivity.
  destruct (RESP_NAME_MAX - length (fifo_name pid))%nat as [|z] eqn:Ez;
    [unfold RESP_NAME_MAX in Ez; lia|].
  cbn [repeat]. apply c_string_app_nul, Hnn.
Qed.

Lemma fifo_name_inj (pid pid' : Z) :
  0 <= pid <= int32_max -> 0 <= pid' <= int32_max ->
  fifo_name pid = fifo_name pid' -> pid = pid'.
Proof.
  unfold fifo_name, itoa, int32_max. intros Hp Hp'.
  rewrite (proj2 (Z.ltb_ge pid 0)), (proj2 (Z.ltb_ge pid' 0)) by lia.
  intros H. apply app_inv_head, app_inv_tail in H.
  apply (utoa_loop_inj 10 pid pid' [] []); try reflexivity; try exact H.
  all: change (10 ^ Z.of_nat 10) with 10000000000; lia.
Qed.

(** A worker writes to the path named in its request and to no other. *)
Lemma child_writes_elsewhere (bo : byte_order) (rq : request_msg_t)
  (o : open_outcome) (out : out_endpoint) (p : list byte) :
  p <> c_string (resp_fifo rq) ->
  writes_to p (trace (child bo rq o out)) = [].
Proof.
  intros Hp. unfold child.
  assert (Hother : forall (A : Type) (x y : A),
            (if list_eq_dec Byte.byte_eq_dec (c_string (resp_fifo rq)) p
             then x else y) = y)
    by (intros A x y;
        destruct (list_eq_dec Byte.byte_eq_dec (c_string (resp_fifo rq)) p);
        [congruence | reflexivity]).
  destruct (compute rq zero_response) as [rp|]; [|reflexivity].
  destruct o as [|e|]; try reflexivity.
  destruct (write_full _ _ _) as [[k|e] sent rest|sent];
    try destruct (e =? EPIPE);
    cbn [trace app writes_to]; rewrite Hother; reflexivity.
Qed.

Lemma child_writes_at_most_once (bo : byte_order) (rq : request_msg_t)
  (o : open_outcome) (out : out_endpoint) (p : list byte) :
  (length (writes_to p (trace (child bo rq o out))) <= 1)%nat.
Proof.
  unfold child.
  destruct (compute rq zero_response) as [rp|]; [|simpl; lia].
  destruct o as [|e|]; try (simpl; lia).
  destruct (write_full _ _ _) as [[k|e] sent rest|sent];
    try destruct (e =? EPIPE);
    cbn [trace app writes_to];
    destruct (list_eq_dec Byte.byte_eq_dec _ _); simpl; lia.
Qed.

Lemma child_writes_the_response (bo : byte_order)
  (rq : request_msg_t) (rp : response_msg_t) (out : out_endpoint) :
  valid_request rq -> compute rq zero_response = Some rp ->
  (FIXED_RESP_LEN <= capacity out)%nat ->
  writes_to (c_string (resp_fifo rq)) (trace (child bo rq Opened out))
  = [encode_response bo rp].
Proof.
  intros Hrq Hc Hcap. unfold child. rewrite Hc.
  pose proof (write_full_spec out (encode_response bo rp) FIXED_RESP_LEN
                (worker_response_length bo rq rp Hrq Hc)) as W.
  rewrite (proj2 (Nat.leb_le _ _) Hcap) in W. destruct W as [rest W].
  rewrite W. cbn [trace app writes_to].
  destruct (list_eq_dec Byte.byte_eq_dec _ _) as [_|F];
    [reflexivity | contradiction].
Qed.

Lemma NoDup_map_inj {A B : Type} (f : A -> B) (l : list A) (x y : A) :
  NoDup (map f l) -> In x l -> In y l -> f x = f y -> x = y.
Proof.
  induction l as [|z l IH]; intros Hnd Hx Hy Hf; [destruct Hx|].
  cbn [map] in Hnd. inversion Hnd as [|? ? Hnotin Hnd']; subst.
  destruct Hx as [->|Hx]; destruct Hy as [->|Hy].
  - reflexivity.
  - exfalso. apply Hnotin. rewrite Hf. apply in_map, Hy.
  - exfalso. apply Hnotin. rewrite <- Hf. apply in_map, Hx.
  - apply IH; assumption.
Qed.

Lemma session_request_valid (s : session) :
  session_ok s -> valid_request (session_request s).
Proof.
  intros (Hp & _ & Ha & Hb). apply build_request_valid; try assumption.
  unfold in_int32, int32_min, int32_max in *. lia.
Qed.

(** C9, amended.  Let N client sessions with pairwise different pids each
    issue one accepted request, and let the requests reach the server in
    any order and any chunking, with [fork] succeeding.  Then the server
    hands every request to a worker of its own, in the order of arrival.
    The request of a session names the FIFO of that session; its worker
    never writes to the FIFO of another session, and writes to its own at
    most once.  And for every session on whose request [compute] returns,
    when the reply goes through (the FIFO takes the response and the
    client reads what its worker wrote), exactly one response is written
    to the session's FIFO: the response to its own request, which is what
    the session shows. *)
Theorem sessions_get_their_own_answers (bo : byte_order) (cpid : Z)
  (junk tail : list byte) (ss arrival : list session) (fd : endpoint)
  (Hdistinct : NoDup (map s_pid ss))
  (Hok : Forall session_ok ss)
  (Harr : Permutation ss arrival)
  (Hjunk : length junk = FIXED_REQ_LEN)
  (Hfd : delivered fd
         = flat_map (encode_request bo) (map session_request arrival)
             ++ tail) :
  (exists rest : endpoint,
     server_loop bo
       (map (fun _ => quiet_env junk cpid) (map session_request arrival))
       {| stop_requested := false; req_fd := fd |}
     = (flat_map (fun rq => dispatched rq cpid)
          (map session_request arrival),
        Continue {| stop_requested := false; req_fd := rest |}) /\
     delivered rest = tail) /\
  (forall s : session, In s ss ->
     c_string (resp_fifo (session_request s)) = fifo_name (s_pid s) /\
     (forall (s' : session) (o : open_outcome) (out : out_endpoint),
        In s' ss -> s' <> s ->
        writes_to (fifo_name (s_pid s'))
          (trace (child bo (session_request s) o out)) = []) /\
     (forall (o : open_outcome) (out : out_endpoint),
        (length (writes_to (fifo_name (s_pid s))
                   (trace (child bo (session_request s) o out))) <= 1)%nat) /\
     (forall (rp : response_msg_t) (out : out_endpoint)
             (env : client_env) (tail' : list byte),
        compute (session_request s) zero_response = Some rp ->
        (FIXED_RESP_LEN <= capacity out)%nat ->
        ce_req_open env = Opened ->
        (FIXED_REQ_LEN <= capacity (ce_req_out env))%nat ->
        ce_resp_open env = Opened ->
        delivered (ce_resp env)
        = concat (writes_to (fifo_name (s_pid s))
                    (trace (child bo (session_request s) Opened out)))
            ++ tail' ->
        writes_to (fifo_name (s_pid s))
          (trace (child bo (session_request s) Opened out))
        = [encode_response bo rp] /\
        client_turn bo (s_pid s) (session_fifo s)
          (Typed (s_line s) (Some (s_a s, s_b s))) env
        = ([Sent (encode_request bo (session_request s)); shown_for rp],
           NextTurn))).
Proof.
  split.
  - apply server_loop_dispatch_stream; [exact Hjunk | | exact Hfd].
    apply Forall_map.
    apply (Permutation_Forall Harr).
    apply (Forall_impl _ session_request_valid Hok).
  - intros s Hs.
    pose proof (proj1 (Forall_forall _ _) Hok s Hs) as Hs_ok.
    destruct Hs_ok as (Hpid & Hvalid & Ha & Hb).
    assert (Hpath : c_string (resp_fifo (session_request s))
                    = fifo_name (s_pid s))
      by (apply reply_path_of_request; lia).
    split; [exact Hpath|]. split; [|split].
    + intros s' o out Hs' Hne. apply child_writes_elsewhere.
      rewrite Hpath. intros E. apply Hne.
      apply (NoDup_map_inj s_pid ss s' s Hdistinct Hs' Hs).
      apply fifo_name_inj; try exact E; try exact Hpid.
      apply (proj1 (Forall_forall _ _) Hok s' Hs').
    + intros o out. apply child_writes_at_most_once.
    + intros rp out env tail' Hc Hcap Hreq Hreqcap Hresp Hback.
      pose proof (session_request_valid s (conj Hpid (conj Hvalid (conj Ha Hb))))
        as Vrq.
      pose proof (compute_valid_response _ _ _ Vrq zero_response_valid Hc)
        as Vrp.
      assert (Hw : writes_to (fifo_name (s_pid s))
                     (trace (child bo (session_request s) Opened out))
                   = [encode_response bo rp])
        by (rewrite <- Hpath; apply child_writes_the_response; assumption).
      split; [exact Hw|].
      rewrite Hw in Hback. cbn [concat] in Hback.
      rewrite app_nil_r in Hback.
      rewrite (client_turn_sends bo (s_pid s) (session_fifo s) (s_line s)
                 (s_a s) (s_b s) env Hvalid Hreq Hreqcap).
      rewrite Hresp, (receive_full bo (ce_resp env) rp tail' Vrp Hback).
      reflexivity.
Qed.

Lemma sample_session_ok (pid : Z) (name : string) (a b : Z) :
  0 <= pid <= int32_max ->
  is_valid_op (trim_newline (bytes_of name ++ [x0a; x00])) = true ->
  in_int64 a -> in_int64 b ->
  session_ok (sample_session pid name a b).
Proof.
  intros Hp Hv Ha Hb. unfold session_ok, sample_session.
  cbn [s_pid s_line s_a s_b]. auto.
Qed.

(** C9 as stated fails already for a single session: the session asks for
    [div INT64_MIN -1], the server hands the request to a worker, the
    worker is stopped inside [compute] before it opens the session's FIFO,
    nothing is ever written there, and the client waits without end: the
    request receives no response. *)
Lemma lone_session_unanswered_counterexample :
  session_ok (sample_session 42 "div" int64_min (-1)) /\
  NoDup (map s_pid [sample_session 42 "div" int64_min (-1)]) /\
  server_loop LittleEndian [quiet_env (zeroed FIXED_REQ_LEN) 1234]
    {| stop_requested := false;
       req_fd := [Data (encode_request LittleEndian
                          (session_request
                             (sample_session 42 "div" int64_min (-1))))] |}
  = (dispatched (session_request (sample_session 42 "div" int64_min (-1)))
       1234,
     Continue {| stop_requested := false; req_fd := [] |}) /\
  c_string (resp_fifo (session_request
                         (sample_session 42 "div" int64_min (-1))))
  = fifo_name 42 /\
  (forall (o : open_outcome) (out : out_endpoint),
     child LittleEndian
       (session_request (sample_session 42 "div" int64_min (-1))) o out
     = {| trace := []; status := Killed |}) /\
  (forall (o : open_outcome) (out : out_endpoint),
     writes_to (fifo_name 42)
       (trace (child LittleEndian
                 (session_request (sample_session 42 "div" int64_min (-1)))
                 o out)) = []) /\
  client_turn LittleEndian 42
    (session_fifo (sample_session 42 "div" int64_min (-1)))
    (Typed (s_line (sample_session 42 "div" int64_min (-1)))
       (Some (int64_min, -1)))
    unanswered_env
  = ([Sent (encode_request LittleEndian
              (session_request (sample_session 42 "div" int64_min (-1))))],
     Hang).
Proof.
  assert (Hc : compute (session_request
                          (sample_session 42 "div" int64_min (-1)))
                 zero_response = None) by (vm_compute; reflexivity).
  assert (Hk : forall (o : open_outcome) (out : out_endpoint),
            child LittleEndian
              (session_request (sample_session 42 "div" int64_min (-1)))
              o out
            = {| trace := []; status := Killed |})
    by (intros o out; unfold child; rewrite Hc; reflexivity).
  split.
  { apply sample_session_ok.
    - unfold int32_max; lia.
    - vm_compute; reflexivity.
    - unfold in_int64, int64_min, int64_max; lia.
    - unfold in_int64, int64_min, int64_max; lia. }
  split; [repeat constructor; intros []|].
  split; [vm_compute; reflexivity|].
  split; [vm_compute; reflexivity|].
  split; [exact Hk|].
  split; [intros o out; rewrite Hk; reflexivity|].
  vm_compute; reflexivity.
Qed.

Lemma sessions_get_their_own_answers_witness :
  NoDup (map s_pid sample_sessions) /\
  Forall session_ok sample_sessions /\
  Permutation sample_sessions sample_arrival /\
  length (zeroed FIXED_REQ_LEN) = FIXED_REQ_LEN /\
  delivered sample_requests_inbound
  = flat_map (encode_request LittleEndian)
      (map session_request sample_arrival) ++ [] /\
  (exists rest : endpoint,
     server_loop LittleEndian
       (map (fun _ => quiet_env (zeroed FIXED_REQ_LEN) 1234)
          (map session_request sample_arrival))
       {| stop_requested := false; req_fd := sample_requests_inbound |}
     = (flat_map (fun rq => dispatched rq 1234)
          (map session_request sample_arrival),
        Continue {| stop_requested := false; req_fd := rest |}) /\
     delivered rest = []) /\
  (forall s : session, In s sample_sessions ->
     c_string (resp_fifo (session_request s)) = fifo_name (s_pid s) /\
     (forall (s' : session) (o : open_outcome) (out : out_endpoint),
        In s' sample_sessions -> s' <> s ->
        writes_to (fifo_name (s_pid s'))
          (trace (child LittleEndian (session_request s) o out)) = []) /\
     (forall (o : open_outcome) (out : out_endpoint),
        (length (writes_to (fifo_name (s_pid s))
                   (trace (child LittleEndian (session_request s) o out)))
         <= 1)%nat) /\
     (forall (rp : response_msg_t) (out : out_endpoint)
             (env : client_env) (tail' : list byte),
        compute (session_request s) zero_response = Some rp ->
        (FIXED_RESP_LEN <= capacity out)%nat ->
        ce_req_open env = Opened ->
        (FIXED_REQ_LEN <= capacity (ce_req_out env))%nat ->
        ce_resp_open env = Opened ->
        delivered (ce_resp env)
        = concat (writes_to (fifo_name (s_pid s))
                    (trace (child LittleEndian (session_request s)
                              Opened out)))
            ++ tail' ->
        writes_to (fifo_name (s_pid s))
          (trace (child LittleEndian (session_request s) Opened out))
        = [encode_response LittleEndian rp] /\
        client_turn LittleEndian (s_pid s) (session_fifo s)
          (Typed (s_line s) (Some (s_a s, s_b s))) env
        = ([Sent (encode_request LittleEndian (session_request s));
            shown_for rp],
           NextTurn))).
Proof.
  assert (Hdistinct : NoDup (map s_pid sample_sessions)).
  { unfold sample_sessions. cbn [map s_pid sample_session].
    repeat constructor; cbn [In]; [intros [H|[]]; discriminate H | intros []]. }
  assert (Hok : Forall session_ok sample_sessions).
  { unfold sample_sessions.
    repeat constructor; apply sample_session_ok;
      first [ unfold int32_max; lia
            | unfold in_int64, int64_min, int64_max; lia
            | vm_compute; reflexivity ]. }
  assert (Harr : Permutation sample_sessions sample_arrival)
    by apply perm_swap.
  assert (Hjunk : length (zeroed FIXED_REQ_LEN) = FIXED_REQ_LEN)
    by reflexivity.
  assert (Hfd : delivered sample_requests_inbound
                = flat_map (encode_request LittleEndian)
                    (map session_request sample_arrival) ++ [])
    by (vm_compute; reflexivity).
  split; [exact Hdistinct|]. split; [exact Hok|]. split; [exact Harr|].
  split; [exact Hjunk|]. split; [exact Hfd|].
  exact (sessions_get_their_own_answers LittleEndian 1234
           (zeroed FIXED_REQ_LEN) [] sample_sessions sample_arrival
           sample_requests_inbound Hdistinct Hok Harr Hjunk Hfd).
Defined.
